(** * headcannon-core: the head-tracking core, embedded and verified

    A shallow embedding of the C++ sources under [src/cpp], followed by the
    theorems that settle the claims C1 to C10 of the specification.

    - [ieee]: the IEEE-754 values that travel on the wire (binary64) and
      that the receivers store (binary32), after the Standard Library's
      [SpecFloat];
    - [OpenTrackPacket]: the wire codec ([opentrack_packet.cpp]);
    - [socket], [UdpSocket], [PollingUdpReceiver], [UdpReceiver]: the
      transport and the two receivers, in their POSIX branch;
    - [math]: [deadzone_utils.h] and [smoothing_utils.h];
    - [CenterOffsetManager] and [TrackingProcessor]: the per-frame pipeline.

    Output parameters ([TrackingPose& pose], [float& yaw]) are modelled by
    explicit state passing: a function takes the caller's value and returns
    the value the caller holds afterwards.  Member functions take the object
    and return it.  Clock readings ([steady_clock::now()]), the outcome of
    opening a socket and the results of [recvfrom] are inputs.

    The codec and the receivers only move, compare by class and narrow
    floating-point values; there the values are IEEE bit-exact.  The math
    utilities and the processor compute with them ([std::exp] included);
    there [float] and [double] are read as real numbers. *)

From Stdlib Require Import ZArith List Bool Lia SpecFloat.
From Stdlib.Strings Require Import Byte.
From Stdlib Require Import Reals Lra.
Import ListNotations.
Local Open Scope Z_scope.

(** ** IEEE-754 values *)

Module ieee.

(** [float] is binary32 (24 bits of precision, [emax = 128]) and [double]
    is binary64 (53 bits, [emax = 1024]); both are kept as [spec_float]. *)
Definition float : Type := spec_float.
Definition double : Type := spec_float.

(** [std::isnan] and [std::isinf]. *)
Definition isnan (x : spec_float) : bool :=
  match x with S754_nan => true | _ => false end.

Definition isinf (x : spec_float) : bool :=
  match x with S754_infinity _ => true | _ => false end.

(** The unsigned value of a little-endian byte string. *)
Fixpoint le_value (bs : list byte) : Z :=
  match bs with
  | [] => 0
  | b :: rest => Z.of_N (Byte.to_N b) + 256 * le_value rest
  end.

(** The binary64 value of a 64-bit pattern: sign bit 63, biased exponent
    in bits 62..52, fraction in bits 51..0. *)
Definition double_of_bits (w : Z) : double :=
  let s := Z.testbit w 63 in
  let e := Z.land (Z.shiftr w 52) 2047 in
  let m := Z.land w (Z.ones 52) in
  if e =? 2047 then
    if m =? 0 then S754_infinity s else S754_nan
  else if e =? 0 then
    match m with
    | Zpos p => S754_finite s p (-1074)
    | _ => S754_zero s
    end
  else S754_finite s (Z.to_pos (m + 2 ^ 52)) (e - 1075).

(** [static_cast<float>(double)]: round to nearest, ties to even, into
    binary32; zeros, infinities and NaN keep their class. *)
Definition float_of_double (x : double) : float :=
  match x with
  | S754_finite s m e => binary_round 24 128 s m e
  | _ => x
  end.

(** The binary32 value of an integer literal such as [10.0f]. *)
Definition float_of_Z (z : Z) : float := binary_normalize 24 128 z 0 false.

(** The bit pattern of a binary64 value (NaN as the quiet NaN without
    payload) and the little-endian bytes of a pattern; they build the
    datagrams of the examples. *)
Definition bits_of_double (x : double) : Z :=
  let sign (s : bool) := if s then 2 ^ 63 else 0 in
  match x with
  | S754_zero s => sign s
  | S754_infinity s => sign s + 2047 * 2 ^ 52
  | S754_nan => 2047 * 2 ^ 52 + 2 ^ 51
  | S754_finite s m e =>
      if Z.pos m <? 2 ^ 52 then sign s + Z.pos m
      else sign s + (e + 1075) * 2 ^ 52 + (Z.pos m - 2 ^ 52)
  end.

Definition byte_of_Z (z : Z) : byte :=
  match Byte.of_N (Z.to_N (z mod 256)) with
  | Some b => b
  | None => x00
  end.

Fixpoint le_bytes (n : nat) (w : Z) : list byte :=
  match n with
  | O => []
  | S n' => byte_of_Z w :: le_bytes n' (w / 256)
  end.

Definition double_of_Z (z : Z) : double := binary_normalize 53 1024 z 0 false.

(** [0.0f]. *)
Definition zerof : float := S754_zero false.

End ieee.

(** ** [tracking_pose.h] *)

(** [struct TrackingPose], over the type [F] of its angle fields:
    binary32 values in the codec and the receivers, real numbers in the
    processing pipeline (see [math]). *)
Module TrackingPose.

Record t (F : Type) : Type := mk {
  yaw : F;
  pitch : F;
  roll : F;
  timestamp_us : Z
}.
Arguments mk {F} _ _ _ _.
Arguments yaw {F} _.
Arguments pitch {F} _.
Arguments roll {F} _.
Arguments timestamp_us {F} _.

(** [bool IsValid() const]. *)
Definition IsValid {F} (p : t F) : bool := negb (timestamp_us p =? 0).

End TrackingPose.

(** [struct TrackingData]: the three scalars and the flag of the threaded
    receiver, here read and written one call at a time. *)
Module TrackingData.
Import ieee.

Record t : Type := mk {
  yaw : float;
  pitch : float;
  roll : float;
  has_data : bool
}.

Definition init : t := mk zerof zerof zerof false.

Definition Set_ (d : t) (y p r : float) : t := mk y p r true.

(** [bool Get(float& y, float& p, float& r) const]: the flag and the
    values the three references hold afterwards. *)
Definition Get (d : t) (ypr : float * float * float)
    : bool * (float * float * float) :=
  if negb (has_data d) then (false, ypr)
  else (true, (yaw d, pitch d, roll d)).

Definition Reset (d : t) : t := init.

End TrackingData.

(** ** [opentrack_packet.cpp] *)

Module OpenTrackPacket.
Import ieee.

Definition kMinPacketSize : Z := 48.
Definition kYawOffset : Z := 24.
Definition kPitchOffset : Z := 32.
Definition kRollOffset : Z := 40.

(** [std::memcpy(&d, bytes + off, sizeof(double))] on a little-endian
    machine.  The source reads past the buffer when [length] overstates it
    (undefined behaviour); here the missing bytes read as zero. *)
Definition memcpy_double (bytes : list byte) (off : Z) : double :=
  double_of_bits (le_value (firstn 8 (skipn (Z.to_nat off) bytes))).

(** [static bool TryParse(const void* data, size_t length, TrackingPose& pose)].
    [data] is [None] for the null pointer; [now] is the reading that
    [TrackingPose::CurrentTimestamp()] takes in the three-float
    constructor; the second component is [pose] after the call. *)
Definition TryParse (data : option (list byte)) (length : Z) (now : Z)
    (pose : TrackingPose.t float) : bool * TrackingPose.t float :=
  match data with
  | None => (false, pose)
  | Some bytes =>
      if length <? kMinPacketSize then (false, pose)
      else
        let yaw := memcpy_double bytes kYawOffset in
        let pitch := memcpy_double bytes kPitchOffset in
        let roll := memcpy_double bytes kRollOffset in
        if isnan yaw || isinf yaw ||
           isnan pitch || isinf pitch ||
           isnan roll || isinf roll
        then (false, pose)
        else (true, TrackingPose.mk (float_of_double yaw)
                      (float_of_double pitch) (float_of_double roll) now)
  end.

(** A value that is NaN or infinite. *)
Definition nonfinite (x : double) : Prop := isnan x = true \/ isinf x = true.

(** A datagram of six doubles, the last three being yaw, pitch and roll. *)
Definition packet (x y z yw pt rl : double) : list byte :=
  flat_map (fun d => le_bytes 8 (bits_of_double d)) [x; y; z; yw; pt; rl].

End OpenTrackPacket.

(** ** [socket_types.h] and [udp_socket.cpp] (the POSIX branch) *)

Module socket.

Definition INVALID_SOCKET : Z := -1.
Definition SOCKET_ERROR : Z := -1.
Definition INADDR_LOOPBACK : Z := 2130706433.  (* 127.0.0.1 *)

(** [sockaddr_in], reduced to [ntohl(sin_addr.s_addr)]. *)
Record sockaddr_in : Type := { s_addr_host : Z }.

Definition IsRemoteAddress (addr : sockaddr_in) : bool :=
  negb (s_addr_host addr =? INADDR_LOOPBACK).

(** What one call of [recvfrom] on the non-blocking socket meets: a
    datagram with its sender, nothing pending ([EWOULDBLOCK]/[EAGAIN]), or
    another error.  A socket's pending input is a list of these; an
    exhausted list means nothing is pending. *)
Inductive recv_result : Type :=
| Datagram (payload : list byte) (from : sockaddr_in)
| WouldBlock
| RecvFailure.

(** [recvfrom(sock, buf, cap, 0, &senderAddr, &len)]: the returned count,
    the buffer and the sender address afterwards, and the input left.  A
    datagram longer than [cap] is cut to [cap] bytes; the bytes of [buf]
    beyond the received ones keep their old content. *)
Definition recvfrom (incoming : list recv_result) (buf : list byte) (cap : Z)
    (senderAddr : sockaddr_in)
    : Z * list byte * sockaddr_in * list recv_result :=
  match incoming with
  | [] => (SOCKET_ERROR, buf, senderAddr, [])
  | Datagram payload from :: rest =>
      let got := firstn (Z.to_nat cap) payload in
      (Z.of_nat (length got), got ++ skipn (length got) buf, from, rest)
  | WouldBlock :: rest => (SOCKET_ERROR, buf, senderAddr, rest)
  | RecvFailure :: rest => (SOCKET_ERROR, buf, senderAddr, rest)
  end.

End socket.

Module UdpSocket.
Import socket.

Record t : Type := mk { m_socket : Z }.

Definition init : t := mk INVALID_SOCKET.

Definition IsOpen (s : t) : bool := negb (m_socket s =? INVALID_SOCKET).
Definition GetHandle (s : t) : Z := m_socket s.

(** [bool Open(uint16_t port)].  [os] is what [socket], [fcntl] and [bind]
    leave: [Some fd] when all of them succeed, [None] when one fails (every
    failing path leaves [m_socket == INVALID_SOCKET]). *)
Definition Open (s : t) (port : Z) (os : option Z) : bool * t :=
  if negb (m_socket s =? INVALID_SOCKET) then (true, s)
  else
    match os with
    | Some fd =>
        if fd =? INVALID_SOCKET then (false, mk INVALID_SOCKET)
        else (true, mk fd)
    | None => (false, mk INVALID_SOCKET)
    end.

Definition Close (s : t) : t := mk INVALID_SOCKET.

End UdpSocket.

(** ** [polling_udp_receiver.cpp] *)

Module PollingUdpReceiver.
Import ieee socket.

Definition kConnectionTimeoutMs : Z := 1000.
Definition kMaxBufferSize : Z := 256.
Definition kMaxPacketsPerFrame : nat := 1000.

Record t : Type := mk {
  m_socket : UdpSocket.t;
  m_initialized : bool;
  m_yaw : float;
  m_pitch : float;
  m_roll : float;
  m_hasData : bool;
  m_yawOffset : float;
  m_pitchOffset : float;
  m_rollOffset : float;
  m_hasOffset : bool;
  m_lastReceiveTimeMs : Z;
  m_isRemoteConnection : bool;
  m_packetsReceived : Z;   (* uint64_t *)
  m_bytesReceived : Z;     (* uint64_t *)
  m_receiveBuffer : list byte
}.

(** The object after its default member initialisers; the receive buffer
    has no initialiser in the source and is taken as zeroes. *)
Definition init : t :=
  mk UdpSocket.init false zerof zerof zerof false zerof zerof zerof false
     0 false 0 0 (repeat x00 (Z.to_nat kMaxBufferSize)).

Definition uint64 (z : Z) : Z := z mod 2 ^ 64.

(** What a caller can observe through the public interface: every field
    but the socket handle and the receive buffer. *)
Definition observable (st : t) :=
  (m_initialized st, (m_yaw st, m_pitch st, m_roll st, m_hasData st),
   (m_yawOffset st, m_pitchOffset st, m_rollOffset st, m_hasOffset st),
   m_lastReceiveTimeMs st, m_isRemoteConnection st,
   (m_packetsReceived st, m_bytesReceived st)).

Definition Initialize (st : t) (port : Z) (os : option Z) : bool * t :=
  if m_initialized st then (true, st)
  else
    let '(opened, sock) := UdpSocket.Open (m_socket st) port os in
    if negb opened then
      (false,
       mk sock (m_initialized st) (m_yaw st) (m_pitch st) (m_roll st)
          (m_hasData st) (m_yawOffset st) (m_pitchOffset st)
          (m_rollOffset st) (m_hasOffset st) (m_lastReceiveTimeMs st)
          (m_isRemoteConnection st) (m_packetsReceived st)
          (m_bytesReceived st) (m_receiveBuffer st))
    else
      (true,
       mk sock true (m_yaw st) (m_pitch st) (m_roll st) false
          (m_yawOffset st) (m_pitchOffset st) (m_rollOffset st) false
          0 false 0 0 (repeat x00 (Z.to_nat kMaxBufferSize))).

Definition Shutdown (st : t) : t :=
  if negb (m_initialized st) then st
  else
    mk (UdpSocket.Close (m_socket st)) false (m_yaw st) (m_pitch st)
       (m_roll st) (m_hasData st) (m_yawOffset st) (m_pitchOffset st)
       (m_rollOffset st) (m_hasOffset st) (m_lastReceiveTimeMs st)
       (m_isRemoteConnection st) (m_packetsReceived st)
       (m_bytesReceived st) (m_receiveBuffer st).

(** [bool ParsePacket(const char* buffer, int bytesReceived)]. *)
Definition ParsePacket (st : t) (buffer : list byte) (bytesReceived : Z)
    (now_us : Z) : bool * t :=
  let pose := TrackingPose.mk zerof zerof zerof 0 in
  let '(ok, pose) :=
    OpenTrackPacket.TryParse (Some buffer) (uint64 bytesReceived) now_us pose in
  if negb ok then (false, st)
  else
    (true,
     mk (m_socket st) (m_initialized st)
        (TrackingPose.yaw pose) (TrackingPose.pitch pose)
        (TrackingPose.roll pose) true
        (m_yawOffset st) (m_pitchOffset st) (m_rollOffset st)
        (m_hasOffset st) (m_lastReceiveTimeMs st)
        (m_isRemoteConnection st) (m_packetsReceived st)
        (m_bytesReceived st) (m_receiveBuffer st)).

Definition with_buffer (st : t) (buf : list byte) : t :=
  mk (m_socket st) (m_initialized st) (m_yaw st) (m_pitch st) (m_roll st)
     (m_hasData st) (m_yawOffset st) (m_pitchOffset st) (m_rollOffset st)
     (m_hasOffset st) (m_lastReceiveTimeMs st) (m_isRemoteConnection st)
     (m_packetsReceived st) (m_bytesReceived st) buf.

(** The statements of [Poll] that follow a successful [ParsePacket]. *)
Definition count_packet (st : t) (bytesReceived : Z) (senderAddr : sockaddr_in) : t :=
  mk (m_socket st) (m_initialized st) (m_yaw st) (m_pitch st) (m_roll st)
     (m_hasData st) (m_yawOffset st) (m_pitchOffset st) (m_rollOffset st)
     (m_hasOffset st) (m_lastReceiveTimeMs st)
     (IsRemoteAddress senderAddr)
     (uint64 (m_packetsReceived st + 1))
     (uint64 (m_bytesReceived st + uint64 bytesReceived))
     (m_receiveBuffer st).

Definition with_lastReceiveTimeMs (st : t) (ms : Z) : t :=
  mk (m_socket st) (m_initialized st) (m_yaw st) (m_pitch st) (m_roll st)
     (m_hasData st) (m_yawOffset st) (m_pitchOffset st) (m_rollOffset st)
     (m_hasOffset st) ms (m_isRemoteConnection st)
     (m_packetsReceived st) (m_bytesReceived st) (m_receiveBuffer st).

(** The [while (packetsThisFrame < kMaxPacketsPerFrame)] loop of [Poll];
    [fuel] is [kMaxPacketsPerFrame - packetsThisFrame].  [senderAddr] has
    no initialiser in the source and is read only after [recvfrom] wrote
    it.  Returns the state, the input left and [receivedAny]. *)
Fixpoint Poll_loop (fuel : nat) (st : t) (incoming : list recv_result)
    (now_us : Z) (receivedAny : bool) : t * list recv_result * bool :=
  match fuel with
  | O => (st, incoming, receivedAny)
  | S fuel' =>
      let '(bytesReceived, buf, senderAddr, rest) :=
        recvfrom incoming (m_receiveBuffer st) kMaxBufferSize
          {| s_addr_host := 0 |} in
      let st := with_buffer st buf in
      if bytesReceived =? SOCKET_ERROR then (st, rest, receivedAny)
      else if bytesReceived =? 0 then (st, rest, receivedAny)
      else
        let '(ok, st) := ParsePacket st (m_receiveBuffer st) bytesReceived now_us in
        if ok then
          Poll_loop fuel' (count_packet st bytesReceived senderAddr) rest now_us true
        else Poll_loop fuel' st rest now_us receivedAny
  end.

(** [bool Poll()]: [incoming] is the socket's pending input, [now_us] the
    clock of the parsed poses (which [ParsePacket] drops) and [now_ms] the
    reading of [GetCurrentTimeMs()]. *)
Definition Poll (st : t) (incoming : list recv_result) (now_us now_ms : Z)
    : bool * t * list recv_result :=
  if negb (m_initialized st) || negb (UdpSocket.IsOpen (m_socket st))
  then (false, st, incoming)
  else
    let '(st, rest, receivedAny) :=
      Poll_loop kMaxPacketsPerFrame st incoming now_us false in
    if receivedAny then (true, with_lastReceiveTimeMs st now_ms, rest)
    else (false, st, rest).

(** The getters: the flag and the caller's values afterwards. *)
Definition GetRawRotation (st : t) (ypr : float * float * float)
    : bool * (float * float * float) :=
  if negb (m_hasData st) then (false, ypr)
  else (true, (m_yaw st, m_pitch st, m_roll st)).

Definition GetRotation (st : t) (ypr : float * float * float)
    : bool * (float * float * float) :=
  if negb (m_hasData st) then (false, ypr)
  else if m_hasOffset st then
    (true, (SFsub 24 128 (m_yaw st) (m_yawOffset st),
            SFsub 24 128 (m_pitch st) (m_pitchOffset st),
            SFsub 24 128 (m_roll st) (m_rollOffset st)))
  else (true, (m_yaw st, m_pitch st, m_roll st)).

Definition GetPose (st : t) (now_us : Z) (pose : TrackingPose.t float)
    : bool * TrackingPose.t float :=
  if negb (m_hasData st) then (false, pose)
  else if m_hasOffset st then
    (true, TrackingPose.mk (SFsub 24 128 (m_yaw st) (m_yawOffset st))
             (SFsub 24 128 (m_pitch st) (m_pitchOffset st))
             (SFsub 24 128 (m_roll st) (m_rollOffset st)) now_us)
  else (true, TrackingPose.mk (m_yaw st) (m_pitch st) (m_roll st) now_us).

Definition Recenter (st : t) : t :=
  if m_hasData st then
    mk (m_socket st) (m_initialized st) (m_yaw st) (m_pitch st) (m_roll st)
       (m_hasData st) (m_yaw st) (m_pitch st) (m_roll st) true
       (m_lastReceiveTimeMs st) (m_isRemoteConnection st)
       (m_packetsReceived st) (m_bytesReceived st) (m_receiveBuffer st)
  else st.

Definition ResetOffset (st : t) : t :=
  mk (m_socket st) (m_initialized st) (m_yaw st) (m_pitch st) (m_roll st)
     (m_hasData st) zerof zerof zerof false
     (m_lastReceiveTimeMs st) (m_isRemoteConnection st)
     (m_packetsReceived st) (m_bytesReceived st) (m_receiveBuffer st).

Definition IsConnected (st : t) (now_ms : Z) : bool :=
  if negb (m_initialized st) || (m_lastReceiveTimeMs st =? 0) then false
  else now_ms - m_lastReceiveTimeMs st <? kConnectionTimeoutMs.

(** *** The vocabulary of the statements about [Poll] *)

(** The value range of the two [uint64_t] counters. *)
Definition counters_in_range (st : t) : Prop :=
  0 <= m_packetsReceived st < 2 ^ 64 /\ 0 <= m_bytesReceived st < 2 ^ 64.

(** The datagrams one call of [Poll] can reach: the pending ones up to the
    first would-block, error or empty datagram, each cut to the buffer
    size, paired with its sender. *)
Fixpoint drain (incoming : list recv_result) : list (list byte * sockaddr_in) :=
  match incoming with
  | Datagram payload from :: rest =>
      match firstn (Z.to_nat kMaxBufferSize) payload with
      | [] => []
      | got => (got, from) :: drain rest
      end
  | _ => []
  end.

(** The datagrams one call of [Poll] handles, the iteration cap included. *)
Definition drained (incoming : list recv_result) : list (list byte * sockaddr_in) :=
  firstn kMaxPacketsPerFrame (drain incoming).

Definition zero_pose : TrackingPose.t float := TrackingPose.mk zerof zerof zerof 0.

(** Whether the codec accepts a received datagram, and the pose it yields. *)
Definition parses (now_us : Z) (d : list byte * sockaddr_in) : bool :=
  fst (OpenTrackPacket.TryParse (Some (fst d)) (Z.of_nat (length (fst d)))
         now_us zero_pose).

Definition parsed_pose (now_us : Z) (d : list byte * sockaddr_in) : TrackingPose.t float :=
  snd (OpenTrackPacket.TryParse (Some (fst d)) (Z.of_nat (length (fst d)))
         now_us zero_pose).

Definition total_bytes (ds : list (list byte * sockaddr_in)) : Z :=
  fold_right (fun d acc => Z.of_nat (length (fst d)) + acc) 0 ds.

(** What is observable after a call of [Poll] whose successfully parsed
    datagrams were [good], in order of arrival. *)
Definition after_poll (now_us now_ms : Z) (st : t)
    (good : list (list byte * sockaddr_in)) :=
  match rev good with
  | [] => observable st
  | latest :: _ =>
      let pose := parsed_pose now_us latest in
      (m_initialized st,
       (TrackingPose.yaw pose, TrackingPose.pitch pose, TrackingPose.roll pose, true),
       (m_yawOffset st, m_pitchOffset st, m_rollOffset st, m_hasOffset st),
       now_ms, IsRemoteAddress (snd latest),
       (uint64 (m_packetsReceived st + Z.of_nat (length good)),
        uint64 (m_bytesReceived st + total_bytes good)))
  end.

(** A receiver initialised on the default port, and a burst: a ten-byte
    datagram, a pose from the loopback address, a datagram whose yaw is
    NaN, a pose from 192.168.1.2, then nothing pending, then a pose that
    only a later call can see. *)
Definition example_polling_receiver : t := snd (Initialize init 4242 (Some 3)).

Definition example_burst : list recv_result :=
  let zero := double_of_Z 0 in
  [ Datagram (repeat x01 10) {| s_addr_host := INADDR_LOOPBACK |};
    Datagram (OpenTrackPacket.packet zero zero zero
                (double_of_Z 10) (double_of_Z (-5)) zero)
             {| s_addr_host := INADDR_LOOPBACK |};
    Datagram (OpenTrackPacket.packet zero zero zero S754_nan zero zero)
             {| s_addr_host := 3232235778 |};
    Datagram (OpenTrackPacket.packet zero zero zero
                (double_of_Z 1) (double_of_Z 2) (double_of_Z 3))
             {| s_addr_host := 3232235778 |};
    WouldBlock;
    Datagram (OpenTrackPacket.packet zero zero zero
                (double_of_Z 7) (double_of_Z 8) (double_of_Z 9))
             {| s_addr_host := INADDR_LOOPBACK |} ].

(** The session state of the receiver: latest pose, offsets, connection
    state and statistics. *)
Definition session (st : t) :=
  ((m_yaw st, m_pitch st, m_roll st, m_hasData st),
   (m_yawOffset st, m_pitchOffset st, m_rollOffset st, m_hasOffset st),
   m_lastReceiveTimeMs st, m_isRemoteConnection st,
   (m_packetsReceived st, m_bytesReceived st)).

End PollingUdpReceiver.

(** ** [udp_receiver.cpp] (the POSIX branch) *)

Module UdpReceiver.
Import ieee socket.

Definition kConnectionTimeoutMs : Z := 500.
Definition kReceiveBufferSize : Z := 64.

(** The object, together with the two locals of [ReceiverThread] that
    outlive one loop iteration ([buffer] and [senderAddr]).  Atomics are
    read and written one step at a time, in program order. *)
Record t : Type := mk {
  m_socket : UdpSocket.t;
  m_running : bool;
  m_stopFlag : bool;
  m_failed : bool;
  m_trackingData : TrackingData.t;
  m_yawOffset : float;
  m_pitchOffset : float;
  m_rollOffset : float;
  m_lastReceiveTimestamp : Z;
  m_isRemoteConnection : bool;
  thread_buffer : list byte;
  thread_senderAddr : sockaddr_in
}.

Definition init : t :=
  mk UdpSocket.init false false false TrackingData.init zerof zerof zerof
     0 false (repeat x00 (Z.to_nat kReceiveBufferSize)) {| s_addr_host := 0 |}.

(** [bool Start(uint16_t port)]; [os] as in [UdpSocket.Open]. *)
Definition Start (st : t) (port : Z) (os : option Z) : bool * t :=
  if m_running st then (true, st)
  else
    let '(opened, sock) := UdpSocket.Open (m_socket st) port os in
    if negb opened then
      (false,
       mk sock (m_running st) (m_stopFlag st) true (m_trackingData st)
          (m_yawOffset st) (m_pitchOffset st) (m_rollOffset st)
          (m_lastReceiveTimestamp st) (m_isRemoteConnection st)
          (thread_buffer st) (thread_senderAddr st))
    else
      (true,
       mk sock true false false (m_trackingData st)
          (m_yawOffset st) (m_pitchOffset st) (m_rollOffset st)
          (m_lastReceiveTimestamp st) (m_isRemoteConnection st)
          (repeat x00 (Z.to_nat kReceiveBufferSize)) {| s_addr_host := 0 |}).

(** One iteration of the loop of [ReceiverThread] in which [recvfrom] is
    reached: [ev] is what it meets, [now_us] the clock. *)
Definition ReceiverThread_iteration (st : t) (ev : recv_result) (now_us : Z) : t :=
  let '(bytesReceived, buffer, senderAddr, _) :=
    recvfrom [ev] (thread_buffer st) kReceiveBufferSize (thread_senderAddr st) in
  let parsed :=
    if OpenTrackPacket.kMinPacketSize <=? bytesReceived then
      OpenTrackPacket.TryParse (Some buffer) bytesReceived now_us
        (TrackingPose.mk zerof zerof zerof 0)
    else (false, TrackingPose.mk zerof zerof zerof 0) in
  let '(ok, pose) := parsed in
  if ok then
    mk (m_socket st) (m_running st) (m_stopFlag st) (m_failed st)
       (TrackingData.Set_ (m_trackingData st) (TrackingPose.yaw pose)
          (TrackingPose.pitch pose) (TrackingPose.roll pose))
       (m_yawOffset st) (m_pitchOffset st) (m_rollOffset st)
       now_us (IsRemoteAddress senderAddr) buffer senderAddr
  else
    mk (m_socket st) (m_running st) (m_stopFlag st) (m_failed st)
       (m_trackingData st)
       (m_yawOffset st) (m_pitchOffset st) (m_rollOffset st)
       (m_lastReceiveTimestamp st) (m_isRemoteConnection st)
       buffer senderAddr.

(** [void Stop()].  [inflight] lists what the receiver thread still
    receives between the store to [m_stopFlag] and the return of [join()];
    the thread has ended when the resets run. *)
Definition Stop (st : t) (inflight : list (recv_result * Z)) : t :=
  if negb (m_running st) then st
  else
    let st :=
      mk (m_socket st) (m_running st) true (m_failed st) (m_trackingData st)
         (m_yawOffset st) (m_pitchOffset st) (m_rollOffset st)
         (m_lastReceiveTimestamp st) (m_isRemoteConnection st)
         (thread_buffer st) (thread_senderAddr st) in
    let st :=
      fold_left (fun s e => ReceiverThread_iteration s (fst e) (snd e)) inflight st in
    mk (UdpSocket.Close (m_socket st)) false (m_stopFlag st) (m_failed st)
       (TrackingData.Reset (m_trackingData st)) zerof zerof zerof 0 false
       (thread_buffer st) (thread_senderAddr st).

Definition IsRunning (st : t) : bool := m_running st.
Definition IsRemoteConnection (st : t) : bool := m_isRemoteConnection st.
Definition IsFailed (st : t) : bool := m_failed st.

Definition IsReceiving (st : t) (nowUs : Z) : bool :=
  let lastTs := m_lastReceiveTimestamp st in
  if lastTs =? 0 then false
  else Z.quot (nowUs - lastTs) 1000 <? kConnectionTimeoutMs.

Definition GetRotation (st : t) (ypr : float * float * float)
    : bool * (float * float * float) :=
  let '(ok, (rawYaw, rawPitch, rawRoll)) :=
    TrackingData.Get (m_trackingData st) ypr in
  if negb ok then (false, ypr)
  else (true, (SFsub 24 128 rawYaw (m_yawOffset st),
               SFsub 24 128 rawPitch (m_pitchOffset st),
               SFsub 24 128 rawRoll (m_rollOffset st))).

Definition Recenter (st : t) : t :=
  let '(ok, (yaw, pitch, roll)) :=
    TrackingData.Get (m_trackingData st) (zerof, zerof, zerof) in
  if ok then
    mk (m_socket st) (m_running st) (m_stopFlag st) (m_failed st)
       (m_trackingData st) yaw pitch roll
       (m_lastReceiveTimestamp st) (m_isRemoteConnection st)
       (thread_buffer st) (thread_senderAddr st)
  else st.

(** The receiver's life: calls of the owner and iterations of the
    receiver thread, which exists only while [m_running]. *)
Inductive step : t -> t -> Prop :=
| step_Start st port os : step st (snd (Start st port os))
| step_Stop st inflight : step st (Stop st inflight)
| step_Recenter st : step st (Recenter st)
| step_thread st ev now_us :
    m_running st = true -> step st (ReceiverThread_iteration st ev now_us).

Inductive reachable : t -> Prop :=
| reachable_init : reachable init
| reachable_step st st' : reachable st -> step st st' -> reachable st'.

(** The zero/unset defaults of the published and connection state. *)
Definition session_cleared (st : t) : Prop :=
  m_trackingData st = TrackingData.init /\
  m_yawOffset st = zerof /\ m_pitchOffset st = zerof /\
  m_rollOffset st = zerof /\
  m_lastReceiveTimestamp st = 0 /\
  m_isRemoteConnection st = false.

(** A receiver started on the default port whose thread has published
    one pose received from 192.168.1.2. *)
Definition example_threaded_receiver : t :=
  ReceiverThread_iteration (snd (Start init 4242 (Some 3)))
    (Datagram (OpenTrackPacket.packet (double_of_Z 0) (double_of_Z 0)
                 (double_of_Z 0) (double_of_Z 10) (double_of_Z (-5))
                 (double_of_Z 0))
              {| s_addr_host := 3232235778 |})
    5000.

(** While the receiver is not running its session state is at the
    defaults: it is only written by the thread, by [Recenter] once data is
    there, and by [Stop]. *)
Definition stopped_is_cleared (st : t) : Prop :=
  m_running st = false -> session_cleared st.

End UdpReceiver.

(** ** [smoothing_utils.h] and [deadzone_utils.h]

    From here on [float] and [double] values are read as real numbers and
    their arithmetic as exact: the [float] and [double] overloads coincide,
    [static_cast] between the two is the identity, and NaN, infinities and
    rounding are outside this reading.  [std::exp] is the real
    exponential. *)

Module math.
Local Open Scope R_scope.

Definition kRemoteConnectionBaseline : R := 0.15.

Definition Lerp (a b t : R) : R := a + (b - a) * t.

Definition CalculateSmoothingFactor (smoothing delta_time : R) : R :=
  if Rlt_dec smoothing 0.001 then 1.0
  else
    let smoothing_speed := Lerp 50.0 0.1 smoothing in
    1.0 - exp (- smoothing_speed * delta_time).

Definition Smooth (current target smoothing delta_time : R) : R :=
  let t := CalculateSmoothingFactor smoothing delta_time in
  current + (target - current) * t.

Definition GetEffectiveSmoothing (base_smoothing : R)
    (is_remote_connection : bool) : R :=
  if is_remote_connection then
    if Rlt_dec base_smoothing kRemoteConnectionBaseline
    then kRemoteConnectionBaseline
    else base_smoothing
  else base_smoothing.

Definition ApplyDeadzone (value deadzone : R) : R :=
  if Rle_dec deadzone 0.0 then value
  else
    let abs_value := Rabs value in
    if Rle_dec abs_value deadzone then 0.0
    else
      let sign := if Rge_dec value 0.0 then 1.0 else -1.0 in
      sign * (abs_value - deadzone).

(** The sign the specification speaks of: 1 from zero upwards, -1 below. *)
Definition sign_of (v : R) : R := if Rge_dec v 0 then 1 else -1.

End math.

(** ** [tracking_pose.h]: the configuration records *)

Module SensitivitySettings.
Local Open Scope R_scope.

Record t : Type := mk {
  yaw : R;
  pitch : R;
  roll : R;
  invert_yaw : bool;
  invert_pitch : bool;
  invert_roll : bool
}.

Definition Default : t := mk 1.0 1.0 1.0 false false false.
Definition Uniform (sensitivity : R) : t :=
  mk sensitivity sensitivity sensitivity false false false.

End SensitivitySettings.

Module DeadzoneSettings.
Local Open Scope R_scope.

Record t : Type := mk { yaw : R; pitch : R; roll : R }.

Definition None_ : t := mk 0.0 0.0 0.0.
Definition Default : t := mk 0.5 0.5 0.5.
Definition Uniform (deadzone : R) : t := mk deadzone deadzone deadzone.

End DeadzoneSettings.

(** ** [center_offset_manager.cpp] *)

Module CenterOffsetManager.
Local Open Scope R_scope.

Record t : Type := mk {
  m_centerOffset : TrackingPose.t R;
  m_hasValidCenter : bool
}.

Definition init : t := mk (TrackingPose.mk 0.0 0.0 0.0 0%Z) false.

Definition SetCenter (c : t) (yaw pitch roll : R) : t :=
  mk (TrackingPose.mk yaw pitch roll 0%Z) true.

(** [void ApplyOffset(float& yaw, float& pitch, float& roll) const]: the
    three values afterwards. *)
Definition ApplyOffset (c : t) (ypr : R * R * R) : R * R * R :=
  let '(yaw, pitch, roll) := ypr in
  if negb (m_hasValidCenter c) then (yaw, pitch, roll)
  else (yaw - TrackingPose.yaw (m_centerOffset c),
        pitch - TrackingPose.pitch (m_centerOffset c),
        roll - TrackingPose.roll (m_centerOffset c)).

Definition Reset (c : t) : t := mk (TrackingPose.mk 0.0 0.0 0.0 0%Z) false.

End CenterOffsetManager.

(** ** [tracking_processor.cpp] *)

Module TrackingProcessor.
Local Open Scope R_scope.

Record t : Type := mk {
  m_centerManager : CenterOffsetManager.t;
  m_smoothedYaw : R;
  m_smoothedPitch : R;
  m_smoothedRoll : R;
  m_hasSmoothedValue : bool;
  m_sensitivity : SensitivitySettings.t;
  m_deadzone : DeadzoneSettings.t;
  m_smoothingFactor : R
}.

(** [TrackingProcessor() = default]. *)
Definition init : t :=
  mk CenterOffsetManager.init 0.0 0.0 0.0 false
     SensitivitySettings.Default DeadzoneSettings.None_ 0.0.

Definition SetSensitivity (st : t) (sensitivity : SensitivitySettings.t) : t :=
  mk (m_centerManager st) (m_smoothedYaw st) (m_smoothedPitch st)
     (m_smoothedRoll st) (m_hasSmoothedValue st) sensitivity
     (m_deadzone st) (m_smoothingFactor st).

Definition SetDeadzone (st : t) (deadzone : DeadzoneSettings.t) : t :=
  mk (m_centerManager st) (m_smoothedYaw st) (m_smoothedPitch st)
     (m_smoothedRoll st) (m_hasSmoothedValue st) (m_sensitivity st)
     deadzone (m_smoothingFactor st).

Definition SetSmoothing (st : t) (smoothing : R) : t :=
  mk (m_centerManager st) (m_smoothedYaw st) (m_smoothedPitch st)
     (m_smoothedRoll st) (m_hasSmoothedValue st) (m_sensitivity st)
     (m_deadzone st) smoothing.

(** Steps 1 and 2 of [Process]: the centred, deadzoned sample that step 3
    smooths towards. *)
Definition target (st : t) (yaw pitch roll : R) : R * R * R :=
  let '(yaw, pitch, roll) :=
    CenterOffsetManager.ApplyOffset (m_centerManager st) (yaw, pitch, roll) in
  (math.ApplyDeadzone yaw (DeadzoneSettings.yaw (m_deadzone st)),
   math.ApplyDeadzone pitch (DeadzoneSettings.pitch (m_deadzone st)),
   math.ApplyDeadzone roll (DeadzoneSettings.roll (m_deadzone st))).

(** [TrackingPose Process(float yaw, float pitch, float roll,
    bool is_remote_connection, float delta_time)]: the returned pose,
    stamped with the clock reading [now], and the processor afterwards. *)
Definition Process (st : t) (yaw pitch roll : R) (is_remote_connection : bool)
    (delta_time : R) (now : Z) : TrackingPose.t R * t :=
  (* Step 1: apply center offset.  Step 2: apply deadzone. *)
  let '(yaw, pitch, roll) := target st yaw pitch roll in
  (* Step 3: apply smoothing. *)
  let effective_smoothing :=
    math.GetEffectiveSmoothing (m_smoothingFactor st) is_remote_connection in
  let '(smoothedYaw, smoothedPitch, smoothedRoll) :=
    if negb (m_hasSmoothedValue st) then (yaw, pitch, roll)
    else
      let t := math.CalculateSmoothingFactor effective_smoothing delta_time in
      (m_smoothedYaw st + (yaw - m_smoothedYaw st) * t,
       m_smoothedPitch st + (pitch - m_smoothedPitch st) * t,
       m_smoothedRoll st + (roll - m_smoothedRoll st) * t) in
  (* Step 4: apply sensitivity. *)
  let out_yaw := smoothedYaw * SensitivitySettings.yaw (m_sensitivity st) in
  let out_pitch := smoothedPitch * SensitivitySettings.pitch (m_sensitivity st) in
  let out_roll := smoothedRoll * SensitivitySettings.roll (m_sensitivity st) in
  let out_yaw :=
    if SensitivitySettings.invert_yaw (m_sensitivity st) then - out_yaw else out_yaw in
  let out_pitch :=
    if SensitivitySettings.invert_pitch (m_sensitivity st) then - out_pitch else out_pitch in
  let out_roll :=
    if SensitivitySettings.invert_roll (m_sensitivity st) then - out_roll else out_roll in
  (TrackingPose.mk out_yaw out_pitch out_roll now,
   mk (m_centerManager st) smoothedYaw smoothedPitch smoothedRoll true
      (m_sensitivity st) (m_deadzone st) (m_smoothingFactor st)).

Definition Recenter (st : t) : t :=
  mk (CenterOffsetManager.SetCenter (m_centerManager st)
        (m_smoothedYaw st) (m_smoothedPitch st) (m_smoothedRoll st))
     (m_smoothedYaw st) (m_smoothedPitch st) (m_smoothedRoll st)
     (m_hasSmoothedValue st) (m_sensitivity st) (m_deadzone st)
     (m_smoothingFactor st).

Definition RecenterTo (st : t) (yaw pitch roll : R) : t :=
  mk (CenterOffsetManager.SetCenter (m_centerManager st) yaw pitch roll)
     0.0 0.0 0.0
     (m_hasSmoothedValue st) (m_sensitivity st) (m_deadzone st)
     (m_smoothingFactor st).

Definition Reset (st : t) : t :=
  mk (CenterOffsetManager.Reset (m_centerManager st))
     0.0 0.0 0.0
     false (m_sensitivity st) (m_deadzone st) (m_smoothingFactor st).

(** The smoothed accumulator, and the angles of a pose. *)
Definition smoothed (st : t) : R * R * R :=
  (m_smoothedYaw st, m_smoothedPitch st, m_smoothedRoll st).

Definition angles (p : TrackingPose.t R) : R * R * R :=
  (TrackingPose.yaw p, TrackingPose.pitch p, TrackingPose.roll p).

(** Sensitivity multipliers 1 and no axis inverted. *)
Definition unit_sensitivity (st : t) : Prop :=
  m_sensitivity st = SensitivitySettings.mk 1 1 1 false false false.

(** A processor with smoothing 0.5 that has processed the local sample
    (10, 0, 0) as its first frame, at 60 frames per second. *)
Definition example_processor : t :=
  snd (Process (SetSmoothing init 0.5) 10 0 0 false (1 / 60) 0%Z).

End TrackingProcessor.


(** ** [angle_utils.h]

    Read in real arithmetic like [math].  [std::fmod x y] is
    [x - n * y] with [n] the quotient [x / y] truncated towards zero. *)

Module angle.
Local Open Scope R_scope.

Definition kPi : R := 3.14159265358979323846.
Definition kDegToRad : R := kPi / 180.0.
Definition kRadToDeg : R := 180.0 / kPi.

(** Truncation towards zero. *)
Definition trunc (x : R) : Z :=
  if Rle_dec 0 x then Int_part x else (- Int_part (- x))%Z.

Definition fmod (x y : R) : R := x - IZR (trunc (x / y)) * y.

Definition NormalizeAngle (angle : R) : R :=
  let in_range :=
    if Rge_dec angle (-180.0) then
      if Rle_dec angle 180.0 then true else false
    else false in
  if in_range then angle
  else
    let angle := fmod angle 360.0 in
    if Rgt_dec angle 180.0 then angle - 360.0
    else if Rlt_dec angle (-180.0) then angle + 360.0
    else angle.

Definition ShortestAngleDelta (from to : R) : R := NormalizeAngle (to - from).

(** [template <typename T> constexpr T Clamp(T value, T min_val, T max_val)],
    at real numbers. *)
Definition Clamp (value min_val max_val : R) : R :=
  if Rlt_dec value min_val then min_val
  else if Rgt_dec value max_val then max_val
  else value.

Definition ToRadians (degrees : R) : R := degrees * kDegToRad.
Definition ToDegrees (radians : R) : R := radians * kRadToDeg.

End angle.

(** ** Vocabulary for the statements about [TrackingProcessor::Process] *)

Module ProcessorView.
Local Open Scope R_scope.

(** Step 4 of [Process] on one axis: the multiplier, then the inversion. *)
Definition scaled (multiplier : R) (invert : bool) (smoothed : R) : R :=
  if invert then - (smoothed * multiplier) else smoothed * multiplier.

(** Step 4 of [Process] on the three axes. *)
Definition apply_sensitivity (s : SensitivitySettings.t) (ypr : R * R * R)
    : R * R * R :=
  let '(y, p, r) := ypr in
  (scaled (SensitivitySettings.yaw s) (SensitivitySettings.invert_yaw s) y,
   scaled (SensitivitySettings.pitch s) (SensitivitySettings.invert_pitch s) p,
   scaled (SensitivitySettings.roll s) (SensitivitySettings.invert_roll s) r).

(** A value that no call of [NormalizeAngle] returns. *)
Definition out_of_range (v : R) : Prop :=
  180 < Rabs v /\ forall x, v <> angle.NormalizeAngle x.

End ProcessorView.

(** ** Vocabulary for the statements about narrowing and recentring *)

Module WireView.
Import ieee.

(** A binary32 value minus itself: [+0] for a zero or a finite value, NaN
    for an infinity or a NaN. *)
Definition minus_itself (x : float) : float :=
  match x with
  | S754_zero _ | S754_finite _ _ _ => S754_zero false
  | _ => S754_nan
  end.

(** The three angles of a pose. *)
Definition angles (p : TrackingPose.t float) : float * float * float :=
  (TrackingPose.yaw p, TrackingPose.pitch p, TrackingPose.roll p).

(** A normal binary64 value [m * 2 ^ e] of magnitude [2 ^ 128] or more. *)
Definition beyond_float (m : positive) (e : Z) : Prop :=
  2 ^ 52 <= Z.pos m < 2 ^ 53 /\ 76 <= e.

End WireView.

(** ** [rotation_utils.h]
    Read in real arithmetic like [math]; a [float v[3]] or [double v[3]] is
    a triple, and an output array is the returned triple. *)

Module rotation.
Local Open Scope R_scope.

Definition vec3 : Type := (R * R * R)%type.

(** [void RotateAroundAxis(const T v[3], const T k[3], T cosAngle,
    T sinAngle, T out[3])]. *)
Definition RotateAroundAxis (v k : vec3) (cosAngle sinAngle : R) : vec3 :=
  let '(v0, v1, v2) := v in
  let '(k0, k1, k2) := k in
  let crossX := k1 * v2 - k2 * v1 in
  let crossY := k2 * v0 - k0 * v2 in
  let crossZ := k0 * v1 - k1 * v0 in
  let dot := k0 * v0 + k1 * v1 + k2 * v2 in
  let omc := 1.0 - cosAngle in
  (v0 * cosAngle + crossX * sinAngle + k0 * dot * omc,
   v1 * cosAngle + crossY * sinAngle + k1 * dot * omc,
   v2 * cosAngle + crossZ * sinAngle + k2 * dot * omc).

End rotation.

(** ** [pattern_scanner.cpp]

    The scanned range [base, base + size) is the list of its bytes; a
    returned pointer [start + i] is the offset [Some i] and [nullptr] is
    [None]. *)

From Stdlib Require Ascii String.

Module memory.
Import Ascii String.

(** [std::isspace] in the C locale. *)
Definition isspace (c : ascii) : bool :=
  let n := nat_of_ascii c in
  Nat.eqb n 32 || (Nat.leb 9 n && Nat.leb n 13).

(** The value of a hexadecimal digit. *)
Definition hex_digit (c : ascii) : option Z :=
  let n := Z.of_nat (nat_of_ascii c) in
  if (48 <=? n) && (n <=? 57) then Some (n - 48)
  else if (65 <=? n) && (n <=? 70) then Some (n - 55)
  else if (97 <=? n) && (n <=? 102) then Some (n - 87)
  else None.

(** [char hex[3] = {c1, c2, 0}; value = std::strtol(hex, &end, 16)] with
    the test [end == hex + 2]: the value when [strtol] consumes both
    characters.  It does for two digits, for a sign and a digit, and for
    white space and a digit; of [0x] it consumes the [0] alone. *)
Definition strtol2 (c1 c2 : ascii) : option Z :=
  match hex_digit c1, hex_digit c2 with
  | Some a, Some b => Some (16 * a + b)
  | None, Some b =>
      if Ascii.eqb c1 "+" then Some b
      else if Ascii.eqb c1 "-" then Some (- b)
      else if isspace c1 then Some b
      else None
  | _, None => None
  end.

(** The loop of [ParsePattern]; [bytes] and [mask] are the two vectors.
    Skipping white space one character per turn is the inner [while] of
    the source. *)
Fixpoint ParsePattern_loop (pattern : string) (bytes : list byte)
    (mask : list ascii) : bool * list byte * list ascii :=
  match pattern with
  | EmptyString =>
      (match bytes with [] => false | _ => true end, bytes, mask)
  | String c rest =>
      if isspace c then ParsePattern_loop rest bytes mask
      else if Ascii.eqb c "?" then
        match rest with
        | String c2 rest' =>
            if Ascii.eqb c2 "?"
            then ParsePattern_loop rest' (bytes ++ [x00]) (mask ++ ["?"%char])
            else ParsePattern_loop rest (bytes ++ [x00]) (mask ++ ["?"%char])
        | EmptyString =>
            ParsePattern_loop rest (bytes ++ [x00]) (mask ++ ["?"%char])
        end
      else
        match rest with
        | EmptyString => (false, bytes, mask)
        | String c2 rest' =>
            match strtol2 c c2 with
            | None => (false, bytes, mask)
            | Some value =>
                ParsePattern_loop rest' (bytes ++ [ieee.byte_of_Z value])
                  (mask ++ ["x"%char])
            end
        end
  end.

(** [bool ParsePattern(std::string_view pattern, std::vector<uint8_t>& bytes,
    std::vector<char>& mask)]: the flag and the two vectors afterwards. *)
Definition ParsePattern (pattern : string) : bool * list byte * list ascii :=
  ParsePattern_loop pattern [] [].

(** [bool MatchPattern(const uint8_t* data, const uint8_t* pattern,
    const char* mask, size_t length)].  Reading past one of the three
    arrays is undefined in the source; here it does not match. *)
Fixpoint MatchPattern (data pattern : list byte) (mask : list ascii)
    (length : nat) {struct length} : bool :=
  match length with
  | O => true
  | S length' =>
      match data, pattern, mask with
      | d :: data', p :: pattern', m :: mask' =>
          if Ascii.eqb m "x" && negb (Byte.eqb d p) then false
          else MatchPattern data' pattern' mask' length'
      | _, _, _ => false
      end
  end.

(** The [for (size_t i = 0; i <= searchSize; ++i)] loop of the two scans:
    [n] turns are left and [data] starts at offset [i]. *)
Fixpoint scan_loop (n i : nat) (data pattern : list byte) (mask : list ascii)
    (length : nat) : option nat :=
  match n with
  | O => None
  | S n' =>
      if MatchPattern data pattern mask length then Some i
      else scan_loop n' (S i) (tl data) pattern mask length
  end.

(** [void* ScanPatternMaskInRange(uintptr_t base, size_t size,
    const uint8_t* pattern, const char* mask, size_t length)]. *)
Definition ScanPatternMaskInRange (range : list byte) (pattern : list byte)
    (mask : list ascii) (length : nat) : option nat :=
  let size := List.length range in
  if Nat.ltb size length then None
  else
    let searchSize := (size - length)%nat in
    scan_loop (S searchSize) 0 range pattern mask length.

(** [void* ScanPatternInRange(uintptr_t base, size_t size,
    std::string_view pattern)]. *)
Definition ScanPatternInRange (range : list byte) (pattern : string)
    : option nat :=
  let '(ok, patternBytes, patternMask) := ParsePattern pattern in
  if negb ok then None
  else
    let size := List.length range in
    if Nat.ltb size (List.length patternBytes) then None
    else
      let searchSize := (size - List.length patternBytes)%nat in
      scan_loop (S searchSize) 0 range patternBytes patternMask
        (List.length patternBytes).

(** *** The vocabulary of the statements about the scans *)

(** The pattern matches at offset [i]: every position that the mask marks
    with [x] holds the pattern's byte. *)
Definition matches_at (range pattern : list byte) (mask : list ascii)
    (length i : nat) : Prop :=
  forall k, (k < length)%nat ->
    nth k mask "?"%char = "x"%char ->
    nth (i + k) range x00 = nth k pattern x00.

(** One element of a pattern text: a byte to match or a wildcard. *)
Definition token : Type := option byte.

Definition hex_char (n : Z) : ascii :=
  ascii_of_nat (Z.to_nat (if n <? 10 then 48 + n else 55 + n)).

(** A token as the header documents it: two upper-case hexadecimal digits,
    or [??]. *)
Definition render_token (t : token) : string :=
  match t with
  | Some b =>
      let n := Z.of_N (Byte.to_N b) in
      String (hex_char (n / 16)) (String (hex_char (n mod 16)) EmptyString)
  | None => "??"%string
  end.

(** The tokens separated by single spaces, as in ["48 8B 05 ?? ?? ?? ??"]. *)
Fixpoint render (ts : list token) : string :=
  match ts with
  | [] => EmptyString
  | [t] => render_token t
  | t :: rest => (render_token t ++ String " " (render rest))%string
  end.

Definition token_byte (t : token) : byte :=
  match t with Some b => b | None => x00 end.

Definition token_mask (t : token) : ascii :=
  match t with Some _ => "x"%char | None => "?"%char end.

End memory.

(** ** [crosshair_projection.h]
    Read in real arithmetic like [math]: a test [x != x] for NaN compares
    a real number with itself. *)

Module rendering.
Import rotation.
Local Open Scope R_scope.

Record CrosshairProjectionParams : Type := {
  screenWidth : R;
  screenHeight : R;
  fovDegrees : R;
  yawOffset : R;
  pitchOffset : R;
  rollOffset : R;
  gameCameraPitch : R
}.

Record ScreenPosition : Type := { x : R; y : R; valid : bool }.

Definition kDegToRad : R := 0.0174532925.

(** [a != a]. *)
Definition differs_from_itself (a : R) : bool :=
  if Req_dec_T a a then false else true.

Definition ProjectCrosshair (params : CrosshairProjectionParams)
    : ScreenPosition :=
  let yawRad := - yawOffset params * kDegToRad in
  let pitchRad := - pitchOffset params * kDegToRad in
  let rollRad := - rollOffset params * kDegToRad in
  let cosYaw := cos yawRad in
  let sinYaw := sin yawRad in
  let cosPitch := cos pitchRad in
  let sinPitch := sin pitchRad in
  let cosRoll := cos rollRad in
  let sinRoll := sin rollRad in
  let aspectRatio := screenWidth params / screenHeight params in
  let hFovRad := fovDegrees params * kDegToRad in
  let tanHalfHFov := tan (hFovRad / 2.0) in
  let tanHalfVFov := tanHalfHFov / aspectRatio in
  let gamePitch := gameCameraPitch params in
  let worldUpX := sin gamePitch in
  let worldUpY := cos gamePitch in
  let postYawRightX := - worldUpY * sinYaw in
  let postYawRightY := worldUpX * sinYaw in
  let postYawRightZ := - cosYaw in
  let omcYaw := 1.0 - cosYaw in
  let postYawFwdX := cosYaw + worldUpX * worldUpX * omcYaw in
  let postYawFwdY := worldUpX * worldUpY * omcYaw in
  let postYawFwdZ := - worldUpY * sinYaw in
  let finalFwdAxis := (postYawRightX, postYawRightY, postYawRightZ) in
  let postYawFwd := (postYawFwdX, postYawFwdY, postYawFwdZ) in
  let finalFwd := RotateAroundAxis postYawFwd finalFwdAxis cosPitch sinPitch in
  (* Step 1: inverse roll around the final forward axis. *)
  let bodyIn := (1.0, 0.0, 0.0) in
  let b1 := RotateAroundAxis bodyIn finalFwd cosRoll (- sinRoll) in
  (* Step 2: inverse pitch around the post-yaw right axis. *)
  let b2 := RotateAroundAxis b1 finalFwdAxis cosPitch (- sinPitch) in
  (* Step 3: inverse yaw around the world up axis. *)
  let worldUp := (worldUpX, worldUpY, 0.0) in
  let '(bx, by_, bz) := RotateAroundAxis b2 worldUp cosYaw (- sinYaw) in
  let bx := if Rlt_dec bx 0.01 then 0.01 else bx in
  let '(bx, by_, bz) :=
    if differs_from_itself bx || differs_from_itself by_ ||
       differs_from_itself bz
    then (1.0, 0.0, 0.0) else (bx, by_, bz) in
  let normalizedX := bz / (bx * tanHalfHFov) in
  let normalizedY := by_ / (bx * tanHalfVFov) in
  let cx := screenWidth params / 2.0 + normalizedX * (screenWidth params / 2.0) in
  let cy := screenHeight params / 2.0 - normalizedY * (screenHeight params / 2.0) in
  let '(cx, cy) :=
    if differs_from_itself cx || differs_from_itself cy
    then (screenWidth params / 2.0, screenHeight params / 2.0)
    else (cx, cy) in
  {| x := cx; y := cy; valid := true |}.

(** [void ClampToScreen(ScreenPosition& pos, float screenWidth,
    float screenHeight, float margin)]: [pos] afterwards. *)
Definition ClampToScreen (pos : ScreenPosition) (screenWidth screenHeight margin : R)
    : ScreenPosition :=
  let px := if Rlt_dec (x pos) margin then margin else x pos in
  let px := if Rgt_dec px (screenWidth - margin) then screenWidth - margin else px in
  let py := if Rlt_dec (y pos) margin then margin else y pos in
  let py := if Rgt_dec py (screenHeight - margin) then screenHeight - margin else py in
  {| x := px; y := py; valid := valid pos |}.

End rendering.

(** ** [hotkey_poller.cpp] (the Windows branch)

    [GetAsyncKeyState] is an input: [keys vk] is what it returns for the
    virtual key [vk] during one call of [Poll].  A callback is opaque; the
    trace of a call lists the registrations whose callbacks are invoked,
    and a callback does not call back into the poller. *)

Module input.
Import Ascii String.
Local Open Scope Z_scope.

Definition kKeyPressedMask : Z := 0x8000.

(** [HotkeyEntry]; [callback] is whether the [std::function] holds a
    target. *)
Record HotkeyEntry : Type := mkEntry {
  id : Z;
  vkCode : Z;
  keyDown : bool;
  callback : bool
}.

Record t : Type := mk {
  m_stopFlag : bool;
  m_running : bool;
  m_pollInterval : Z;
  m_toggleKey : Z;
  m_recenterKey : Z;
  m_toggleKeyDown : bool;
  m_recenterKeyDown : bool;
  m_toggleCallback : bool;
  m_recenterCallback : bool;
  m_hotkeys : list HotkeyEntry;
  m_nextHotkeyId : Z
}.

(** [HotkeyPoller() = default]. *)
Definition init : t := mk false false 16 0 0 false false false false [] 1.

(** The registration whose callback a call invokes. *)
Inductive fired : Type :=
| ToggleFired
| RecenterFired
| HotkeyFired (id : Z).

Definition SetToggleKey (st : t) (vkCode : Z) (callback : bool) : t :=
  mk (m_stopFlag st) (m_running st) (m_pollInterval st) vkCode
     (m_recenterKey st) (m_toggleKeyDown st) (m_recenterKeyDown st)
     callback (m_recenterCallback st) (m_hotkeys st) (m_nextHotkeyId st).

Definition SetRecenterKey (st : t) (vkCode : Z) (callback : bool) : t :=
  mk (m_stopFlag st) (m_running st) (m_pollInterval st) (m_toggleKey st)
     vkCode (m_toggleKeyDown st) (m_recenterKeyDown st)
     (m_toggleCallback st) callback (m_hotkeys st) (m_nextHotkeyId st).

Definition with_hotkeys (st : t) (hotkeys : list HotkeyEntry) (next : Z) : t :=
  mk (m_stopFlag st) (m_running st) (m_pollInterval st) (m_toggleKey st)
     (m_recenterKey st) (m_toggleKeyDown st) (m_recenterKeyDown st)
     (m_toggleCallback st) (m_recenterCallback st) hotkeys next.

Definition INT_MAX : Z := 2147483647.

(** [int AddHotkey(int vkCode, HotkeyCallback callback)]: the returned id
    and the poller afterwards.  [m_nextHotkeyId++] is an increment of an
    [int]: with the counter at [INT_MAX] it overflows, which is undefined,
    and the call has no result. *)
Definition AddHotkey (st : t) (vkCode : Z) (callback : bool) : option (Z * t) :=
  if m_nextHotkeyId st <? INT_MAX then
    let id := m_nextHotkeyId st in
    Some (id, with_hotkeys st
                (m_hotkeys st ++ [mkEntry id vkCode false callback])
                (m_nextHotkeyId st + 1))
  else None.

(** [std::find_if] followed by [erase]: the first entry with the id. *)
Fixpoint erase_first (id_ : Z) (hotkeys : list HotkeyEntry) : list HotkeyEntry :=
  match hotkeys with
  | [] => []
  | entry :: rest =>
      if id entry =? id_ then rest else entry :: erase_first id_ rest
  end.

Definition RemoveHotkey (st : t) (id_ : Z) : t :=
  with_hotkeys st (erase_first id_ (m_hotkeys st)) (m_nextHotkeyId st).

(** [bool Start(int pollIntervalMs)]; the thread it creates calls [Poll]. *)
Definition Start (st : t) (pollIntervalMs : Z) : bool * t :=
  if m_running st then (true, st)
  else
    (true,
     mk false true pollIntervalMs (m_toggleKey st) (m_recenterKey st)
        false false (m_toggleCallback st) (m_recenterCallback st)
        (map (fun entry =>
                mkEntry (id entry) (vkCode entry) false (callback entry))
             (m_hotkeys st))
        (m_nextHotkeyId st)).

(** [void Stop()], once the thread has been joined. *)
Definition Stop (st : t) : t :=
  if negb (m_running st) then st
  else
    mk true false (m_pollInterval st) (m_toggleKey st) (m_recenterKey st)
       (m_toggleKeyDown st) (m_recenterKeyDown st) (m_toggleCallback st)
       (m_recenterCallback st) (m_hotkeys st) (m_nextHotkeyId st).

Definition SetToggleKeyCode (st : t) (vkCode : Z) : t :=
  SetToggleKey st vkCode (m_toggleCallback st).

Definition SetRecenterKeyCode (st : t) (vkCode : Z) : t :=
  SetRecenterKey st vkCode (m_recenterCallback st).

(** [(GetAsyncKeyState(vkCode) & kKeyPressedMask) != 0]. *)
Definition pressed (keys : Z -> Z) (vkCode : Z) : bool :=
  negb (Z.land (keys vkCode) kKeyPressedMask =? 0).

(** [void CheckKey(int vkCode, std::atomic<bool>& keyDown,
    const HotkeyCallback& callback)]: [keyDown] afterwards and whether the
    callback is invoked.  The loop body of [Poll] over the generic hotkeys
    is the same code. *)
Definition CheckKey (vkCode : Z) (keyDown callback : bool) (keys : Z -> Z)
    : bool * bool :=
  if (vkCode =? 0) || negb callback then (keyDown, false)
  else
    if pressed keys vkCode && negb keyDown then (true, true)
    else if negb (pressed keys vkCode) && keyDown then (false, false)
    else (keyDown, false).

(** The [for (auto& entry : m_hotkeys)] loop of [Poll]. *)
Fixpoint Poll_hotkeys (hotkeys : list HotkeyEntry) (keys : Z -> Z)
    : list HotkeyEntry * list fired :=
  match hotkeys with
  | [] => ([], [])
  | entry :: rest =>
      let '(down, call) :=
        CheckKey (vkCode entry) (keyDown entry) (callback entry) keys in
      let '(rest', trace) := Poll_hotkeys rest keys in
      (mkEntry (id entry) (vkCode entry) down (callback entry) :: rest',
       (if call then [HotkeyFired (id entry)] else []) ++ trace)
  end.

(** [void Poll()]: the poller afterwards and the callbacks invoked, in
    order. *)
Definition Poll (st : t) (keys : Z -> Z) : t * list fired :=
  let '(toggleDown, toggleCall) :=
    CheckKey (m_toggleKey st) (m_toggleKeyDown st) (m_toggleCallback st) keys in
  let '(recenterDown, recenterCall) :=
    CheckKey (m_recenterKey st) (m_recenterKeyDown st)
      (m_recenterCallback st) keys in
  let '(hotkeys, trace) := Poll_hotkeys (m_hotkeys st) keys in
  (mk (m_stopFlag st) (m_running st) (m_pollInterval st) (m_toggleKey st)
      (m_recenterKey st) toggleDown recenterDown (m_toggleCallback st)
      (m_recenterCallback st) hotkeys (m_nextHotkeyId st),
   (if toggleCall then [ToggleFired] else []) ++
   (if recenterCall then [RecenterFired] else []) ++ trace).

Definition VirtualKeyToString (vkCode : Z) : string :=
  match vkCode with
  | 0x70 => "F1"
  | 0x71 => "F2"
  | 0x72 => "F3"
  | 0x73 => "F4"
  | 0x74 => "F5"
  | 0x75 => "F6"
  | 0x76 => "F7"
  | 0x77 => "F8"
  | 0x78 => "F9"
  | 0x79 => "F10"
  | 0x7A => "F11"
  | 0x7B => "F12"
  | 0x1B => "Escape"
  | 0x20 => "Space"
  | 0x24 => "Home"
  | 0x23 => "End"
  | 0x2D => "Insert"
  | 0x2E => "Delete"
  | 0x60 => "NumPad0"
  | 0x61 => "NumPad1"
  | 0x62 => "NumPad2"
  | 0x63 => "NumPad3"
  | 0x64 => "NumPad4"
  | 0x65 => "NumPad5"
  | 0x66 => "NumPad6"
  | 0x67 => "NumPad7"
  | 0x68 => "NumPad8"
  | 0x69 => "NumPad9"
  | 0x6A => "NumPad*"
  | 0x6B => "NumPad+"
  | 0x6D => "NumPad-"
  | 0x6E => "NumPad."
  | 0x6F => "NumPad/"
  | 0x90 => "NumLock"
  | 0x91 => "ScrollLock"
  | 0x13 => "Pause"
  | 0x2C => "PrintScreen"
  | 0x30 => "0"
  | 0x31 => "1"
  | 0x32 => "2"
  | 0x33 => "3"
  | 0x34 => "4"
  | 0x35 => "5"
  | 0x36 => "6"
  | 0x37 => "7"
  | 0x38 => "8"
  | 0x39 => "9"
  | 0x41 => "A"
  | 0x42 => "B"
  | 0x43 => "C"
  | 0x44 => "D"
  | 0x45 => "E"
  | 0x46 => "F"
  | 0x47 => "G"
  | 0x48 => "H"
  | 0x49 => "I"
  | 0x4A => "J"
  | 0x4B => "K"
  | 0x4C => "L"
  | 0x4D => "M"
  | 0x4E => "N"
  | 0x4F => "O"
  | 0x50 => "P"
  | 0x51 => "Q"
  | 0x52 => "R"
  | 0x53 => "S"
  | 0x54 => "T"
  | 0x55 => "U"
  | 0x56 => "V"
  | 0x57 => "W"
  | 0x58 => "X"
  | 0x59 => "Y"
  | 0x5A => "Z"
  | _ => "Unknown"
  end.

Definition IsValidHotkeyCode (vkCode : Z) : bool :=
  if (0x70 <=? vkCode) && (vkCode <=? 0x7B) then true
  else if (0x60 <=? vkCode) && (vkCode <=? 0x6F) then true
  else if vkCode =? 0x13 then true
  else if vkCode =? 0x2C then true
  else if vkCode =? 0x90 then true
  else if vkCode =? 0x91 then true
  else if vkCode =? 0x24 then true
  else if vkCode =? 0x23 then true
  else if vkCode =? 0x2D then true
  else if vkCode =? 0x2E then true
  else false.

(** The poller's life: the calls of its owner and the polls of its thread
    or of the game loop. *)
Inductive poller_step : t -> t -> Prop :=
| step_SetToggleKey st vk cb : poller_step st (SetToggleKey st vk cb)
| step_SetRecenterKey st vk cb : poller_step st (SetRecenterKey st vk cb)
| step_AddHotkey st vk cb id_ st' :
    AddHotkey st vk cb = Some (id_, st') -> poller_step st st'
| step_RemoveHotkey st id_ : poller_step st (RemoveHotkey st id_)
| step_poller_Start st interval : poller_step st (snd (Start st interval))
| step_poller_Stop st : poller_step st (Stop st)
| step_Poll st keys : poller_step st (fst (Poll st keys)).

Inductive poller_reachable : t -> Prop :=
| poller_reachable_init : poller_reachable init
| poller_reachable_step st st' : poller_reachable st -> poller_step st st' -> poller_reachable st'.

(** The counter is a positive [int], and the ids of the registered
    hotkeys are distinct and were all handed out by it. *)
Definition ids_fresh (st : t) : Prop :=
  1 <= m_nextHotkeyId st <= INT_MAX /\
  NoDup (map id (m_hotkeys st)) /\
  Forall (fun entry => 1 <= id entry < m_nextHotkeyId st) (m_hotkeys st).

End input.

(** ** The life of a polling receiver *)

Module PollingLife.
Import socket.

(** The calls of the owner of a [PollingUdpReceiver]. *)
Inductive polling_step : PollingUdpReceiver.t -> PollingUdpReceiver.t -> Prop :=
| step_Initialize st port os :
    polling_step st (snd (PollingUdpReceiver.Initialize st port os))
| step_Shutdown st : polling_step st (PollingUdpReceiver.Shutdown st)
| step_polling_Poll st incoming now_us now_ms :
    polling_step st (snd (fst (PollingUdpReceiver.Poll st incoming now_us now_ms)))
| step_polling_Recenter st : polling_step st (PollingUdpReceiver.Recenter st)
| step_ResetOffset st : polling_step st (PollingUdpReceiver.ResetOffset st).

Inductive polling_reachable : PollingUdpReceiver.t -> Prop :=
| polling_reachable_init : polling_reachable PollingUdpReceiver.init
| polling_reachable_step st st' :
    polling_reachable st -> polling_step st st' -> polling_reachable st'.

End PollingLife.

(** ** The stores of [UdpReceiver::Stop], one at a time

    [UdpReceiver.Stop] gives the receiver after the call.  The getters
    may run on other threads while [Stop] runs; these are the states they
    can meet after [join()] has returned, in program order. *)

Module StopStores.
Import ieee socket UdpReceiver.

(** The receiver when [join()] returns: [m_stopFlag] is set and the thread
    has handled [inflight]. *)
Definition joined (st : t) (inflight : list (recv_result * Z)) : t :=
  fold_left (fun s e => ReceiverThread_iteration s (fst e) (snd e)) inflight
    (mk (m_socket st) (m_running st) true (m_failed st) (m_trackingData st)
        (m_yawOffset st) (m_pitchOffset st) (m_rollOffset st)
        (m_lastReceiveTimestamp st) (m_isRemoteConnection st)
        (thread_buffer st) (thread_senderAddr st)).

(** [m_socket.Close()]. *)
Definition close_socket (s : t) : t :=
  mk (UdpSocket.Close (m_socket s)) (m_running s) (m_stopFlag s) (m_failed s)
     (m_trackingData s) (m_yawOffset s) (m_pitchOffset s) (m_rollOffset s)
     (m_lastReceiveTimestamp s) (m_isRemoteConnection s)
     (thread_buffer s) (thread_senderAddr s).

(** [m_running.store(false)]. *)
Definition clear_running (s : t) : t :=
  mk (m_socket s) false (m_stopFlag s) (m_failed s)
     (m_trackingData s) (m_yawOffset s) (m_pitchOffset s) (m_rollOffset s)
     (m_lastReceiveTimestamp s) (m_isRemoteConnection s)
     (thread_buffer s) (thread_senderAddr s).

(** [m_trackingData.Reset()]. *)
Definition reset_data (s : t) : t :=
  mk (m_socket s) (m_running s) (m_stopFlag s) (m_failed s)
     (TrackingData.Reset (m_trackingData s))
     (m_yawOffset s) (m_pitchOffset s) (m_rollOffset s)
     (m_lastReceiveTimestamp s) (m_isRemoteConnection s)
     (thread_buffer s) (thread_senderAddr s).

(** [m_yawOffset.store(0.0f)], [m_pitchOffset.store(0.0f)] and
    [m_rollOffset.store(0.0f)]. *)
Definition clear_yawOffset (s : t) : t :=
  mk (m_socket s) (m_running s) (m_stopFlag s) (m_failed s)
     (m_trackingData s) zerof (m_pitchOffset s) (m_rollOffset s)
     (m_lastReceiveTimestamp s) (m_isRemoteConnection s)
     (thread_buffer s) (thread_senderAddr s).

Definition clear_pitchOffset (s : t) : t :=
  mk (m_socket s) (m_running s) (m_stopFlag s) (m_failed s)
     (m_trackingData s) (m_yawOffset s) zerof (m_rollOffset s)
     (m_lastReceiveTimestamp s) (m_isRemoteConnection s)
     (thread_buffer s) (thread_senderAddr s).

Definition clear_rollOffset (s : t) : t :=
  mk (m_socket s) (m_running s) (m_stopFlag s) (m_failed s)
     (m_trackingData s) (m_yawOffset s) (m_pitchOffset s) zerof
     (m_lastReceiveTimestamp s) (m_isRemoteConnection s)
     (thread_buffer s) (thread_senderAddr s).

(** [m_lastReceiveTimestamp.store(0)]. *)
Definition clear_timestamp (s : t) : t :=
  mk (m_socket s) (m_running s) (m_stopFlag s) (m_failed s)
     (m_trackingData s) (m_yawOffset s) (m_pitchOffset s) (m_rollOffset s)
     0 (m_isRemoteConnection s)
     (thread_buffer s) (thread_senderAddr s).

(** [m_isRemoteConnection.store(false)]. *)
Definition clear_remote (s : t) : t :=
  mk (m_socket s) (m_running s) (m_stopFlag s) (m_failed s)
     (m_trackingData s) (m_yawOffset s) (m_pitchOffset s) (m_rollOffset s)
     (m_lastReceiveTimestamp s) false
     (thread_buffer s) (thread_senderAddr s).

(** The statements of [Stop] that follow [join()], in the order of the
    source. *)
Definition stores : list (t -> t) :=
  [close_socket; clear_running; reset_data; clear_yawOffset;
   clear_pitchOffset; clear_rollOffset; clear_timestamp; clear_remote].

(** The receiver after the first [n] of them. *)
Definition after_stores (n : nat) (s : t) : t :=
  fold_left (fun acc store => store acc) (firstn n stores) s.

End StopStores.

(** * Theorems *)

(** ** Encoding and decoding binary64 *)

Module ieeeFacts.
Import ieee.

Lemma byte_of_Z_value (z : Z) : Z.of_N (Byte.to_N (byte_of_Z z)) = z mod 256.
Proof.
  unfold byte_of_Z.
  pose proof (Z.mod_pos_bound z 256 ltac:(lia)) as Hb.
  destruct (Byte.of_N (Z.to_N (z mod 256))) as [b |] eqn:E.
  - apply Byte.to_of_N in E. rewrite E. apply Z2N.id. lia.
  - apply Byte.of_N_None_iff in E. lia.
Qed.

Lemma length_le_bytes (n : nat) : forall w, length (le_bytes n w) = n.
Proof.
  induction n as [| n IH]; intros w; cbn [le_bytes length]; [reflexivity |].
  now rewrite IH.
Qed.

Lemma le_value_le_bytes (n : nat) :
  forall w, 0 <= w < 256 ^ Z.of_nat n -> le_value (le_bytes n w) = w.
Proof.
  induction n as [| n IH]; intros w Hw.
  - cbn [le_bytes le_value]. change (256 ^ Z.of_nat 0) with 1 in Hw. lia.
  - cbn [le_bytes le_value]. rewrite byte_of_Z_value.
    rewrite Nat2Z.inj_succ, Z.pow_succ_r in Hw by lia.
    rewrite IH by (split; [apply Z.div_pos; lia | apply Z.div_lt_upper_bound; lia]).
    pose proof (Z.div_mod w 256 ltac:(lia)). lia.
Qed.

(** The number of binary digits of a mantissa brackets it between two
    powers of two. *)
Lemma digits2_pos_bounds (m : positive) :
  2 ^ (Z.pos (digits2_pos m) - 1) <= Z.pos m < 2 ^ Z.pos (digits2_pos m).
Proof.
  induction m as [m IH | m IH |]; cbn [digits2_pos].
  - rewrite Pos2Z.inj_succ.
    replace (Z.succ (Z.pos (digits2_pos m)) - 1) with (Z.succ (Z.pos (digits2_pos m) - 1)) by lia.
    rewrite !Z.pow_succ_r by lia. lia.
  - rewrite Pos2Z.inj_succ.
    replace (Z.succ (Z.pos (digits2_pos m)) - 1) with (Z.succ (Z.pos (digits2_pos m) - 1)) by lia.
    rewrite !Z.pow_succ_r by lia. lia.
  - cbn. lia.
Qed.

(** The three fields of a 64-bit pattern assembled from sign, biased
    exponent and fraction. *)
Lemma fields_of_pattern (s : bool) (e m : Z) :
  0 <= e < 2048 -> 0 <= m < 2 ^ 52 ->
  let w := (if s then 2 ^ 63 else 0) + e * 2 ^ 52 + m in
  Z.testbit w 63 = s /\
  Z.land (Z.shiftr w 52) 2047 = e /\
  Z.land w (Z.ones 52) = m /\
  0 <= w < 2 ^ 64.
Proof.
  intros He Hm. cbv zeta.
  change 2047 with (Z.ones 11).
  rewrite !Z.land_ones, Z.shiftr_div_pow2, Z.testbit_odd, Z.shiftr_div_pow2 by lia.
  change (2 ^ 63) with 9223372036854775808 in *.
  change (2 ^ 64) with 18446744073709551616 in *.
  change (2 ^ 52) with 4503599627370496 in *.
  change (2 ^ 11) with 2048 in *.
  destruct s.
  - repeat split; try lia.
    + replace ((9223372036854775808 + e * 4503599627370496 + m) / 9223372036854775808)
        with 1 by (apply Z.div_unique with (e * 4503599627370496 + m); lia).
      reflexivity.
    + replace ((9223372036854775808 + e * 4503599627370496 + m) / 4503599627370496)
        with (2048 + e)
        by (apply Z.div_unique with m; lia).
      symmetry. apply Z.mod_unique with 1; lia.
    + symmetry. apply Z.mod_unique with (2048 + e); lia.
  - repeat split; try lia.
    + replace ((0 + e * 4503599627370496 + m) / 9223372036854775808)
        with 0 by (apply Z.div_unique with (e * 4503599627370496 + m); lia).
      reflexivity.
    + replace ((0 + e * 4503599627370496 + m) / 4503599627370496)
        with e by (apply Z.div_unique with m; lia).
      apply Z.mod_small. lia.
    + symmetry. apply Z.mod_unique with e; lia.
Qed.

Lemma bounded_double (m : positive) (e : Z) :
  SpecFloat.bounded 53 1024 m e = true ->
  (Z.pos m < 2 ^ 52 /\ e = -1074) \/
  (2 ^ 52 <= Z.pos m < 2 ^ 53 /\ -1074 <= e <= 971).
Proof.
  unfold SpecFloat.bounded, canonical_mantissa, fexp, emin.
  rewrite andb_true_iff, Z.eqb_eq, Z.leb_le.
  intros [Hc He].
  pose proof (digits2_pos_bounds m) as [Hlo Hhi].
  set (d := Z.pos (digits2_pos m)) in *.
  assert (Hd : 0 < d) by (unfold d; lia).
  destruct (Z_lt_ge_dec (Z.pos m) (2 ^ 52)) as [Hm | Hm].
  - left. split; [exact Hm |].
    assert (d - 1 < 52).
    { apply (Z.pow_lt_mono_r_iff 2); lia. }
    lia.
  - right.
    assert (52 < d).
    { apply (Z.pow_lt_mono_r_iff 2); lia. }
    assert (d = 53) by lia.
    replace d with 53 in Hhi by lia. lia.
Qed.

(** Decoding the bit pattern of a valid binary64 value gives the value
    back. *)
Lemma double_of_bits_of_double (x : double) :
  SpecFloat.valid_binary 53 1024 x = true ->
  double_of_bits (bits_of_double x) = x /\ 0 <= bits_of_double x < 2 ^ 64.
Proof.
  intros Hv.
  assert (Hpat : forall (s : bool) (e m : Z), 0 <= e < 2048 -> 0 <= m < 2 ^ 52 ->
            double_of_bits ((if s then 2 ^ 63 else 0) + e * 2 ^ 52 + m) =
            (if e =? 2047 then if m =? 0 then S754_infinity s else S754_nan
             else if e =? 0 then
               match m with Zpos p => S754_finite s p (-1074) | _ => S754_zero s end
             else S754_finite s (Z.to_pos (m + 2 ^ 52)) (e - 1075)) /\
            0 <= (if s then 2 ^ 63 else 0) + e * 2 ^ 52 + m < 2 ^ 64).
  { intros s e m He Hm.
    destruct (fields_of_pattern s e m He Hm) as (Hs & Hex & Hfr & Hr).
    cbv zeta in Hs, Hex, Hfr, Hr.
    unfold double_of_bits. rewrite Hs, Hex, Hfr. split; [reflexivity | exact Hr]. }
  destruct x as [s | s | | s m e]; cbn [bits_of_double].
  - destruct (Hpat s 0 0) as [H R]; [lia | lia |].
    replace ((if s then 2 ^ 63 else 0) + 0 * 2 ^ 52 + 0)
      with (if s then 2 ^ 63 else 0) in H, R by (destruct s; lia).
    split; [exact H | exact R].
  - destruct (Hpat s 2047 0) as [H R]; [lia | lia |].
    replace ((if s then 2 ^ 63 else 0) + 2047 * 2 ^ 52 + 0)
      with ((if s then 2 ^ 63 else 0) + 2047 * 2 ^ 52) in H, R by lia.
    split; [exact H | exact R].
  - destruct (Hpat false 2047 (2 ^ 51)) as [H R]; [lia | lia |].
    replace ((if false then 2 ^ 63 else 0) + 2047 * 2 ^ 52 + 2 ^ 51)
      with (2047 * 2 ^ 52 + 2 ^ 51) in H, R by lia.
    split; [exact H | exact R].
  - cbn [SpecFloat.valid_binary] in Hv.
    destruct (bounded_double m e Hv) as [[Hm He] | [Hm He]].
    + destruct (Z.pos m <? 2 ^ 52) eqn:L; [| apply Z.ltb_ge in L; lia].
      destruct (Hpat s 0 (Z.pos m)) as [H R]; [lia | lia |].
      replace ((if s then 2 ^ 63 else 0) + 0 * 2 ^ 52 + Z.pos m)
        with ((if s then 2 ^ 63 else 0) + Z.pos m) in H, R by lia.
      subst e. split; [exact H | exact R].
    + destruct (Z.pos m <? 2 ^ 52) eqn:L; [apply Z.ltb_lt in L; lia |].
      destruct (Hpat s (e + 1075) (Z.pos m - 2 ^ 52)) as [H R].
      { lia. }
      { change (2 ^ 53) with (2 * 2 ^ 52) in Hm. lia. }
      split; [| exact R].
      rewrite H.
      destruct (e + 1075 =? 2047) eqn:E1; [apply Z.eqb_eq in E1; lia |].
      destruct (e + 1075 =? 0) eqn:E2; [apply Z.eqb_eq in E2; lia |].
      f_equal; [| lia].
      replace (Z.pos m - 2 ^ 52 + 2 ^ 52) with (Z.pos m) by lia. reflexivity.
Qed.

End ieeeFacts.


(** ** The wire codec *)

Module OpenTrackPacketFacts.
Import ieee OpenTrackPacket.

Lemma nonfinite_orb (x : double) :
  isnan x || isinf x = false <-> ~ nonfinite x.
Proof.
  unfold nonfinite. destruct (isnan x), (isinf x); simpl; intuition congruence.
Qed.

(** The non-finite bit patterns are those with all eleven exponent bits set. *)
Lemma double_of_bits_nonfinite (w : Z) :
  nonfinite (double_of_bits w) <-> Z.land (Z.shiftr w 52) 2047 = 2047.
Proof.
  unfold nonfinite, double_of_bits.
  destruct (Z.land (Z.shiftr w 52) 2047 =? 2047) eqn:E.
  - apply Z.eqb_eq in E.
    destruct (Z.land w (Z.ones 52) =? 0); cbn [isnan isinf]; tauto.
  - apply Z.eqb_neq in E.
    destruct (Z.land (Z.shiftr w 52) 2047 =? 0).
    + destruct (Z.land w (Z.ones 52)); cbn [isnan isinf];
        split; intros H; try tauto; destruct H; discriminate.
    + cbn [isnan isinf]. split; intros H; try tauto; destruct H; discriminate.
Qed.

Lemma TryParse_success_iff (bytes : list byte) (length now : Z)
    (pose : TrackingPose.t float) :
  fst (TryParse (Some bytes) length now pose) = true <->
  48 <= length /\
  ~ nonfinite (memcpy_double bytes 24) /\
  ~ nonfinite (memcpy_double bytes 32) /\
  ~ nonfinite (memcpy_double bytes 40).
Proof.
  unfold TryParse, kMinPacketSize, kYawOffset, kPitchOffset, kRollOffset.
  rewrite <- !nonfinite_orb.
  generalize (memcpy_double bytes 24) (memcpy_double bytes 32)
             (memcpy_double bytes 40).
  intros y p r.
  destruct (length <? 48) eqn:L;
    [apply Z.ltb_lt in L | apply Z.ltb_ge in L].
  - cbn [fst]. split; [discriminate | lia].
  - destruct (isnan y), (isinf y), (isnan p), (isinf p), (isnan r), (isinf r);
      cbn [orb fst]; intuition congruence.
Qed.

Lemma skipn_8_app (l1 l2 : list byte) (n : nat) :
  length l1 = 8%nat -> skipn (8 + n) (l1 ++ l2) = skipn n l2.
Proof.
  intros H. rewrite skipn_app, H.
  replace (8 + n - 8)%nat with n by lia.
  rewrite skipn_all2 by lia. reflexivity.
Qed.

Lemma firstn_8_app (l1 l2 : list byte) :
  length l1 = 8%nat -> firstn 8 (l1 ++ l2) = l1.
Proof.
  intros H. rewrite firstn_app.
  replace (8 - length l1)%nat with 0%nat by lia.
  rewrite firstn_O, app_nil_r. apply firstn_all2. lia.
Qed.

(** A datagram built from six valid doubles carries the last three at
    byte offsets 24, 32 and 40. *)
Lemma memcpy_double_packet (x y z yw pt rl : double) :
  SpecFloat.valid_binary 53 1024 yw = true ->
  SpecFloat.valid_binary 53 1024 pt = true ->
  SpecFloat.valid_binary 53 1024 rl = true ->
  memcpy_double (packet x y z yw pt rl) 24 = yw /\
  memcpy_double (packet x y z yw pt rl) 32 = pt /\
  memcpy_double (packet x y z yw pt rl) 40 = rl /\
  length (packet x y z yw pt rl) = 48%nat.
Proof.
  intros Hy Hp Hr.
  destruct (ieeeFacts.double_of_bits_of_double yw Hy) as [Ey Ry].
  destruct (ieeeFacts.double_of_bits_of_double pt Hp) as [Ep Rp].
  destruct (ieeeFacts.double_of_bits_of_double rl Hr) as [Er Rr].
  unfold memcpy_double, packet. cbn [flat_map].
  pose proof (ieeeFacts.length_le_bytes 8) as L.
  change (Z.to_nat 24) with (8 + (8 + (8 + 0)))%nat.
  change (Z.to_nat 32) with (8 + (8 + (8 + (8 + 0))))%nat.
  change (Z.to_nat 40) with (8 + (8 + (8 + (8 + (8 + 0)))))%nat.
  rewrite !skipn_8_app by apply L. cbn [skipn].
  rewrite !firstn_8_app by apply L.
  rewrite !ieeeFacts.le_value_le_bytes by (change (256 ^ Z.of_nat 8) with (2 ^ 64); assumption).
  rewrite Ey, Ep, Er. repeat split.
Qed.

(** C1.  For a buffer [bytes] and every [length], [TryParse] returns false
    exactly when [length < 48] or one of the doubles at byte offsets 24, 32
    and 40 is NaN or infinite; on success the pose holds those doubles
    narrowed to single precision and the clock reading, which is nonzero
    whenever the clock is; a datagram that carries three finite doubles at
    these offsets parses to them, narrowed; and the one carrying yaw 10.0,
    pitch -5.0, roll 0.0 parses to exactly these three values. *)
Theorem TryParse_spec (bytes : list byte) (length now : Z)
    (pose : TrackingPose.t float) :
  let yaw := memcpy_double bytes 24 in
  let pitch := memcpy_double bytes 32 in
  let roll := memcpy_double bytes 40 in
  let result := TryParse (Some bytes) length now pose in
  (fst result = false <->
     length < 48 \/ nonfinite yaw \/ nonfinite pitch \/ nonfinite roll) /\
  (fst result = true ->
     snd result =
       TrackingPose.mk (float_of_double yaw) (float_of_double pitch)
         (float_of_double roll) now /\
     (now <> 0 -> TrackingPose.timestamp_us (snd result) <> 0 /\
                  TrackingPose.IsValid (snd result) = true)) /\
  (forall x y z yw pt rl : double,
     SpecFloat.valid_binary 53 1024 yw = true ->
     SpecFloat.valid_binary 53 1024 pt = true ->
     SpecFloat.valid_binary 53 1024 rl = true ->
     ~ nonfinite yw -> ~ nonfinite pt -> ~ nonfinite rl ->
     TryParse (Some (packet x y z yw pt rl)) 48 now pose =
       (true, TrackingPose.mk (float_of_double yw) (float_of_double pt)
                (float_of_double rl) now)) /\
  TryParse
    (Some (packet (double_of_Z 0) (double_of_Z 0) (double_of_Z 0)
                  (double_of_Z 10) (double_of_Z (-5)) (double_of_Z 0)))
    48 now pose =
    (true, TrackingPose.mk (float_of_Z 10) (float_of_Z (-5)) (float_of_Z 0) now).
Proof.
  cbv zeta. split; [| split; [| split]].
  - pose proof (TryParse_success_iff bytes length now pose) as H.
    destruct (fst (TryParse (Some bytes) length now pose)).
    + split; [discriminate |].
      intros F. exfalso. destruct H as [H _].
      destruct (H eq_refl) as (L & Y & P & R). intuition lia.
    + split; [intros _ | reflexivity].
      destruct (Z_lt_ge_dec length 48) as [L | L]; [now left | right].
      destruct (isnan (memcpy_double bytes 24) || isinf (memcpy_double bytes 24)) eqn:Y.
      { left. unfold nonfinite. apply orb_true_iff in Y. exact Y. }
      destruct (isnan (memcpy_double bytes 32) || isinf (memcpy_double bytes 32)) eqn:P.
      { right; left. unfold nonfinite. apply orb_true_iff in P. exact P. }
      destruct (isnan (memcpy_double bytes 40) || isinf (memcpy_double bytes 40)) eqn:R.
      { right; right. unfold nonfinite. apply orb_true_iff in R. exact R. }
      exfalso. apply nonfinite_orb in Y, P, R.
      destruct H as [_ H]. assert (false = true) by (apply H; repeat split; auto; lia).
      discriminate.
  - unfold TryParse, kMinPacketSize, kYawOffset, kPitchOffset, kRollOffset.
    generalize (memcpy_double bytes 24) (memcpy_double bytes 32)
               (memcpy_double bytes 40).
    intros y p r.
    destruct (length <? 48); [discriminate |].
    destruct (_ || _); [discriminate |].
    cbn [fst snd TrackingPose.timestamp_us]. intros _. split; [reflexivity |].
    intros N. split; [exact N |].
    unfold TrackingPose.IsValid. cbn [TrackingPose.timestamp_us].
    apply negb_true_iff, Z.eqb_neq, N.
  - intros x y z yw pt rl Vy Vp Vr Fy Fp Fr.
    destruct (memcpy_double_packet x y z yw pt rl Vy Vp Vr) as (Ey & Ep & Er & _).
    apply nonfinite_orb in Fy, Fp, Fr.
    apply orb_false_iff in Fy, Fp, Fr.
    destruct Fy as [Fy1 Fy2], Fp as [Fp1 Fp2], Fr as [Fr1 Fr2].
    unfold TryParse, kMinPacketSize, kYawOffset, kPitchOffset, kRollOffset.
    rewrite Ey, Ep, Er, Fy1, Fy2, Fp1, Fp2, Fr1, Fr2. reflexivity.
  - vm_compute. reflexivity.
Qed.

Lemma TryParse_spec_witness :
  let bytes :=
    packet (double_of_Z 0) (double_of_Z 0) (double_of_Z 0)
           (double_of_Z 10) (double_of_Z (-5)) (double_of_Z 0) in
  let result := TryParse (Some bytes) 48 1234 (TrackingPose.mk (S754_zero false) (S754_zero false) (S754_zero false) 0) in
  fst result = true /\ 1234 <> 0 /\
  TrackingPose.timestamp_us (snd result) <> 0.
Proof.
  cbv zeta. split; [vm_compute; reflexivity |]. split; [lia |].
  apply (TryParse_spec
           (packet (double_of_Z 0) (double_of_Z 0) (double_of_Z 0)
                   (double_of_Z 10) (double_of_Z (-5)) (double_of_Z 0))
           48 1234
           (TrackingPose.mk (S754_zero false) (S754_zero false) (S754_zero false) 0)).
  - vm_compute; reflexivity.
  - lia.
Defined.

(** The bytes of the example datagram: 24 unused bytes, then
    [0x4024000000000000] (10.0), [0xC014000000000000] (-5.0) and zero, each
    least significant byte first. *)
Example packet_bytes :
  packet (double_of_Z 0) (double_of_Z 0) (double_of_Z 0)
         (double_of_Z 10) (double_of_Z (-5)) (double_of_Z 0) =
  repeat x00 24 ++
  [x00; x00; x00; x00; x00; x00; x24; x40] ++
  [x00; x00; x00; x00; x00; x00; x14; xc0] ++
  repeat x00 8.
Proof. vm_compute. reflexivity. Qed.

(** Datagrams that are too short, or carry NaN or an infinity in an angle
    field, are rejected. *)
Example TryParse_rejects :
  let zero := double_of_Z 0 in
  let p0 := TrackingPose.mk (S754_zero false) (S754_zero false) (S754_zero false) 0 in
  fst (TryParse (Some (packet zero zero zero zero zero zero)) 47 1 p0) = false /\
  fst (TryParse (Some (packet zero zero zero S754_nan zero zero)) 48 1 p0) = false /\
  fst (TryParse (Some (packet zero zero zero zero (S754_infinity false) zero)) 48 1 p0) = false /\
  fst (TryParse (Some (packet zero zero zero zero zero (S754_infinity true))) 48 1 p0) = false.
Proof. vm_compute. repeat split. Qed.

(** C10.  Whenever [TryParse] returns false, for a null pointer (which
    fails for every length) as for any buffer and length, the caller's
    pose is what it was before the call. *)
Theorem TryParse_failure_keeps_pose :
  (forall (length now : Z) (pose : TrackingPose.t float),
     TryParse None length now pose = (false, pose)) /\
  (forall (data : option (list byte)) (length now : Z) (pose : TrackingPose.t float),
     fst (TryParse data length now pose) = false ->
     snd (TryParse data length now pose) = pose).
Proof.
  split; [reflexivity |].
  intros [bytes |] length now pose; [| reflexivity].
  unfold TryParse.
  destruct (length <? kMinPacketSize); [reflexivity |].
  destruct (_ || _); [reflexivity | discriminate].
Qed.

Lemma TryParse_failure_keeps_pose_witness :
  let pose := TrackingPose.mk (float_of_Z 1) (float_of_Z 2) (float_of_Z 3) 77 in
  let data := Some (packet (double_of_Z 0) (double_of_Z 0) (double_of_Z 0)
                           S754_nan (double_of_Z 0) (double_of_Z 0)) in
  fst (TryParse data 48 5 pose) = false /\
  snd (TryParse data 48 5 pose) = pose.
Proof.
  cbv zeta. split; [vm_compute; reflexivity |].
  apply (proj2 TryParse_failure_keeps_pose). vm_compute; reflexivity.
Defined.

End OpenTrackPacketFacts.

(** ** The polling receiver *)

Module PollingUdpReceiverFacts.
Import ieee socket OpenTrackPacket PollingUdpReceiver.

(** Bytes beyond the received ones are never read by the codec. *)
Lemma memcpy_double_app (got tail : list byte) (off : Z) :
  (Z.to_nat off + 8 <= length got)%nat ->
  memcpy_double (got ++ tail) off = memcpy_double got off.
Proof.
  intros H. unfold memcpy_double. f_equal. f_equal.
  rewrite skipn_app, firstn_app, length_skipn.
  replace (8 - (length got - Z.to_nat off))%nat with 0%nat by lia.
  rewrite firstn_O, app_nil_r. reflexivity.
Qed.

Lemma TryParse_app (got tail : list byte) (now : Z) (pose : TrackingPose.t float) :
  TryParse (Some (got ++ tail)) (Z.of_nat (length got)) now pose =
  TryParse (Some got) (Z.of_nat (length got)) now pose.
Proof.
  unfold TryParse, kMinPacketSize, kYawOffset, kPitchOffset, kRollOffset.
  destruct (Z.of_nat (length got) <? 48) eqn:L; [reflexivity |].
  apply Z.ltb_ge in L.
  rewrite !memcpy_double_app by lia. reflexivity.
Qed.

Lemma observable_with_buffer (st : t) (buf : list byte) :
  observable (with_buffer st buf) = observable st.
Proof. reflexivity. Qed.

Lemma uint64_small (z : Z) : 0 <= z < 2 ^ 64 -> uint64 z = z.
Proof. intros H. unfold uint64. apply Z.mod_small, H. Qed.

Lemma uint64_range (z : Z) : 0 <= uint64 z < 2 ^ 64.
Proof. unfold uint64. apply Z.mod_pos_bound. lia. Qed.

Lemma uint64_add_l (a b : Z) : uint64 (uint64 a + b) = uint64 (a + b).
Proof. unfold uint64. apply Zplus_mod_idemp_l. Qed.

Lemma length_received (payload : list byte) :
  0 <= Z.of_nat (length (firstn (Z.to_nat kMaxBufferSize) payload)) <= 256.
Proof.
  rewrite length_firstn. unfold kMaxBufferSize.
  change (Z.to_nat 256) with 256%nat. lia.
Qed.

(** One iteration of the loop on a pending non-empty datagram. *)
Lemma Poll_loop_datagram (fuel : nat) (st : t) (payload : list byte)
    (from : sockaddr_in) (rest : list recv_result) (now_us : Z) (r : bool) :
  let got := firstn (Z.to_nat kMaxBufferSize) payload in
  let buf := got ++ skipn (length got) (m_receiveBuffer st) in
  let d := (got, from) in
  got <> [] ->
  Poll_loop (S fuel) st (Datagram payload from :: rest) now_us r =
  if parses now_us d then
    Poll_loop fuel
      (count_packet
         (mk (m_socket st) (m_initialized st)
             (TrackingPose.yaw (parsed_pose now_us d))
             (TrackingPose.pitch (parsed_pose now_us d))
             (TrackingPose.roll (parsed_pose now_us d)) true
             (m_yawOffset st) (m_pitchOffset st) (m_rollOffset st)
             (m_hasOffset st) (m_lastReceiveTimeMs st)
             (m_isRemoteConnection st) (m_packetsReceived st)
             (m_bytesReceived st) buf)
         (Z.of_nat (length got)) from)
      rest now_us true
  else Poll_loop fuel (with_buffer st buf) rest now_us r.
Proof.
  intros got buf d Hne.
  pose proof (length_received payload) as Hlen. fold got in Hlen.
  assert (Hpos : 0 < Z.of_nat (length got)).
  { destruct got; [congruence | cbn [length]; lia]. }
  cbn [Poll_loop recvfrom]. fold got. fold buf.
  unfold SOCKET_ERROR.
  destruct (Z.of_nat (length got) =? -1) eqn:E1; [apply Z.eqb_eq in E1; lia |].
  destruct (Z.of_nat (length got) =? 0) eqn:E2; [apply Z.eqb_eq in E2; lia |].
  unfold ParsePacket, parses, parsed_pose, zero_pose. subst d.
  cbn [m_receiveBuffer with_buffer fst snd].
  rewrite uint64_small by lia.
  unfold buf at 1 2. rewrite TryParse_app.
  destruct (TryParse (Some got) (Z.of_nat (length got)) now_us
              (TrackingPose.mk zerof zerof zerof 0)) as [ok pose].
  cbn [fst snd]. destruct ok; reflexivity.
Qed.

Lemma rev_nil_inv {A} (l : list A) : rev l = [] -> l = [].
Proof.
  intros H. rewrite <- (rev_involutive l), H. reflexivity.
Qed.

(** Accepting one more datagram first, then the rest. *)
Lemma after_poll_cons (now_us ms : Z) (st : t) (d : list byte * sockaddr_in)
    (buf : list byte) (good : list (list byte * sockaddr_in)) :
  0 <= Z.of_nat (length (fst d)) <= 256 ->
  after_poll now_us ms
    (count_packet
       (mk (m_socket st) (m_initialized st)
           (TrackingPose.yaw (parsed_pose now_us d))
           (TrackingPose.pitch (parsed_pose now_us d))
           (TrackingPose.roll (parsed_pose now_us d)) true
           (m_yawOffset st) (m_pitchOffset st) (m_rollOffset st)
           (m_hasOffset st) ms
           (m_isRemoteConnection st) (m_packetsReceived st)
           (m_bytesReceived st) buf)
       (Z.of_nat (length (fst d))) (snd d))
    good =
  match rev good with
  | [] =>
      (m_initialized st,
       (TrackingPose.yaw (parsed_pose now_us d),
        TrackingPose.pitch (parsed_pose now_us d),
        TrackingPose.roll (parsed_pose now_us d), true),
       (m_yawOffset st, m_pitchOffset st, m_rollOffset st, m_hasOffset st),
       ms, IsRemoteAddress (snd d),
       (uint64 (m_packetsReceived st + 1),
        uint64 (m_bytesReceived st + Z.of_nat (length (fst d)))))
  | _ => after_poll now_us ms st (d :: good)
  end.
Proof.
  intros Hlen. unfold after_poll. cbn [rev].
  destruct (rev good) as [| latest l] eqn:E.
  - unfold observable, count_packet.
    cbn [m_initialized m_yaw m_pitch m_roll m_hasData m_yawOffset
         m_pitchOffset m_rollOffset m_hasOffset m_lastReceiveTimeMs
         m_isRemoteConnection m_packetsReceived m_bytesReceived].
    rewrite (uint64_small (Z.of_nat _)) by lia. reflexivity.
  - cbn [app]. unfold count_packet.
    cbn [m_initialized m_yaw m_pitch m_roll m_hasData m_yawOffset
         m_pitchOffset m_rollOffset m_hasOffset m_lastReceiveTimeMs
         m_isRemoteConnection m_packetsReceived m_bytesReceived
         length total_bytes fold_right].
    rewrite !uint64_add_l, (uint64_small (Z.of_nat (length (fst d)))) by lia.
    fold (total_bytes good).
    replace (m_packetsReceived st + 1 + Z.of_nat (length good))
      with (m_packetsReceived st + Z.of_nat (S (length good))) by lia.
    rewrite <- Z.add_assoc. reflexivity.
Qed.

(** The loop of [Poll], summarised: the flag it leaves and what is
    observable afterwards, from the datagrams it handled. *)
Lemma Poll_loop_spec (now_us : Z) (fuel : nat) :
  forall (incoming : list recv_result) (st : t) (r : bool),
    let result := Poll_loop fuel st incoming now_us r in
    let handled := firstn fuel (drain incoming) in
    snd result = r || existsb (parses now_us) handled /\
    observable (fst (fst result)) =
      after_poll now_us (m_lastReceiveTimeMs st) st (filter (parses now_us) handled).
Proof.
  induction fuel as [| fuel IH]; intros incoming st r; cbv zeta.
  - cbn [Poll_loop firstn existsb filter fst snd].
    rewrite orb_false_r. split; reflexivity.
  - destruct incoming as [| [payload from | |] rest];
      try (cbn [Poll_loop recvfrom drain firstn existsb filter fst snd];
           rewrite orb_false_r; split; reflexivity).
    destruct (firstn (Z.to_nat kMaxBufferSize) payload) as [| b got] eqn:G.
    + cbn [Poll_loop recvfrom drain]. rewrite G.
      cbn [length Z.of_nat firstn existsb filter fst snd app skipn].
      rewrite orb_false_r. split; reflexivity.
    + pose proof (length_received payload) as Hlen.
      rewrite Poll_loop_datagram by (rewrite G; discriminate).
      cbn [drain]. rewrite G in *. cbn [firstn existsb filter].
      destruct (parses now_us (b :: got, from)) eqn:P.
      * match goal with
        | |- context [Poll_loop fuel ?s rest now_us true] =>
            specialize (IH rest s true)
        end.
        cbv zeta in IH. destruct IH as [IHr IHo].
        rewrite IHr, IHo. split; [now rewrite orb_true_r |].
        unfold count_packet at 1.
        cbn [m_lastReceiveTimeMs].
        rewrite (after_poll_cons now_us (m_lastReceiveTimeMs st) st (b :: got, from))
          by exact Hlen.
        destruct (rev (filter (parses now_us) (firstn fuel (drain rest)))) eqn:E;
          [| reflexivity].
        apply rev_nil_inv in E. rewrite E. reflexivity.
      * specialize (IH rest (with_buffer st ((b :: got) ++ skipn (length (b :: got)) (m_receiveBuffer st))) r).
        cbv zeta in IH. destruct IH as [IHr IHo].
        rewrite IHr, IHo. split; [reflexivity |].
        unfold after_poll. reflexivity.
Qed.

Lemma existsb_filter {A} (p : A -> bool) (l : list A) :
  existsb p l = match filter p l with [] => false | _ => true end.
Proof.
  induction l as [| a l IH]; [reflexivity |].
  cbn [existsb filter]. destruct (p a); [reflexivity | exact IH].
Qed.

Lemma length_drain (incoming : list recv_result) :
  (length (drain incoming) <= length incoming)%nat.
Proof.
  induction incoming as [| [payload from | |] rest IH]; cbn [drain length]; try lia.
  destruct (firstn (Z.to_nat kMaxBufferSize) payload); cbn [length]; lia.
Qed.

Lemma drained_all (incoming : list recv_result) :
  (length incoming <= kMaxPacketsPerFrame)%nat -> drained incoming = drain incoming.
Proof.
  intros H. unfold drained. apply firstn_all2.
  pose proof (length_drain incoming). lia.
Qed.

(** A non-empty datagram that does not parse leaves no trace among the
    accepted ones. *)
Lemma filter_drain_skip (now_us : Z) (pre post : list recv_result)
    (payload : list byte) (from : sockaddr_in) :
  firstn (Z.to_nat kMaxBufferSize) payload <> [] ->
  parses now_us (firstn (Z.to_nat kMaxBufferSize) payload, from) = false ->
  filter (parses now_us) (drain (pre ++ Datagram payload from :: post)) =
  filter (parses now_us) (drain (pre ++ post)).
Proof.
  intros Hne Hbad.
  induction pre as [| [p f | |] pre IH]; cbn [app drain]; try reflexivity.
  - destruct (firstn (Z.to_nat kMaxBufferSize) payload) as [| b got] eqn:G;
      [congruence |].
    cbn [filter]. rewrite Hbad. reflexivity.
  - destruct (firstn (Z.to_nat kMaxBufferSize) p) as [| b got]; [reflexivity |].
    cbn [filter]. rewrite IH. reflexivity.
Qed.

Lemma Poll_summary (st : t) (incoming : list recv_result) (now_us now_ms : Z) :
  m_initialized st = true ->
  UdpSocket.IsOpen (m_socket st) = true ->
  let result := Poll st incoming now_us now_ms in
  let good := filter (parses now_us) (drained incoming) in
  fst (fst result) = match good with [] => false | _ => true end /\
  observable (snd (fst result)) = after_poll now_us now_ms st good.
Proof.
  intros Hi Ho. cbv zeta. unfold Poll. rewrite Hi, Ho. cbn [negb orb].
  pose proof (Poll_loop_spec now_us kMaxPacketsPerFrame incoming st false) as H.
  cbv zeta in H. fold (drained incoming) in H.
  destruct (Poll_loop kMaxPacketsPerFrame st incoming now_us false) as [[st' rest] r].
  cbn [fst snd] in H. destruct H as [Hr Hobs].
  cbn [orb] in Hr. rewrite existsb_filter in Hr.
  unfold after_poll in *.
  destruct (filter (parses now_us) (drained incoming)) as [| d good] eqn:G.
  - subst r. cbn [fst snd rev]. cbn [rev] in Hobs. split; [reflexivity | exact Hobs].
  - subst r. cbn [fst snd]. split; [reflexivity |].
    destruct (rev (d :: good)) as [| latest l] eqn:E.
    { apply rev_nil_inv in E. discriminate. }
    unfold observable in *. unfold with_lastReceiveTimeMs.
    cbn [m_initialized m_yaw m_pitch m_roll m_hasData m_yawOffset
         m_pitchOffset m_rollOffset m_hasOffset m_lastReceiveTimeMs
         m_isRemoteConnection m_packetsReceived m_bytesReceived].
    congruence.
Qed.

(** C5.  One call of [Poll] on an initialised receiver, whatever is
    pending: it returns true exactly when one of the datagrams it handled
    parsed; what is observable afterwards is determined by the parsed
    datagrams alone: the latest pose and the remote flag are those of the
    last parsed datagram, the counters grow by the number and by the bytes
    of the parsed datagrams, and with none parsed nothing observable
    changes; and a pending non-empty datagram that fails to parse can be
    removed from the input without changing the returned flag or anything
    observable (the iteration cap not being reached).  A receiver that is
    not initialised returns false and stays as it is. *)
Theorem Poll_spec (st : t) (incoming : list recv_result) (now_us now_ms : Z) :
  let result := Poll st incoming now_us now_ms in
  let received := fst (fst result) in
  let st' := snd (fst result) in
  let good := filter (parses now_us) (drained incoming) in
  (m_initialized st = false -> received = false /\ st' = st) /\
  (m_initialized st = true -> UdpSocket.IsOpen (m_socket st) = true ->
   (received = true <->
      exists d, In d (drained incoming) /\ parses now_us d = true) /\
   observable st' = after_poll now_us now_ms st good /\
   (good = [] -> observable st' = observable st) /\
   (forall earlier latest, good = earlier ++ [latest] ->
      (m_yaw st', m_pitch st', m_roll st', m_hasData st') =
        (TrackingPose.yaw (parsed_pose now_us latest),
         TrackingPose.pitch (parsed_pose now_us latest),
         TrackingPose.roll (parsed_pose now_us latest), true) /\
      m_isRemoteConnection st' = IsRemoteAddress (snd latest)) /\
   (counters_in_range st ->
      m_packetsReceived st + Z.of_nat (length good) < 2 ^ 64 ->
      m_bytesReceived st + total_bytes good < 2 ^ 64 ->
      m_packetsReceived st' = m_packetsReceived st + Z.of_nat (length good) /\
      m_bytesReceived st' = m_bytesReceived st + total_bytes good) /\
   (forall pre post payload from,
      incoming = pre ++ Datagram payload from :: post ->
      (length incoming <= kMaxPacketsPerFrame)%nat ->
      payload <> [] ->
      parses now_us (firstn (Z.to_nat kMaxBufferSize) payload, from) = false ->
      let without := Poll st (pre ++ post) now_us now_ms in
      fst (fst without) = received /\
      observable (snd (fst without)) = observable st')).
Proof.
  cbv zeta. split.
  { intros Hi. unfold Poll. rewrite Hi. split; reflexivity. }
  intros Hi Ho.
  destruct (Poll_summary st incoming now_us now_ms Hi Ho) as [Hr Hobs].
  cbv zeta in Hr, Hobs.
  assert (Hnn : forall ds, 0 <= total_bytes ds).
  { induction ds as [| x ds IHds]; cbn [total_bytes fold_right]; [lia |].
    fold (total_bytes ds). lia. }
  assert (Hskip : forall pre post payload from,
    incoming = pre ++ Datagram payload from :: post ->
    (length incoming <= kMaxPacketsPerFrame)%nat ->
    payload <> [] ->
    parses now_us (firstn (Z.to_nat kMaxBufferSize) payload, from) = false ->
    filter (parses now_us) (drained (pre ++ post)) =
    filter (parses now_us) (drained incoming)).
  { intros pre post payload from -> Hlen Hne Hbad.
    rewrite !drained_all.
    - symmetry. apply filter_drain_skip; [| assumption].
      destruct payload; [congruence | discriminate].
    - exact Hlen.
    - rewrite length_app in *. cbn [length] in *. lia. }
  split; [| split; [| split; [| split; [| split]]]].
  - rewrite Hr. split.
    + intros H.
      destruct (filter (parses now_us) (drained incoming)) as [| d good] eqn:G;
        [discriminate |].
      exists d. apply filter_In. rewrite G. left. reflexivity.
    + intros (d & Hin & Hp).
      assert (Hd : In d (filter (parses now_us) (drained incoming)))
        by (apply filter_In; split; assumption).
      destruct (filter (parses now_us) (drained incoming));
        [destruct Hd | reflexivity].
  - exact Hobs.
  - intros G. rewrite Hobs, G. reflexivity.
  - intros earlier latest Hgood.
    unfold after_poll, observable in Hobs.
    rewrite Hgood, rev_app_distr in Hobs. cbn [rev app] in Hobs.
    split; congruence.
  - intros [Hp Hb] Hp' Hb'.
    unfold after_poll, observable in Hobs.
    destruct (rev (filter (parses now_us) (drained incoming))) as [| d l] eqn:E.
    + apply rev_nil_inv in E. rewrite E in *.
      cbn [length Z.of_nat total_bytes fold_right].
      rewrite !Z.add_0_r. split; congruence.
    + pose proof (Zle_0_nat (length (filter (parses now_us) (drained incoming)))).
      pose proof (Hnn (filter (parses now_us) (drained incoming))).
      rewrite <- (uint64_small (m_packetsReceived st + _)) by lia.
      rewrite <- (uint64_small (m_bytesReceived st + _)) by lia.
      split; congruence.
  - intros pre post payload from Hinc Hlen Hne Hbad.
    destruct (Poll_summary st (pre ++ post) now_us now_ms Hi Ho) as [Hr' Ho'].
    cbv zeta in Hr', Ho'.
    rewrite Hr', Ho', Hr, Hobs.
    rewrite (Hskip pre post payload from Hinc Hlen Hne Hbad).
    split; reflexivity.
Qed.

Lemma Poll_spec_witness :
  let st := example_polling_receiver in
  let st' := snd (fst (Poll st example_burst 1000 1)) in
  m_initialized st = true /\
  UdpSocket.IsOpen (m_socket st) = true /\
  counters_in_range st /\
  fst (fst (Poll st example_burst 1000 1)) = true /\
  (m_yaw st', m_pitch st', m_roll st', m_hasData st') =
    (float_of_Z 1, float_of_Z 2, float_of_Z 3, true) /\
  m_isRemoteConnection st' = true /\
  m_packetsReceived st' = 2 /\
  m_bytesReceived st' = 96.
Proof.
  cbv zeta.
  assert (Hi : m_initialized example_polling_receiver = true) by reflexivity.
  assert (Ho : UdpSocket.IsOpen (m_socket example_polling_receiver) = true) by reflexivity.
  assert (Hc : counters_in_range example_polling_receiver).
  { split; split; (vm_compute; congruence). }
  destruct (proj2 (Poll_spec example_polling_receiver example_burst 1000 1) Hi Ho)
    as (Hr & _ & _ & Hlatest & Hcount & _).
  split; [exact Hi |]. split; [exact Ho |]. split; [exact Hc |].
  split.
  { apply Hr.
    exists (OpenTrackPacket.packet (double_of_Z 0) (double_of_Z 0) (double_of_Z 0)
              (double_of_Z 1) (double_of_Z 2) (double_of_Z 3),
            {| s_addr_host := 3232235778 |}).
    split; [vm_compute; tauto | vm_compute; reflexivity]. }
  pose (zero := double_of_Z 0).
  pose (d1 := (OpenTrackPacket.packet zero zero zero
                 (double_of_Z 10) (double_of_Z (-5)) zero,
               {| s_addr_host := INADDR_LOOPBACK |})).
  pose (d2 := (OpenTrackPacket.packet zero zero zero
                 (double_of_Z 1) (double_of_Z 2) (double_of_Z 3),
               {| s_addr_host := 3232235778 |})).
  assert (Hgood : filter (parses 1000) (drained example_burst) = [d1] ++ [d2])
    by (vm_compute; reflexivity).
  destruct (Hlatest [d1] d2 Hgood) as [Hpose Hremote].
  split; [| split].
  - rewrite Hpose. vm_compute. reflexivity.
  - rewrite Hremote. vm_compute. reflexivity.
  - rewrite Hgood in Hcount.
    destruct (Hcount Hc) as [Hp Hb]; [vm_compute; reflexivity .. |].
    split; [rewrite Hp | rewrite Hb]; vm_compute; reflexivity.
Defined.

(** An empty datagram is not parsed: it ends the draining, and what is
    pending behind it waits for the next call. *)
Example Poll_stops_at_empty_datagram :
  let lo := {| s_addr_host := INADDR_LOOPBACK |} in
  let zero := double_of_Z 0 in
  let first := packet zero zero zero (double_of_Z 10) (double_of_Z (-5)) zero in
  let second := packet zero zero zero (double_of_Z 1) (double_of_Z 2) (double_of_Z 3) in
  let result :=
    Poll example_polling_receiver
      [Datagram first lo; Datagram [] lo; Datagram second lo] 1000 1 in
  fst (fst result) = true /\
  m_yaw (snd (fst result)) = float_of_Z 10 /\
  m_packetsReceived (snd (fst result)) = 1 /\
  snd result = [Datagram second lo].
Proof. vm_compute. repeat split. Qed.

End PollingUdpReceiverFacts.

(** ** Stopping the receivers *)

Module SessionFacts.
Import ieee socket.

(** *** The threaded receiver *)

Lemma ReceiverThread_iteration_running (st : UdpReceiver.t) (ev : recv_result)
    (now_us : Z) :
  UdpReceiver.m_running (UdpReceiver.ReceiverThread_iteration st ev now_us) =
  UdpReceiver.m_running st.
Proof.
  unfold UdpReceiver.ReceiverThread_iteration.
  destruct (recvfrom [ev] _ _ _) as [[[n buf] addr] rest].
  destruct (if OpenTrackPacket.kMinPacketSize <=? n then _ else _) as [ok pose].
  destruct ok; reflexivity.
Qed.

Lemma inflight_running (inflight : list (recv_result * Z)) :
  forall st : UdpReceiver.t,
    UdpReceiver.m_running
      (fold_left (fun s e => UdpReceiver.ReceiverThread_iteration s (fst e) (snd e))
         inflight st) =
    UdpReceiver.m_running st.
Proof.
  induction inflight as [| e inflight IH]; intros st; cbn [fold_left];
    [reflexivity |].
  rewrite IH. apply ReceiverThread_iteration_running.
Qed.

(** [Stop] on a running receiver resets the session, whatever the thread
    received last. *)
Lemma Stop_running_cleared (st : UdpReceiver.t) (inflight : list (recv_result * Z)) :
  UdpReceiver.m_running st = true ->
  UdpReceiver.session_cleared (UdpReceiver.Stop st inflight) /\
  UdpReceiver.m_running (UdpReceiver.Stop st inflight) = false /\
  UdpSocket.IsOpen (UdpReceiver.m_socket (UdpReceiver.Stop st inflight)) = false.
Proof.
  intros Hr. unfold UdpReceiver.Stop. rewrite Hr. cbn [negb].
  unfold UdpReceiver.session_cleared. cbn. repeat split.
Qed.

Lemma Recenter_cleared (st : UdpReceiver.t) :
  UdpReceiver.session_cleared st -> UdpReceiver.Recenter st = st.
Proof.
  intros (Hd & _). unfold UdpReceiver.Recenter, TrackingData.Get.
  rewrite Hd. reflexivity.
Qed.

Lemma step_stopped_is_cleared (st st' : UdpReceiver.t) :
  UdpReceiver.step st st' -> UdpReceiver.stopped_is_cleared st -> UdpReceiver.stopped_is_cleared st'.
Proof.
  intros Hstep Hinv. destruct Hstep as [st port os | st inflight | st | st ev now_us Hr].
  - unfold UdpReceiver.Start, UdpReceiver.stopped_is_cleared in *.
    destruct (UdpReceiver.m_running st) eqn:R; [cbn [snd]; congruence |].
    destruct (UdpSocket.Open (UdpReceiver.m_socket st) port os) as [[|] sock];
      cbn [negb snd UdpReceiver.m_running]; [discriminate |].
    intros _. exact (Hinv eq_refl).
  - unfold UdpReceiver.stopped_is_cleared in *.
    destruct (UdpReceiver.m_running st) eqn:R.
    + intros _. apply Stop_running_cleared, R.
    + unfold UdpReceiver.Stop. rewrite R. cbn [negb].
      intros _. exact (Hinv eq_refl).
  - unfold UdpReceiver.stopped_is_cleared in *.
    destruct (UdpReceiver.m_running st) eqn:R.
    + unfold UdpReceiver.Recenter.
      destruct (TrackingData.Get _ _) as [[|] [[y p] r]];
        cbn [UdpReceiver.m_running]; congruence.
    + rewrite Recenter_cleared by (apply Hinv; reflexivity).
      intros _. exact (Hinv eq_refl).
  - unfold UdpReceiver.stopped_is_cleared. rewrite ReceiverThread_iteration_running. congruence.
Qed.

Lemma reachable_stopped_is_cleared (st : UdpReceiver.t) :
  UdpReceiver.reachable st -> UdpReceiver.stopped_is_cleared st.
Proof.
  induction 1 as [| st st' _ IH Hstep].
  - intros _. unfold UdpReceiver.session_cleared. cbn. repeat split.
  - eapply step_stopped_is_cleared; eassumption.
Qed.

Lemma GetRotation_cleared (st : UdpReceiver.t) (ypr : float * float * float) :
  UdpReceiver.session_cleared st ->
  UdpReceiver.GetRotation st ypr = (false, ypr).
Proof.
  intros (Hd & _). unfold UdpReceiver.GetRotation, TrackingData.Get.
  rewrite Hd. cbn. destruct ypr as [[y p] r]. reflexivity.
Qed.

(** *** The polling receiver *)

Lemma Shutdown_session (st : PollingUdpReceiver.t) :
  PollingUdpReceiver.session (PollingUdpReceiver.Shutdown st) =
  PollingUdpReceiver.session st.
Proof.
  unfold PollingUdpReceiver.Shutdown.
  destruct (PollingUdpReceiver.m_initialized st); reflexivity.
Qed.

Lemma Shutdown_initialized (st : PollingUdpReceiver.t) :
  PollingUdpReceiver.m_initialized (PollingUdpReceiver.Shutdown st) = false.
Proof.
  unfold PollingUdpReceiver.Shutdown.
  destruct (PollingUdpReceiver.m_initialized st) eqn:E; [reflexivity | exact E].
Qed.

Lemma Initialize_fresh (st : PollingUdpReceiver.t) (port : Z) (os : option Z) :
  PollingUdpReceiver.m_initialized st = false ->
  fst (PollingUdpReceiver.Initialize st port os) = true ->
  let st' := snd (PollingUdpReceiver.Initialize st port os) in
  PollingUdpReceiver.m_initialized st' = true /\
  PollingUdpReceiver.m_hasData st' = false /\
  PollingUdpReceiver.m_hasOffset st' = false /\
  PollingUdpReceiver.m_lastReceiveTimeMs st' = 0 /\
  PollingUdpReceiver.m_isRemoteConnection st' = false /\
  PollingUdpReceiver.m_packetsReceived st' = 0 /\
  PollingUdpReceiver.m_bytesReceived st' = 0.
Proof.
  intros Hi. unfold PollingUdpReceiver.Initialize. rewrite Hi.
  destruct (UdpSocket.Open _ _ _) as [[|] sock]; cbn [negb fst snd].
  - intros _. cbn. repeat split.
  - discriminate.
Qed.

Lemma Initialize_open (st : PollingUdpReceiver.t) (port : Z) (os : option Z) :
  PollingUdpReceiver.m_initialized st = false ->
  fst (PollingUdpReceiver.Initialize st port os) = true ->
  UdpSocket.IsOpen
    (PollingUdpReceiver.m_socket (snd (PollingUdpReceiver.Initialize st port os))) = true.
Proof.
  intros Hi. unfold PollingUdpReceiver.Initialize. rewrite Hi.
  unfold UdpSocket.Open, UdpSocket.IsOpen.
  destruct (UdpSocket.m_socket (PollingUdpReceiver.m_socket st) =? INVALID_SOCKET) eqn:E;
    cbn [negb fst snd PollingUdpReceiver.m_socket].
  - destruct os as [fd |]; [| discriminate].
    destruct (fd =? INVALID_SOCKET) eqn:F;
      cbn [negb fst snd PollingUdpReceiver.m_socket UdpSocket.m_socket];
      [discriminate |].
    intros _. rewrite F. reflexivity.
  - intros _. rewrite E. reflexivity.
Qed.

(** After a call of [Poll] on a receiver without data, the getters answer
    what the call returned. *)
Lemma Poll_has_data (st : PollingUdpReceiver.t) (incoming : list recv_result)
    (now_us now_ms : Z) :
  PollingUdpReceiver.m_initialized st = true ->
  UdpSocket.IsOpen (PollingUdpReceiver.m_socket st) = true ->
  PollingUdpReceiver.m_hasData st = false ->
  PollingUdpReceiver.m_hasData
    (snd (fst (PollingUdpReceiver.Poll st incoming now_us now_ms))) =
  fst (fst (PollingUdpReceiver.Poll st incoming now_us now_ms)).
Proof.
  intros Hi Ho Hd.
  destruct (PollingUdpReceiverFacts.Poll_summary st incoming now_us now_ms Hi Ho)
    as [Hr Hobs].
  cbv zeta in Hr, Hobs. rewrite Hr.
  unfold PollingUdpReceiver.after_poll, PollingUdpReceiver.observable in Hobs.
  destruct (filter _ _) as [| d good].
  - cbn [rev] in Hobs. congruence.
  - destruct (rev (d :: good)) as [| latest l] eqn:E.
    + apply PollingUdpReceiverFacts.rev_nil_inv in E. discriminate.
    + congruence.
Qed.

(** An iteration of the receiver thread that meets no datagram of at
    least 48 bytes publishes nothing. *)
Lemma ReceiverThread_iteration_idle (st : UdpReceiver.t) (ev : recv_result)
    (now_us : Z) :
  (forall payload from, ev = Datagram payload from -> (length payload < 48)%nat) ->
  UdpReceiver.session_cleared st ->
  UdpReceiver.session_cleared (UdpReceiver.ReceiverThread_iteration st ev now_us).
Proof.
  intros Hev Hc. unfold UdpReceiver.ReceiverThread_iteration.
  destruct ev as [payload from | |]; cbn [recvfrom]; try exact Hc.
  specialize (Hev payload from eq_refl).
  assert (Hlen : (OpenTrackPacket.kMinPacketSize <=?
                  Z.of_nat (length (firstn (Z.to_nat UdpReceiver.kReceiveBufferSize) payload)))
                 = false).
  { apply Z.leb_gt. rewrite length_firstn. unfold OpenTrackPacket.kMinPacketSize. lia. }
  rewrite Hlen. exact Hc.
Qed.

(** After a session that received poses, [Shutdown] leaves them readable. *)
Lemma Shutdown_keeps_session :
  let st :=
    PollingUdpReceiver.Shutdown
      (snd (fst (PollingUdpReceiver.Poll PollingUdpReceiver.example_polling_receiver
                   PollingUdpReceiver.example_burst 1000 1))) in
  let zero := S754_zero false in
  PollingUdpReceiver.GetRotation st (zero, zero, zero) =
    (true, (float_of_Z 1, float_of_Z 2, float_of_Z 3)) /\
  PollingUdpReceiver.m_hasData st = true /\
  PollingUdpReceiver.m_lastReceiveTimeMs st = 1 /\
  PollingUdpReceiver.m_isRemoteConnection st = true /\
  PollingUdpReceiver.m_packetsReceived st = 2 /\
  PollingUdpReceiver.m_bytesReceived st = 96.
Proof. vm_compute. repeat split. Qed.

(** C4, as the code has it.  [Stop] on the threaded receiver, in every
    state the receiver can reach and whatever its thread still receives
    before it ends, leaves the published pose and its flag, the offsets,
    the last-receive timestamp and the remote flag at their defaults, so
    [GetRotation] and [IsReceiving] answer false; and they stay so under
    [Recenter], [Stop], [Start] and every iteration of the thread that
    meets no datagram of 48 bytes or more.
    [Shutdown] on the polling receiver closes the socket and clears the
    initialised flag only: latest pose, offsets, timestamp, remote flag
    and statistics keep their values and the getters keep answering as
    before.  It is the next successful [Initialize] that resets the
    has-data and has-offset flags, the timestamp, the remote flag and the
    statistics, after which the rotation getters answer false, and after
    the next [Poll] answer what that call returned. *)
Theorem Stop_Shutdown_spec :
  (forall (st : UdpReceiver.t) (inflight : list (recv_result * Z)),
     UdpReceiver.reachable st ->
     let st' := UdpReceiver.Stop st inflight in
     UdpReceiver.session_cleared st' /\
     UdpReceiver.m_running st' = false /\
     (forall ypr, UdpReceiver.GetRotation st' ypr = (false, ypr)) /\
     (forall nowUs, UdpReceiver.IsReceiving st' nowUs = false)) /\
  (forall st : UdpReceiver.t,
     UdpReceiver.session_cleared st ->
     UdpReceiver.Recenter st = st /\
     (forall inflight, UdpReceiver.m_running st = false ->
        UdpReceiver.Stop st inflight = st) /\
     (forall port os,
        UdpReceiver.session_cleared (snd (UdpReceiver.Start st port os))) /\
     (forall ev now_us,
        (forall payload from, ev = Datagram payload from ->
           (length payload < 48)%nat) ->
        UdpReceiver.session_cleared
          (UdpReceiver.ReceiverThread_iteration st ev now_us))) /\
  (forall st : PollingUdpReceiver.t,
     let st' := PollingUdpReceiver.Shutdown st in
     PollingUdpReceiver.m_initialized st' = false /\
     PollingUdpReceiver.session st' = PollingUdpReceiver.session st /\
     (forall ypr,
        PollingUdpReceiver.GetRotation st' ypr = PollingUdpReceiver.GetRotation st ypr /\
        PollingUdpReceiver.GetRawRotation st' ypr = PollingUdpReceiver.GetRawRotation st ypr)) /\
  (forall (st : PollingUdpReceiver.t) (port : Z) (os : option Z),
     PollingUdpReceiver.m_initialized st = false ->
     fst (PollingUdpReceiver.Initialize st port os) = true ->
     let st' := snd (PollingUdpReceiver.Initialize st port os) in
     PollingUdpReceiver.m_hasData st' = false /\
     PollingUdpReceiver.m_hasOffset st' = false /\
     PollingUdpReceiver.m_lastReceiveTimeMs st' = 0 /\
     PollingUdpReceiver.m_isRemoteConnection st' = false /\
     PollingUdpReceiver.m_packetsReceived st' = 0 /\
     PollingUdpReceiver.m_bytesReceived st' = 0 /\
     (forall ypr,
        PollingUdpReceiver.GetRotation st' ypr = (false, ypr) /\
        PollingUdpReceiver.GetRawRotation st' ypr = (false, ypr)) /\
     (forall incoming now_us now_ms ypr,
        let polled := PollingUdpReceiver.Poll st' incoming now_us now_ms in
        fst (PollingUdpReceiver.GetRotation (snd (fst polled)) ypr) =
        fst (fst polled))).
Proof.
  split; [| split; [| split]].
  - intros st inflight Hreach. cbv zeta.
    assert (Hc : UdpReceiver.session_cleared (UdpReceiver.Stop st inflight) /\
                 UdpReceiver.m_running (UdpReceiver.Stop st inflight) = false).
    { destruct (UdpReceiver.m_running st) eqn:R.
      - destruct (Stop_running_cleared st inflight R) as (H1 & H2 & _). now split.
      - unfold UdpReceiver.Stop. rewrite R. cbn [negb].
        split; [| exact R]. apply reachable_stopped_is_cleared; assumption. }
    destruct Hc as [Hc Hr]. repeat split; try apply Hc; try exact Hr.
    + intros ypr. apply GetRotation_cleared, Hc.
    + intros nowUs. unfold UdpReceiver.IsReceiving.
      destruct Hc as (_ & _ & _ & _ & Hts & _). rewrite Hts. reflexivity.
  - intros st Hc. split; [apply Recenter_cleared, Hc |]. split; [| split].
    + intros inflight R. unfold UdpReceiver.Stop. rewrite R. reflexivity.
    + intros port os. unfold UdpReceiver.Start.
      destruct (UdpReceiver.m_running st); [exact Hc |].
      destruct (UdpSocket.Open _ _ _) as [[|] sock]; cbn [negb snd]; exact Hc.
    + intros ev now_us Hev. apply ReceiverThread_iteration_idle; assumption.
  - intros st. cbv zeta.
    split; [apply Shutdown_initialized |].
    split; [apply Shutdown_session |].
    intros ypr. pose proof (Shutdown_session st) as H.
    unfold PollingUdpReceiver.session in H.
    unfold PollingUdpReceiver.GetRotation, PollingUdpReceiver.GetRawRotation.
    injection H as -> -> -> -> -> -> -> -> _ _ _ _.
    split; reflexivity.
  - intros st port os Hi Hok. cbv zeta.
    destruct (Initialize_fresh st port os Hi Hok) as (Hi' & Hd & Ho & Ht & Hrm & Hp & Hb).
    pose proof (Initialize_open st port os Hi Hok) as Hopen.
    split; [exact Hd |]. split; [exact Ho |]. split; [exact Ht |].
    split; [exact Hrm |]. split; [exact Hp |]. split; [exact Hb |]. split.
    + intros ypr.
      unfold PollingUdpReceiver.GetRotation, PollingUdpReceiver.GetRawRotation.
      rewrite Hd. split; reflexivity.
    + intros incoming now_us now_ms ypr.
      cbv zeta.
      rewrite <- (Poll_has_data _ incoming now_us now_ms Hi' Hopen Hd).
      set (st2 := snd (fst (PollingUdpReceiver.Poll _ incoming now_us now_ms))).
      unfold PollingUdpReceiver.GetRotation.
      destruct (PollingUdpReceiver.m_hasData st2); [| reflexivity].
      destruct (PollingUdpReceiver.m_hasOffset st2); reflexivity.
Qed.

Lemma Stop_Shutdown_spec_witness :
  let st := UdpReceiver.example_threaded_receiver in
  let zero := S754_zero false in
  UdpReceiver.reachable st /\
  UdpReceiver.GetRotation st (zero, zero, zero) =
    (true, (float_of_Z 10, float_of_Z (-5), zero)) /\
  UdpReceiver.GetRotation (UdpReceiver.Stop st []) (zero, zero, zero) =
    (false, (zero, zero, zero)).
Proof.
  cbv zeta.
  assert (Hreach : UdpReceiver.reachable UdpReceiver.example_threaded_receiver).
  { unfold UdpReceiver.example_threaded_receiver.
    eapply UdpReceiver.reachable_step.
    - eapply UdpReceiver.reachable_step.
      + apply UdpReceiver.reachable_init.
      + apply UdpReceiver.step_Start.
    - apply UdpReceiver.step_thread. reflexivity. }
  split; [exact Hreach |]. split; [vm_compute; reflexivity |].
  apply (proj1 Stop_Shutdown_spec UdpReceiver.example_threaded_receiver [] Hreach).
Defined.

End SessionFacts.

(** ** The math utilities *)

Module MathFacts.
Import math.
Local Open Scope R_scope.

(** Case analysis on every comparison the utilities make, innermost
    first. *)
Ltac no_test a :=
  lazymatch a with
  | context [Rle_dec _ _] => fail
  | context [Rlt_dec _ _] => fail
  | context [Rge_dec _ _] => fail
  | context [Rcase_abs _] => fail
  | _ => idtac
  end.

Ltac split_cases :=
  repeat match goal with
    | |- context [Rle_dec ?a ?b] => no_test a; no_test b; destruct (Rle_dec a b)
    | |- context [Rlt_dec ?a ?b] => no_test a; no_test b; destruct (Rlt_dec a b)
    | |- context [Rge_dec ?a ?b] => no_test a; no_test b; destruct (Rge_dec a b)
    | |- context [Rcase_abs ?a] => no_test a; destruct (Rcase_abs a)
    end.

Ltac deadzone_cases :=
  unfold ApplyDeadzone, sign_of, Rabs; split_cases; try lra.

Lemma ApplyDeadzone_inside (v t : R) :
  0 < t -> Rabs v <= t -> ApplyDeadzone v t = 0.
Proof. intros Ht. deadzone_cases. Qed.

Lemma ApplyDeadzone_outside (v t : R) :
  0 < t -> t < Rabs v -> ApplyDeadzone v t = sign_of v * (Rabs v - t).
Proof. intros Ht. deadzone_cases. Qed.

Lemma ApplyDeadzone_disabled (v t : R) : t <= 0 -> ApplyDeadzone v t = v.
Proof. intros Ht. deadzone_cases. Qed.

(** The deadzone never stretches a distance. *)
Lemma ApplyDeadzone_lipschitz (t x y : R) :
  Rabs (ApplyDeadzone x t - ApplyDeadzone y t) <= Rabs (x - y).
Proof. deadzone_cases. Qed.

Lemma ApplyDeadzone_continuous (t : R) :
  continuity (fun v => ApplyDeadzone v t).
Proof.
  intros x eps Heps. exists eps. split; [exact Heps |].
  intros y [_ Hd]. cbn in *. unfold R_dist in *.
  eapply Rle_lt_trans; [apply ApplyDeadzone_lipschitz | exact Hd].
Qed.

(** C6.  For a threshold [t > 0], [ApplyDeadzone v t] is 0 when
    [|v| <= t] and [sign v * (|v| - t)] when [|v| > t], that is [v - t]
    above [t] and [v + t] below [-t]; with threshold 2 it maps 1 to 0, 3 to
    1 and -3 to -1; at [|v| = t] the value is 0, the values just above the
    threshold tend to 0, and the function is continuous everywhere. *)
Theorem ApplyDeadzone_spec :
  (forall v t, 0 < t -> Rabs v <= t -> ApplyDeadzone v t = 0) /\
  (forall v t, 0 < t -> t < Rabs v ->
     ApplyDeadzone v t = sign_of v * (Rabs v - t) /\
     (t < v -> ApplyDeadzone v t = v - t) /\
     (v < - t -> ApplyDeadzone v t = v + t)) /\
  (ApplyDeadzone 1.0 2.0 = 0 /\ ApplyDeadzone 3.0 2.0 = 1.0 /\
   ApplyDeadzone (-3.0) 2.0 = -1.0) /\
  (forall v t, 0 < t -> Rabs v = t -> ApplyDeadzone v t = 0) /\
  (forall t, 0 < t -> forall eps, 0 < eps ->
     exists delta, 0 < delta /\
       forall v, t < Rabs v < t + delta -> Rabs (ApplyDeadzone v t - 0) < eps) /\
  (forall t, 0 < t -> continuity (fun v => ApplyDeadzone v t)).
Proof.
  split; [exact ApplyDeadzone_inside |].
  split.
  { intros v t Ht Hv. split; [apply ApplyDeadzone_outside; assumption |].
    clear Hv. split; intros Hv; revert Hv; deadzone_cases. }
  split; [repeat split; deadzone_cases |].
  split; [intros v t Ht Hv; apply ApplyDeadzone_inside; lra |].
  split.
  - intros t Ht eps Heps. exists eps. split; [exact Heps |].
    intros v Hv. revert Hv. deadzone_cases.
  - intros t _. apply ApplyDeadzone_continuous.
Qed.

Lemma ApplyDeadzone_spec_witness :
  0 < 2 /\ Rabs 1 <= 2 /\ 2 < Rabs (-3) /\
  ApplyDeadzone 1 2 = 0 /\
  ApplyDeadzone (-3) 2 = sign_of (-3) * (Rabs (-3) - 2).
Proof.
  assert (H1 : Rabs 1 <= 2) by (unfold Rabs; destruct (Rcase_abs 1); lra).
  assert (H3 : 2 < Rabs (-3)) by (unfold Rabs; destruct (Rcase_abs (-3)); lra).
  split; [lra |]. split; [exact H1 |]. split; [exact H3 |]. split.
  - apply (proj1 ApplyDeadzone_spec); [lra | exact H1].
  - apply (proj1 (proj2 ApplyDeadzone_spec) (-3) 2); [lra | exact H3].
Defined.

(** *** The smoothing factor *)

(** The speed that [Lerp 50.0 0.1] assigns to a smoothing value below
    [50/49.9] is positive. *)
Lemma smoothing_speed_pos (s : R) : s < 1 -> 0 < Lerp 50.0 0.1 s.
Proof. intros Hs. unfold Lerp. lra. Qed.

Lemma CalculateSmoothingFactor_bypass (s dt : R) :
  s < 0.001 -> CalculateSmoothingFactor s dt = 1.
Proof.
  intros Hs. unfold CalculateSmoothingFactor.
  destruct (Rlt_dec s 0.001); [lra | contradiction].
Qed.

Lemma CalculateSmoothingFactor_exp (s dt : R) :
  0.001 <= s ->
  CalculateSmoothingFactor s dt = 1 - exp (- Lerp 50.0 0.1 s * dt).
Proof.
  intros Hs. unfold CalculateSmoothingFactor.
  destruct (Rlt_dec s 0.001); [lra |].
  f_equal. lra.
Qed.

Lemma exp_le_1 (x : R) : x <= 0 -> exp x <= 1.
Proof.
  intros [Hx | ->]; [| rewrite exp_0; lra].
  left. rewrite <- exp_0. apply exp_increasing, Hx.
Qed.

Lemma exp_monotone (x y : R) : x <= y -> exp x <= exp y.
Proof.
  intros [H | ->]; [left; apply exp_increasing, H | lra].
Qed.

Lemma CalculateSmoothingFactor_range (s dt : R) :
  s <= 1 -> 0 <= dt -> 0 <= CalculateSmoothingFactor s dt <= 1.
Proof.
  intros Hs Hdt. destruct (Rlt_dec s 0.001) as [Hlo | Hlo].
  - rewrite CalculateSmoothingFactor_bypass by assumption. lra.
  - rewrite CalculateSmoothingFactor_exp by lra.
    pose proof (exp_pos (- Lerp 50.0 0.1 s * dt)).
    assert (exp (- Lerp 50.0 0.1 s * dt) <= 1).
    { apply exp_le_1. unfold Lerp. nra. }
    lra.
Qed.

Lemma CalculateSmoothingFactor_monotone (s dt1 dt2 : R) :
  s < 1 -> dt1 <= dt2 ->
  CalculateSmoothingFactor s dt1 <= CalculateSmoothingFactor s dt2.
Proof.
  intros Hhi Hdt. destruct (Rlt_dec s 0.001) as [Hlo | Hlo].
  - rewrite !CalculateSmoothingFactor_bypass by assumption. lra.
  - rewrite !CalculateSmoothingFactor_exp by lra.
    pose proof (smoothing_speed_pos s Hhi) as Hk.
    assert (exp (- Lerp 50.0 0.1 s * dt2) <= exp (- Lerp 50.0 0.1 s * dt1)).
    { apply exp_monotone. nra. }
    lra.
Qed.

Lemma CalculateSmoothingFactor_limit (s : R) :
  s < 1 ->
  forall eps, 0 < eps ->
    exists M, forall dt, M < dt -> Rabs (CalculateSmoothingFactor s dt - 1) < eps.
Proof.
  intros Hhi eps Heps.
  destruct (Rlt_dec s 0.001) as [Hs | Hs].
  - exists 0. intros dt _. rewrite CalculateSmoothingFactor_bypass by assumption.
    replace (1 - 1) with 0 by lra. rewrite Rabs_R0. exact Heps.
  - pose proof (smoothing_speed_pos s Hhi) as Hk.
    exists (- ln eps / Lerp 50.0 0.1 s). intros dt Hdt.
    rewrite CalculateSmoothingFactor_exp by lra.
    replace (1 - exp (- Lerp 50.0 0.1 s * dt) - 1)
      with (- exp (- Lerp 50.0 0.1 s * dt)) by lra.
    rewrite Rabs_Ropp, Rabs_pos_eq by (left; apply exp_pos).
    assert (Hlt : - ln eps < Lerp 50.0 0.1 s * dt).
    { apply (Rmult_lt_compat_l (Lerp 50.0 0.1 s)) in Hdt; [| exact Hk].
      replace (Lerp 50.0 0.1 s * (- ln eps / Lerp 50.0 0.1 s))
        with (- ln eps) in Hdt by (field; lra).
      exact Hdt. }
    assert (Hexp : exp (- Lerp 50.0 0.1 s * dt) < exp (ln eps))
      by (apply exp_increasing; lra).
    rewrite exp_ln in Hexp by exact Heps. exact Hexp.
Qed.

(** Below the bypass threshold the factor is constant, hence not strictly
    increasing, although such a smoothing value lies in (0,1). *)
Lemma CalculateSmoothingFactor_not_strict :
  0 < 0.0005 < 1 /\ 1 < 2 /\
  ~ CalculateSmoothingFactor 0.0005 1 < CalculateSmoothingFactor 0.0005 2.
Proof.
  split; [lra |]. split; [lra |].
  rewrite !CalculateSmoothingFactor_bypass by lra. lra.
Qed.

(** C7, as the code has it.  [CalculateSmoothingFactor s dt] is 1 for
    every [dt] when [s < 0.001]; otherwise it is
    [1 - exp (- Lerp 50 0.1 s * dt)], which is 0 at [dt = 0]; for every
    fixed [s] in (0,1) it does not decrease when [dt] grows, it lies
    between 0 and 1 for [dt >= 0], and it tends to 1 as [dt] grows without
    bound. *)
Theorem CalculateSmoothingFactor_spec :
  (forall s dt, s < 0.001 -> CalculateSmoothingFactor s dt = 1) /\
  (forall s dt, 0.001 <= s ->
     CalculateSmoothingFactor s dt = 1 - exp (- Lerp 50 0.1 s * dt)) /\
  (forall s, 0.001 <= s -> CalculateSmoothingFactor s 0 = 0) /\
  (forall s, 0 < s < 1 ->
     forall dt1 dt2, dt1 <= dt2 ->
       CalculateSmoothingFactor s dt1 <= CalculateSmoothingFactor s dt2) /\
  (forall s dt, 0 < s < 1 -> 0 <= dt ->
     0 <= CalculateSmoothingFactor s dt <= 1) /\
  (forall s, 0 < s < 1 ->
     forall eps, 0 < eps ->
       exists M, forall dt, M < dt ->
         Rabs (CalculateSmoothingFactor s dt - 1) < eps).
Proof.
  split; [exact CalculateSmoothingFactor_bypass |].
  split.
  { intros s dt Hs. rewrite CalculateSmoothingFactor_exp by assumption.
    f_equal. f_equal. unfold Lerp. lra. }
  split.
  { intros s Hs. rewrite CalculateSmoothingFactor_exp by assumption.
    rewrite Rmult_0_r, exp_0. lra. }
  split.
  { intros s [_ Hs] dt1 dt2. apply CalculateSmoothingFactor_monotone, Hs. }
  split.
  - intros s dt [_ Hs] Hdt. apply CalculateSmoothingFactor_range; lra.
  - intros s [_ Hs]. apply CalculateSmoothingFactor_limit, Hs.
Qed.

Lemma CalculateSmoothingFactor_spec_witness :
  0 < 0.5 < 1 /\ 0 <= 1 /\
  CalculateSmoothingFactor 0.5 0 <= CalculateSmoothingFactor 0.5 1.
Proof.
  split; [lra |]. split; [lra |].
  apply (proj1 (proj2 (proj2 (proj2 CalculateSmoothingFactor_spec)))); lra.
Defined.

(** *** The remote baseline *)

Lemma GetEffectiveSmoothing_cases (s : R) (remote : bool) :
  GetEffectiveSmoothing s remote =
  if remote then Rmax s 0.15 else s.
Proof.
  unfold GetEffectiveSmoothing, kRemoteConnectionBaseline, Rmax.
  destruct remote; [| reflexivity].
  destruct (Rlt_dec s 0.15), (Rle_dec s 0.15); lra.
Qed.

End MathFacts.


(** ** The tracking processor *)

Module TrackingProcessorFacts.
Import math MathFacts TrackingProcessor.
Local Open Scope R_scope.

(** The processor after [Process]: the accumulator moves, the flag is
    set, the centre and the configuration stay. *)
Lemma Process_state (st : t) (y p r : R) (remote : bool) (dt : R) (now : Z) :
  snd (Process st y p r remote dt now) =
  let '(ty, tp, tr) := target st y p r in
  let k :=
    CalculateSmoothingFactor
      (GetEffectiveSmoothing (m_smoothingFactor st) remote) dt in
  if m_hasSmoothedValue st then
    mk (m_centerManager st)
       (m_smoothedYaw st + (ty - m_smoothedYaw st) * k)
       (m_smoothedPitch st + (tp - m_smoothedPitch st) * k)
       (m_smoothedRoll st + (tr - m_smoothedRoll st) * k)
       true (m_sensitivity st) (m_deadzone st) (m_smoothingFactor st)
  else
    mk (m_centerManager st) ty tp tr
       true (m_sensitivity st) (m_deadzone st) (m_smoothingFactor st).
Proof.
  unfold Process. destruct (target st y p r) as [[ty tp] tr].
  destruct (m_hasSmoothedValue st); reflexivity.
Qed.

(** With multipliers 1 and no inversion the returned angles are the
    accumulator. *)
Lemma Process_angles_unit (st : t) (y p r : R) (remote : bool) (dt : R) (now : Z) :
  unit_sensitivity st ->
  angles (fst (Process st y p r remote dt now)) =
  smoothed (snd (Process st y p r remote dt now)).
Proof.
  unfold unit_sensitivity, Process. intros ->.
  destruct (target st y p r) as [[ty tp] tr].
  destruct (m_hasSmoothedValue st); unfold angles, smoothed;
    cbn [negb fst snd TrackingPose.yaw TrackingPose.pitch TrackingPose.roll
         m_smoothedYaw m_smoothedPitch m_smoothedRoll
         SensitivitySettings.yaw SensitivitySettings.pitch
         SensitivitySettings.roll SensitivitySettings.invert_yaw
         SensitivitySettings.invert_pitch SensitivitySettings.invert_roll];
    (f_equal; [f_equal |]; lra).
Qed.

Lemma Process_frame (st : t) (y p r : R) (remote : bool) (dt : R) (now : Z) :
  let st' := snd (Process st y p r remote dt now) in
  m_smoothingFactor st' = m_smoothingFactor st /\
  m_sensitivity st' = m_sensitivity st /\
  m_deadzone st' = m_deadzone st /\
  m_centerManager st' = m_centerManager st /\
  m_hasSmoothedValue st' = true.
Proof.
  cbv zeta. rewrite Process_state.
  destruct (target st y p r) as [[ty tp] tr].
  destruct (m_hasSmoothedValue st); repeat split.
Qed.

(** C8.  With the remote flag set, [GetEffectiveSmoothing s] is 0.15 when
    [s < 0.15] and [s] otherwise; without it, it is [s]; so 0.05 remote
    gives 0.15, 0.2 remote gives 0.2 and 0.05 local gives 0.05.  The floor
    is a value computed per call: [Process] leaves the stored smoothing
    configuration as it was. *)
Theorem GetEffectiveSmoothing_spec :
  (forall s, s < 0.15 -> GetEffectiveSmoothing s true = 0.15) /\
  (forall s, 0.15 <= s -> GetEffectiveSmoothing s true = s) /\
  (forall s, GetEffectiveSmoothing s false = s) /\
  (GetEffectiveSmoothing 0.05 true = 0.15 /\
   GetEffectiveSmoothing 0.2 true = 0.2 /\
   GetEffectiveSmoothing 0.05 false = 0.05) /\
  (forall st y p r remote dt now,
     m_smoothingFactor (snd (Process st y p r remote dt now)) =
     m_smoothingFactor st).
Proof.
  assert (lo : forall s, s < 0.15 -> GetEffectiveSmoothing s true = 0.15).
  { intros s Hs. unfold GetEffectiveSmoothing, kRemoteConnectionBaseline.
    destruct (Rlt_dec s 0.15); [reflexivity | contradiction]. }
  assert (hi : forall s, 0.15 <= s -> GetEffectiveSmoothing s true = s).
  { intros s Hs. unfold GetEffectiveSmoothing, kRemoteConnectionBaseline.
    destruct (Rlt_dec s 0.15); [lra | reflexivity]. }
  split; [exact lo |]. split; [exact hi |]. split; [reflexivity |].
  split.
  - split; [apply lo; lra |]. split; [apply hi; lra | reflexivity].
  - intros. apply Process_frame.
Qed.

Lemma GetEffectiveSmoothing_spec_witness :
  0.05 < 0.15 /\ 0.15 <= 0.2 /\
  GetEffectiveSmoothing 0.05 true = 0.15 /\
  GetEffectiveSmoothing 0.2 true = 0.2.
Proof.
  split; [lra |]. split; [lra |]. split.
  - apply (proj1 GetEffectiveSmoothing_spec). lra.
  - apply (proj1 (proj2 GetEffectiveSmoothing_spec)). lra.
Defined.

(** C9.  [Recenter] sets the centre to the smoothed values and changes
    nothing else; [RecenterTo] sets the given centre and zeroes the three
    accumulator components; [Reset] clears the centre, zeroes the
    accumulator and clears the flag, so that the next [Process] snaps to
    its deadzoned sample. *)
Theorem Recenter_RecenterTo_Reset_spec (st : t) :
  (let st' := Recenter st in
   m_centerManager st' =
     CenterOffsetManager.mk
       (TrackingPose.mk (m_smoothedYaw st) (m_smoothedPitch st)
          (m_smoothedRoll st) 0%Z) true /\
   smoothed st' = smoothed st /\
   m_hasSmoothedValue st' = m_hasSmoothedValue st /\
   (m_sensitivity st', m_deadzone st', m_smoothingFactor st') =
     (m_sensitivity st, m_deadzone st, m_smoothingFactor st)) /\
  (forall y p r,
     let st' := RecenterTo st y p r in
     m_centerManager st' =
       CenterOffsetManager.mk (TrackingPose.mk y p r 0%Z) true /\
     smoothed st' = (0, 0, 0) /\
     m_hasSmoothedValue st' = m_hasSmoothedValue st /\
     (m_sensitivity st', m_deadzone st', m_smoothingFactor st') =
       (m_sensitivity st, m_deadzone st, m_smoothingFactor st)) /\
  (let st' := Reset st in
   m_centerManager st' = CenterOffsetManager.init /\
   CenterOffsetManager.m_hasValidCenter (m_centerManager st') = false /\
   smoothed st' = (0, 0, 0) /\
   m_hasSmoothedValue st' = false /\
   (m_sensitivity st', m_deadzone st', m_smoothingFactor st') =
     (m_sensitivity st, m_deadzone st, m_smoothingFactor st) /\
   forall y p r remote dt now,
     smoothed (snd (Process st' y p r remote dt now)) =
       (ApplyDeadzone y (DeadzoneSettings.yaw (m_deadzone st)),
        ApplyDeadzone p (DeadzoneSettings.pitch (m_deadzone st)),
        ApplyDeadzone r (DeadzoneSettings.roll (m_deadzone st)))).
Proof.
  split; [| split].
  - cbv zeta. unfold Recenter, smoothed. cbn. repeat split.
  - intros y p r. cbv zeta. unfold RecenterTo, smoothed. cbn.
    repeat split; repeat f_equal; lra.
  - cbv zeta. unfold Reset, smoothed. cbn.
    repeat split; try (repeat f_equal; lra).
Qed.

(** *** Snapping *)

Lemma Process_first_call_snaps (st : t) (y p r : R) (remote : bool) (dt : R)
    (now : Z) :
  m_hasSmoothedValue st = false ->
  smoothed (snd (Process st y p r remote dt now)) = target st y p r.
Proof.
  intros H. rewrite Process_state, H.
  destruct (target st y p r) as [[ty tp] tr]. reflexivity.
Qed.

Lemma Process_later_call (st : t) (y p r : R) (remote : bool) (dt : R) (now : Z) :
  m_hasSmoothedValue st = true ->
  let k :=
    CalculateSmoothingFactor
      (GetEffectiveSmoothing (m_smoothingFactor st) remote) dt in
  let '(ty, tp, tr) := target st y p r in
  smoothed (snd (Process st y p r remote dt now)) =
    (m_smoothedYaw st + (ty - m_smoothedYaw st) * k,
     m_smoothedPitch st + (tp - m_smoothedPitch st) * k,
     m_smoothedRoll st + (tr - m_smoothedRoll st) * k).
Proof.
  intros H. cbv zeta. rewrite Process_state, H.
  destruct (target st y p r) as [[ty tp] tr]. reflexivity.
Qed.

Lemma CalculateSmoothingFactor_zero_delta (s : R) :
  0.001 <= s -> CalculateSmoothingFactor s 0 = 0.
Proof.
  intros Hs. rewrite CalculateSmoothingFactor_exp by assumption.
  rewrite Rmult_0_r, exp_0. lra.
Qed.

Lemma example_processor_state :
  example_processor =
  mk CenterOffsetManager.init 10 0 0 true SensitivitySettings.Default
     DeadzoneSettings.None_ 0.5.
Proof.
  unfold example_processor. rewrite Process_state.
  unfold target, SetSmoothing, init, CenterOffsetManager.ApplyOffset,
    CenterOffsetManager.init, DeadzoneSettings.None_.
  cbn [m_centerManager m_deadzone m_hasSmoothedValue m_sensitivity
       m_smoothingFactor CenterOffsetManager.m_hasValidCenter negb
       DeadzoneSettings.yaw DeadzoneSettings.pitch DeadzoneSettings.roll].
  rewrite !ApplyDeadzone_disabled by lra. reflexivity.
Qed.

(** A later frame with [delta_time = 0] and smoothing 0.5 does not snap:
    the accumulator stays at (10, 0, 0) although the sample is
    (20, 0, 0). *)
Lemma Process_zero_delta_no_snap :
  m_hasSmoothedValue example_processor = true /\
  target example_processor 20 0 0 = (20, 0, 0) /\
  smoothed (snd (Process example_processor 20 0 0 false 0 1%Z)) = (10, 0, 0) /\
  smoothed (snd (Process example_processor 20 0 0 false 0 1%Z)) <>
    target example_processor 20 0 0.
Proof.
  assert (Ht : target example_processor 20 0 0 = (20, 0, 0)).
  { rewrite example_processor_state.
    unfold target, CenterOffsetManager.ApplyOffset, CenterOffsetManager.init,
      DeadzoneSettings.None_.
    cbn [m_centerManager m_deadzone CenterOffsetManager.m_hasValidCenter negb
         DeadzoneSettings.yaw DeadzoneSettings.pitch DeadzoneSettings.roll].
    rewrite !ApplyDeadzone_disabled by lra. reflexivity. }
  assert (Hs : smoothed (snd (Process example_processor 20 0 0 false 0 1%Z)) =
               (10, 0, 0)).
  { pose proof (Process_later_call example_processor 20 0 0 false 0 1%Z) as H.
    cbv zeta in H. rewrite Ht in H. rewrite H.
    - rewrite example_processor_state.
      cbn [m_smoothedYaw m_smoothedPitch m_smoothedRoll m_smoothingFactor].
      unfold GetEffectiveSmoothing.
      rewrite CalculateSmoothingFactor_zero_delta by lra.
      f_equal; [f_equal |]; lra.
    - rewrite example_processor_state. reflexivity. }
  split; [rewrite example_processor_state; reflexivity |].
  split; [exact Ht |]. split; [exact Hs |].
  rewrite Hs, Ht. intros H. injection H as H. lra.
Qed.

(** C2, as the code has it.  Whatever the configured smoothing, [Process]
    sets the accumulator to the deadzoned sample on the first call after
    construction or [Reset].  On a later call whose [delta_time] is zero it
    does so only when the effective smoothing is below 0.001; from 0.001
    upwards the factor is [1 - exp 0 = 0] and the accumulator keeps its
    value. *)
Theorem Process_snap_spec :
  m_hasSmoothedValue init = false /\
  (forall st, m_hasSmoothedValue (Reset st) = false) /\
  (forall st y p r remote dt now,
     m_hasSmoothedValue st = false ->
     smoothed (snd (Process st y p r remote dt now)) = target st y p r) /\
  (forall st y p r remote now,
     m_hasSmoothedValue st = true ->
     GetEffectiveSmoothing (m_smoothingFactor st) remote < 0.001 ->
     smoothed (snd (Process st y p r remote 0 now)) = target st y p r) /\
  (forall st y p r remote now,
     m_hasSmoothedValue st = true ->
     0.001 <= GetEffectiveSmoothing (m_smoothingFactor st) remote ->
     smoothed (snd (Process st y p r remote 0 now)) = smoothed st).
Proof.
  split; [reflexivity |]. split; [reflexivity |].
  split; [exact Process_first_call_snaps |]. split.
  - intros st y p r remote now Hf Hs.
    pose proof (Process_later_call st y p r remote 0 now Hf) as H.
    cbv zeta in H. destruct (target st y p r) as [[ty tp] tr].
    rewrite H, CalculateSmoothingFactor_bypass by assumption.
    f_equal; [f_equal |]; lra.
  - intros st y p r remote now Hf Hs.
    pose proof (Process_later_call st y p r remote 0 now Hf) as H.
    cbv zeta in H. destruct (target st y p r) as [[ty tp] tr].
    rewrite H, CalculateSmoothingFactor_zero_delta by assumption.
    unfold smoothed. f_equal; [f_equal |]; lra.
Qed.

Lemma Process_snap_spec_witness :
  m_hasSmoothedValue (SetSmoothing init 0.5) = false /\
  smoothed (snd (Process (SetSmoothing init 0.5) 10 0 0 false (1 / 60) 0%Z)) =
    target (SetSmoothing init 0.5) 10 0 0 /\
  m_hasSmoothedValue example_processor = true /\
  0.001 <= GetEffectiveSmoothing (m_smoothingFactor example_processor) false /\
  smoothed (snd (Process example_processor 20 0 0 false 0 1%Z)) =
    smoothed example_processor.
Proof.
  assert (Hf : m_hasSmoothedValue example_processor = true)
    by (rewrite example_processor_state; reflexivity).
  assert (Hs : 0.001 <= GetEffectiveSmoothing (m_smoothingFactor example_processor) false).
  { rewrite example_processor_state. unfold GetEffectiveSmoothing.
    cbn [m_smoothingFactor]. lra. }
  split; [reflexivity |]. split.
  - apply (proj1 (proj2 (proj2 Process_snap_spec))). reflexivity.
  - split; [exact Hf |]. split; [exact Hs |].
    apply (proj2 (proj2 (proj2 (proj2 Process_snap_spec)))); assumption.
Defined.

(** *** Recentering *)

Lemma smoothed_inv (st : t) (a b c : R) :
  smoothed st = (a, b, c) ->
  m_smoothedYaw st = a /\ m_smoothedPitch st = b /\ m_smoothedRoll st = c.
Proof. unfold smoothed. intros H. injection H as -> -> ->. repeat split. Qed.

Lemma target_no_center (st : t) (y p r : R) :
  CenterOffsetManager.m_hasValidCenter (m_centerManager st) = false ->
  target st y p r =
    (ApplyDeadzone y (DeadzoneSettings.yaw (m_deadzone st)),
     ApplyDeadzone p (DeadzoneSettings.pitch (m_deadzone st)),
     ApplyDeadzone r (DeadzoneSettings.roll (m_deadzone st))).
Proof.
  intros H. unfold target, CenterOffsetManager.ApplyOffset. rewrite H.
  reflexivity.
Qed.

Lemma target_Recenter (st : t) (y p r : R) :
  target (Recenter st) y p r =
    (ApplyDeadzone (y - m_smoothedYaw st) (DeadzoneSettings.yaw (m_deadzone st)),
     ApplyDeadzone (p - m_smoothedPitch st) (DeadzoneSettings.pitch (m_deadzone st)),
     ApplyDeadzone (r - m_smoothedRoll st) (DeadzoneSettings.roll (m_deadzone st))).
Proof. reflexivity. Qed.

(** With factor 1 a frame moves the accumulator onto the deadzoned
    sample, first frame or not. *)
Lemma Process_factor_one (st : t) (y p r : R) (remote : bool) (dt : R) (now : Z) :
  GetEffectiveSmoothing (m_smoothingFactor st) remote < 0.001 ->
  smoothed (snd (Process st y p r remote dt now)) = target st y p r.
Proof.
  intros Hs. destruct (m_hasSmoothedValue st) eqn:Hf.
  - pose proof (Process_later_call st y p r remote dt now Hf) as H.
    cbv zeta in H. destruct (target st y p r) as [[ty tp] tr].
    rewrite H, CalculateSmoothingFactor_bypass by assumption.
    f_equal; [f_equal |]; lra.
  - apply Process_first_call_snaps, Hf.
Qed.

(** With smoothing 0.5, re-processing the sample after [Recenter] returns
    the old accumulator decayed by one frame, not zero. *)
Lemma Recenter_then_Process_decays :
  unit_sensitivity (SetSmoothing init 0.5) /\
  angles (fst (Process (Recenter example_processor) 10 0 0 false (1 / 60) 1%Z)) =
    (10 * exp (- (25.05 / 60)), 0, 0) /\
  angles (fst (Process (Recenter example_processor) 10 0 0 false (1 / 60) 1%Z)) <>
    (0, 0, 0).
Proof.
  assert (Ha : angles (fst (Process (Recenter example_processor) 10 0 0 false
                                    (1 / 60) 1%Z)) =
               (10 * exp (- (25.05 / 60)), 0, 0)).
  { rewrite Process_angles_unit
      by (rewrite example_processor_state; unfold unit_sensitivity, Recenter;
          cbn [m_sensitivity]; unfold SensitivitySettings.Default;
          f_equal; lra).
    pose proof (Process_later_call (Recenter example_processor) 10 0 0 false
                  (1 / 60) 1%Z) as H.
    cbv zeta in H. rewrite target_Recenter in H. rewrite H.
    - rewrite example_processor_state.
      unfold Recenter, DeadzoneSettings.None_, GetEffectiveSmoothing.
      cbn [m_smoothedYaw m_smoothedPitch m_smoothedRoll m_smoothingFactor
           m_deadzone DeadzoneSettings.yaw DeadzoneSettings.pitch
           DeadzoneSettings.roll].
      rewrite !ApplyDeadzone_disabled by lra.
      rewrite CalculateSmoothingFactor_exp by lra.
      replace (- Lerp 50.0 0.1 0.5 * (1 / 60)) with (- (25.05 / 60))
        by (unfold Lerp; lra).
      f_equal; [f_equal |]; lra.
    - rewrite example_processor_state. reflexivity. }
  split.
  { unfold unit_sensitivity, SetSmoothing, init, SensitivitySettings.Default.
    cbn [m_sensitivity]. f_equal; lra. }
  split; [exact Ha |].
  rewrite Ha. intros H. injection H as H.
  pose proof (exp_pos (- (25.05 / 60))). lra.
Qed.

(** With a centre already set, [Recenter] replaces it by the accumulator,
    which is relative to the old centre: recentring on (10, 0, 0) and then
    again while looking at (20, 0, 0) leaves the view at (10, 0, 0). *)
Lemma Recenter_twice_keeps_offset :
  let st1 := Recenter (snd (Process init 10 0 0 false (1 / 60) 0%Z)) in
  let st2 := Recenter (snd (Process st1 20 0 0 false (1 / 60) 1%Z)) in
  angles (fst (Process st2 20 0 0 false (1 / 60) 2%Z)) = (10, 0, 0).
Proof.
  cbv zeta.
  assert (Hz : forall st, m_smoothingFactor st = 0.0 ->
                 GetEffectiveSmoothing (m_smoothingFactor st) false < 0.001).
  { intros st ->. unfold GetEffectiveSmoothing. lra. }
  assert (Hd : forall v, ApplyDeadzone v 0.0 = v)
    by (intros v; apply ApplyDeadzone_disabled; lra).
  assert (H1 : snd (Process init 10 0 0 false (1 / 60) 0%Z) =
               mk CenterOffsetManager.init 10 0 0 true SensitivitySettings.Default
                  DeadzoneSettings.None_ 0.0).
  { rewrite Process_state. unfold target, init, CenterOffsetManager.ApplyOffset,
      CenterOffsetManager.init, DeadzoneSettings.None_.
    cbn [m_centerManager m_deadzone m_hasSmoothedValue m_sensitivity
         m_smoothingFactor CenterOffsetManager.m_hasValidCenter negb
         DeadzoneSettings.yaw DeadzoneSettings.pitch DeadzoneSettings.roll].
    rewrite !Hd. reflexivity. }
  rewrite H1.
  set (st1 := Recenter (mk CenterOffsetManager.init 10 0 0 true
                          SensitivitySettings.Default DeadzoneSettings.None_ 0.0)).
  assert (H2 : smoothed (snd (Process st1 20 0 0 false (1 / 60) 1%Z)) = (10, 0, 0)).
  { rewrite Process_factor_one by (apply Hz; reflexivity).
    unfold st1. rewrite target_Recenter.
    cbn [m_smoothedYaw m_smoothedPitch m_smoothedRoll m_deadzone
         DeadzoneSettings.None_ DeadzoneSettings.yaw DeadzoneSettings.pitch
         DeadzoneSettings.roll].
    rewrite !Hd. f_equal; [f_equal |]; lra. }
  destruct (Process_frame st1 20 0 0 false (1 / 60) 1%Z) as (Fs & Fn & Fd & _).
  cbv zeta in Fs, Fn, Fd.
  set (st1' := snd (Process st1 20 0 0 false (1 / 60) 1%Z)) in *.
  rewrite Process_angles_unit
    by (unfold unit_sensitivity, Recenter; cbn [m_sensitivity]; rewrite Fn;
        unfold st1, Recenter, SensitivitySettings.Default; cbn [m_sensitivity];
        f_equal; lra).
  rewrite Process_factor_one
    by (apply Hz; unfold Recenter; cbn [m_smoothingFactor]; rewrite Fs;
        reflexivity).
  rewrite target_Recenter. rewrite Fd.
  destruct (smoothed_inv _ _ _ _ H2) as (-> & -> & ->).
  unfold st1, Recenter, DeadzoneSettings.None_.
  cbn [m_deadzone DeadzoneSettings.yaw DeadzoneSettings.pitch
       DeadzoneSettings.roll].
  rewrite !Hd. f_equal; [f_equal |]; lra.
Qed.

(** C3, as the code has it.  For a processor with multipliers 1, no axis
    inverted, no centre set, the deadzone disabled and an effective
    smoothing below 0.001 (so that the factor is 1): after the first
    [Process y p r remote dt] that follows construction or [Reset],
    calling [Recenter] and processing the same sample again returns
    (0, 0, 0). *)
Theorem Recenter_then_Process_zero (st : t) (y p r : R) (remote : bool)
    (dt dt' : R) (now now' : Z) :
  unit_sensitivity st ->
  CenterOffsetManager.m_hasValidCenter (m_centerManager st) = false ->
  m_hasSmoothedValue st = false ->
  DeadzoneSettings.yaw (m_deadzone st) <= 0 ->
  DeadzoneSettings.pitch (m_deadzone st) <= 0 ->
  DeadzoneSettings.roll (m_deadzone st) <= 0 ->
  GetEffectiveSmoothing (m_smoothingFactor st) remote < 0.001 ->
  angles (fst (Process (Recenter (snd (Process st y p r remote dt now)))
                 y p r remote dt' now')) = (0, 0, 0).
Proof.
  intros Hu Hc Hf Hdy Hdp Hdr Hs.
  pose proof (Process_first_call_snaps st y p r remote dt now Hf) as H1.
  rewrite (target_no_center st y p r Hc) in H1.
  rewrite !ApplyDeadzone_disabled in H1 by assumption.
  destruct (Process_frame st y p r remote dt now) as (Fs & Fn & Fd & _).
  cbv zeta in Fs, Fn, Fd.
  set (st1 := snd (Process st y p r remote dt now)) in *.
  rewrite Process_angles_unit
    by (unfold unit_sensitivity, Recenter; cbn [m_sensitivity]; rewrite Fn;
        exact Hu).
  rewrite Process_factor_one
    by (unfold Recenter; cbn [m_smoothingFactor]; rewrite Fs; exact Hs).
  rewrite target_Recenter, Fd.
  destruct (smoothed_inv _ _ _ _ H1) as (-> & -> & ->).
  rewrite !ApplyDeadzone_disabled by assumption.
  f_equal; [f_equal |]; lra.
Qed.

Lemma Recenter_then_Process_zero_witness :
  unit_sensitivity init /\
  CenterOffsetManager.m_hasValidCenter (m_centerManager init) = false /\
  m_hasSmoothedValue init = false /\
  DeadzoneSettings.yaw (m_deadzone init) <= 0 /\
  GetEffectiveSmoothing (m_smoothingFactor init) false < 0.001 /\
  angles (fst (Process (Recenter (snd (Process init 10 (-5) 0 false (1 / 60) 0%Z)))
                 10 (-5) 0 false (1 / 60) 1%Z)) = (0, 0, 0).
Proof.
  assert (Hu : unit_sensitivity init).
  { unfold unit_sensitivity, init, SensitivitySettings.Default.
    cbn [m_sensitivity]. f_equal; lra. }
  assert (Hs : GetEffectiveSmoothing (m_smoothingFactor init) false < 0.001).
  { unfold GetEffectiveSmoothing, init. cbn [m_smoothingFactor]. lra. }
  assert (Hd : DeadzoneSettings.yaw (m_deadzone init) <= 0 /\
               DeadzoneSettings.pitch (m_deadzone init) <= 0 /\
               DeadzoneSettings.roll (m_deadzone init) <= 0).
  { unfold init, DeadzoneSettings.None_.
    cbn [m_deadzone DeadzoneSettings.yaw DeadzoneSettings.pitch
         DeadzoneSettings.roll]. lra. }
  destruct Hd as (Hdy & Hdp & Hdr).
  split; [exact Hu |]. split; [reflexivity |]. split; [reflexivity |].
  split; [exact Hdy |]. split; [exact Hs |].
  exact (Recenter_then_Process_zero init 10 (-5) 0 false (1 / 60) (1 / 60)
           0%Z 1%Z Hu eq_refl eq_refl Hdy Hdp Hdr Hs).
Defined.

End TrackingProcessorFacts.

(** * Further properties of the code *)

(** ** Smoothing and deadzone *)

Module SmoothingFacts.
Import math MathFacts.
Local Open Scope R_scope.

(** From smoothing 0.001 upwards the distance to the target is multiplied by
    [exp (- speed * dt)]. *)
Lemma Smooth_error (c t s dt : R) :
  0.001 <= s ->
  Smooth c t s dt - t = (c - t) * exp (- Lerp 50.0 0.1 s * dt).
Proof.
  intros Hs. unfold Smooth. rewrite CalculateSmoothingFactor_exp by assumption.
  lra.
Qed.

(** X1.  With a smoothing value of at most 1 and a time step that is not
    negative, the factor lies in [0, 1], and [Smooth] leaves the value at
    most as far from the target as it was. *)
Theorem Smooth_no_overshoot (c t s dt : R) :
  s <= 1 -> 0 <= dt ->
  0 <= CalculateSmoothingFactor s dt <= 1 /\
  Rabs (Smooth c t s dt - t) <= Rabs (c - t).
Proof.
  intros Hs Hdt.
  pose proof (CalculateSmoothingFactor_range s dt Hs Hdt) as Hk.
  split; [exact Hk |].
  unfold Smooth. set (k := CalculateSmoothingFactor s dt) in *.
  unfold Rabs. repeat destruct (Rcase_abs _); nra.
Qed.

Lemma Smooth_no_overshoot_witness :
  0.5 <= 1 /\ 0 <= 1 / 60 /\
  Rabs (Smooth 10 0 0.5 (1 / 60) - 0) <= Rabs (10 - 0).
Proof.
  split; [lra |]. split; [lra |].
  apply (Smooth_no_overshoot 10 0 0.5 (1 / 60)); lra.
Defined.

(** X2.  The smoothing value is not clamped: above [50 / 49.9] the speed
    [Lerp 50 0.1 s] is negative, the factor of a positive time step is
    negative, and [Smooth] moves away from the target. *)
Theorem Smooth_diverges_above_range (c t s dt : R) :
  50 / 49.9 < s -> 0 < dt ->
  Lerp 50.0 0.1 s < 0 /\
  CalculateSmoothingFactor s dt < 0 /\
  (c <> t -> Rabs (c - t) < Rabs (Smooth c t s dt - t)).
Proof.
  intros Hs Hdt.
  assert (Hk : Lerp 50.0 0.1 s < 0) by (unfold Lerp; lra).
  assert (He : 1 < exp (- Lerp 50.0 0.1 s * dt)).
  { rewrite <- exp_0. apply exp_increasing. nra. }
  split; [exact Hk |]. split.
  - rewrite CalculateSmoothingFactor_exp by lra. lra.
  - intros Hne. rewrite Smooth_error by lra.
    rewrite Rabs_mult, (Rabs_pos_eq (exp _)) by lra.
    assert (0 < Rabs (c - t)) by (apply Rabs_pos_lt; lra).
    nra.
Qed.

Lemma Smooth_diverges_above_range_witness :
  50 / 49.9 < 2 /\ 0 < 1 /\ CalculateSmoothingFactor 2 1 < 0.
Proof.
  split; [lra |]. split; [lra |].
  apply (Smooth_diverges_above_range 0 1 2 1); lra.
Defined.

(** X3.  For every threshold, [ApplyDeadzone] is odd, monotone and never
    enlarges its input; for a threshold that is not negative it removes
    exactly the part of the input that [Clamp] keeps within the
    threshold. *)
Theorem ApplyDeadzone_shape (t v w : R) :
  ApplyDeadzone (- v) t = - ApplyDeadzone v t /\
  (v <= w -> ApplyDeadzone v t <= ApplyDeadzone w t) /\
  Rabs (ApplyDeadzone v t) <= Rabs v /\
  (0 <= t -> ApplyDeadzone v t = v - angle.Clamp v (- t) t).
Proof.
  split; [| split; [| split]].
  - deadzone_cases.
  - intros Hvw. deadzone_cases.
  - deadzone_cases.
  - intros Ht. unfold angle.Clamp.
    destruct (Rlt_dec v (- t)); [| destruct (Rgt_dec v t)]; deadzone_cases.
Qed.

Lemma ApplyDeadzone_shape_witness :
  1 <= 3 /\ 0 <= 2 /\
  ApplyDeadzone 1 2 <= ApplyDeadzone 3 2 /\
  ApplyDeadzone 3 2 = 3 - angle.Clamp 3 (- 2) 2.
Proof.
  split; [lra |]. split; [lra |]. split.
  - apply (proj1 (proj2 (ApplyDeadzone_shape 2 1 3))). lra.
  - apply (proj2 (proj2 (proj2 (ApplyDeadzone_shape 2 3 0)))). lra.
Defined.

End SmoothingFacts.

(** ** The processing pipeline *)

Module ProcessorFacts.
Import math MathFacts TrackingProcessor TrackingProcessorFacts SmoothingFacts ProcessorView.
Local Open Scope R_scope.

(** The returned angles are step 4 applied to the accumulator that
    [Process] leaves. *)
Lemma Process_output (st : t) (y p r : R) (remote : bool) (dt : R) (now : Z) :
  angles (fst (Process st y p r remote dt now)) =
  apply_sensitivity (m_sensitivity st)
    (smoothed (snd (Process st y p r remote dt now))).
Proof.
  unfold Process. destruct (target st y p r) as [[ty tp] tr].
  destruct (m_hasSmoothedValue st); reflexivity.
Qed.

(** The accumulator after [Process], axis by axis, as one [Smooth] step
    from the old accumulator, or the target itself on the first frame. *)
Lemma Process_smoothed (st : t) (y p r : R) (remote : bool) (dt : R) (now : Z) :
  smoothed (snd (Process st y p r remote dt now)) =
  let '(ty, tp, tr) := target st y p r in
  let s := GetEffectiveSmoothing (m_smoothingFactor st) remote in
  if m_hasSmoothedValue st then
    (Smooth (m_smoothedYaw st) ty s dt,
     Smooth (m_smoothedPitch st) tp s dt,
     Smooth (m_smoothedRoll st) tr s dt)
  else (ty, tp, tr).
Proof.
  rewrite Process_state. destruct (target st y p r) as [[ty tp] tr].
  destruct (m_hasSmoothedValue st); reflexivity.
Qed.

Lemma GetEffectiveSmoothing_le_1 (s : R) (remote : bool) :
  s <= 1 -> GetEffectiveSmoothing s remote <= 1.
Proof.
  intros Hs. unfold GetEffectiveSmoothing, kRemoteConnectionBaseline.
  destruct remote; [| exact Hs].
  destruct (Rlt_dec s 0.15); lra.
Qed.

Lemma Smooth_contracts (c t s dt : R) :
  s <= 1 -> 0 <= dt -> Rabs (Smooth c t s dt - t) <= Rabs (c - t).
Proof.
  intros Hs Hdt.
  pose proof (CalculateSmoothingFactor_range s dt Hs Hdt) as Hk.
  unfold Smooth. set (k := CalculateSmoothingFactor s dt) in *.
  unfold Rabs. repeat destruct (Rcase_abs _); nra.
Qed.

(** X5.  With a configured smoothing of at most 1 and a time step that is
    not negative, [Process] never moves the accumulator away from the
    target of the frame: on each axis the accumulator it leaves is at most
    as far from this frame's centred and deadzoned sample as the
    accumulator it found, whether the connection is remote or not. *)
Theorem Process_no_overshoot (st : t) (y p r : R) (remote : bool) (dt : R)
    (now : Z) :
  m_smoothingFactor st <= 1 -> 0 <= dt ->
  let st' := snd (Process st y p r remote dt now) in
  let '(ty, tp, tr) := target st y p r in
  Rabs (m_smoothedYaw st' - ty) <= Rabs (m_smoothedYaw st - ty) /\
  Rabs (m_smoothedPitch st' - tp) <= Rabs (m_smoothedPitch st - tp) /\
  Rabs (m_smoothedRoll st' - tr) <= Rabs (m_smoothedRoll st - tr).
Proof.
  intros Hs Hdt. cbv zeta.
  pose proof (Process_smoothed st y p r remote dt now) as S1.
  pose proof (GetEffectiveSmoothing_le_1 _ remote Hs) as He.
  destruct (target st y p r) as [[ty tp] tr]. cbv zeta in S1.
  destruct (m_hasSmoothedValue st);
    apply smoothed_inv in S1; destruct S1 as (-> & -> & ->).
  - repeat split; apply Smooth_contracts; assumption.
  - replace (ty - ty) with 0 by lra. replace (tp - tp) with 0 by lra.
    replace (tr - tr) with 0 by lra. rewrite Rabs_R0.
    repeat split; apply Rabs_pos.
Qed.

Lemma Process_no_overshoot_witness :
  let st := SetSmoothing example_processor 0.5 in
  let st' := snd (Process st 10 20 30 true (1 / 60) 0) in
  let '(ty, tp, tr) := target st 10 20 30 in
  Rabs (m_smoothedYaw st' - ty) <= Rabs (m_smoothedYaw st - ty) /\
  Rabs (m_smoothedPitch st' - tp) <= Rabs (m_smoothedPitch st - tp) /\
  Rabs (m_smoothedRoll st' - tr) <= Rabs (m_smoothedRoll st - tr).
Proof.
  apply (Process_no_overshoot (SetSmoothing example_processor 0.5)
           10 20 30 true (1 / 60) 0); cbn; lra.
Defined.

(** X6.  The sensitivity settings act on the returned pose only: with
    any settings [Process] leaves the accumulator, centre and flags it
    leaves with any other, and returns that accumulator scaled by the
    multipliers and negated on the inverted axes. *)
Theorem Process_sensitivity_output_only (st : t) (sens : SensitivitySettings.t)
    (y p r : R) (remote : bool) (dt : R) (now : Z) :
  snd (Process (SetSensitivity st sens) y p r remote dt now) =
    SetSensitivity (snd (Process st y p r remote dt now)) sens /\
  angles (fst (Process (SetSensitivity st sens) y p r remote dt now)) =
    apply_sensitivity sens (smoothed (snd (Process st y p r remote dt now))).
Proof.
  assert (H : snd (Process (SetSensitivity st sens) y p r remote dt now) =
              SetSensitivity (snd (Process st y p r remote dt now)) sens).
  { rewrite !Process_state.
    change (target (SetSensitivity st sens) y p r) with (target st y p r).
    destruct (target st y p r) as [[ty tp] tr].
    cbn [SetSensitivity m_hasSmoothedValue m_smoothingFactor m_centerManager
         m_smoothedYaw m_smoothedPitch m_smoothedRoll m_deadzone m_sensitivity].
    destruct (m_hasSmoothedValue st); reflexivity. }
  split; [exact H |].
  rewrite Process_output, H. reflexivity.
Qed.

Lemma ApplyDeadzone_zero (t : R) : ApplyDeadzone 0 t = 0.
Proof. deadzone_cases. Qed.

(** X7.  After [RecenterTo] on a sample, processing that sample returns
    the angles (0, 0, 0) and leaves the accumulator at zero, for every
    smoothing value, deadzone, sensitivity, time step and connection kind,
    on the first frame as on later ones. *)
Theorem RecenterTo_then_Process_zero (st : t) (y p r : R) (remote : bool)
    (dt : R) (now : Z) :
  let res := Process (RecenterTo st y p r) y p r remote dt now in
  angles (fst res) = (0, 0, 0) /\ smoothed (snd res) = (0, 0, 0).
Proof.
  cbv zeta.
  assert (Ht : target (RecenterTo st y p r) y p r = (0, 0, 0)).
  { unfold target, RecenterTo, CenterOffsetManager.ApplyOffset,
      CenterOffsetManager.SetCenter.
    cbn [m_centerManager CenterOffsetManager.m_hasValidCenter negb
         CenterOffsetManager.m_centerOffset TrackingPose.yaw
         TrackingPose.pitch TrackingPose.roll m_deadzone].
    replace (y - y) with 0 by lra. replace (p - p) with 0 by lra.
    replace (r - r) with 0 by lra. rewrite !ApplyDeadzone_zero. reflexivity. }
  assert (Hs : smoothed (snd (Process (RecenterTo st y p r) y p r remote dt now))
               = (0, 0, 0)).
  { rewrite Process_smoothed, Ht. cbv zeta.
    cbn [RecenterTo m_hasSmoothedValue m_smoothedYaw m_smoothedPitch
         m_smoothedRoll].
    destruct (m_hasSmoothedValue st); [| reflexivity].
    unfold Smooth. f_equal; [f_equal |]; lra. }
  split; [| exact Hs].
  rewrite Process_output, Hs. unfold apply_sensitivity, scaled.
  destruct (SensitivitySettings.invert_yaw _),
    (SensitivitySettings.invert_pitch _), (SensitivitySettings.invert_roll _);
    (f_equal; [f_equal |]; lra).
Qed.

End ProcessorFacts.

(** ** The wire codec and the receive buffers *)

Module WireFacts.
Import ieee OpenTrackPacket ieeeFacts OpenTrackPacketFacts WireView.

Lemma memcpy_double_firstn (l : list byte) (n : nat) (off : Z) :
  (Z.to_nat off + 8 <= n)%nat ->
  memcpy_double (firstn n l) off = memcpy_double l off.
Proof.
  intros Hn. unfold memcpy_double. do 2 f_equal.
  rewrite skipn_firstn_comm, firstn_firstn.
  f_equal. lia.
Qed.

(** The eight bytes at offset [24 + k] lie in the window of 24 bytes that
    starts at offset 24. *)
Lemma window_bytes (l : list byte) (k : nat) :
  (k + 8 <= 24)%nat ->
  firstn 8 (skipn (24 + k) l) = firstn 8 (skipn k (firstn 24 (skipn 24 l))).
Proof.
  intros Hk.
  rewrite skipn_firstn_comm, firstn_firstn, skipn_skipn.
  replace (Nat.min 8 (24 - k)) with 8%nat by lia.
  do 2 f_equal. lia.
Qed.

Lemma memcpy_double_window (a b : list byte) (k : nat) :
  (k + 8 <= 24)%nat ->
  firstn 24 (skipn 24 a) = firstn 24 (skipn 24 b) ->
  memcpy_double a (Z.of_nat (24 + k)) = memcpy_double b (Z.of_nat (24 + k)).
Proof.
  intros Hk Hw. unfold memcpy_double. rewrite Nat2Z.id.
  rewrite !window_bytes by assumption. rewrite Hw. reflexivity.
Qed.

Lemma TryParse_firstn (payload : list byte) (n : nat) (now : Z)
    (pose : TrackingPose.t float) :
  (48 <= n)%nat ->
  TryParse (Some (firstn n payload)) (Z.of_nat (length (firstn n payload))) now pose =
  TryParse (Some payload) (Z.of_nat (length payload)) now pose.
Proof.
  intros Hn. unfold TryParse, kMinPacketSize, kYawOffset, kPitchOffset, kRollOffset.
  rewrite length_firstn.
  destruct (Z.ltb_spec (Z.of_nat (length payload)) 48) as [Hs | Hl].
  - destruct (Z.ltb_spec (Z.of_nat (Nat.min n (length payload))) 48); [reflexivity | lia].
  - destruct (Z.ltb_spec (Z.of_nat (Nat.min n (length payload))) 48); [lia |].
    rewrite !memcpy_double_firstn
      by (change (Z.to_nat 24) with 24%nat; change (Z.to_nat 32) with 32%nat;
          change (Z.to_nat 40) with 40%nat; lia).
    reflexivity.
Qed.

(** X8.  [TryParse] reads the bytes 24 to 47 and nothing else: two buffers
    of at least 48 bytes that agree there give the same flag and the same
    pose, whatever their first 24 bytes, their further bytes and their
    lengths; so a datagram cut to any 48 bytes or more parses as the whole
    datagram does. *)
Theorem TryParse_reads_bytes_24_to_47 (now : Z) (pose : TrackingPose.t float) :
  (forall (a b : list byte) (la lb : Z),
     48 <= la <= Z.of_nat (length a) ->
     48 <= lb <= Z.of_nat (length b) ->
     firstn 24 (skipn 24 a) = firstn 24 (skipn 24 b) ->
     TryParse (Some a) la now pose = TryParse (Some b) lb now pose) /\
  (forall (payload : list byte) (n : nat),
     (48 <= n)%nat ->
     TryParse (Some (firstn n payload))
       (Z.of_nat (length (firstn n payload))) now pose =
     TryParse (Some payload) (Z.of_nat (length payload)) now pose).
Proof.
  split.
  - intros a b la lb Ha Hb Hw.
    unfold TryParse, kMinPacketSize, kYawOffset, kPitchOffset, kRollOffset.
    destruct (Z.ltb_spec la 48); [lia |].
    destruct (Z.ltb_spec lb 48); [lia |].
    rewrite (memcpy_double_window a b 0 ltac:(lia) Hw : memcpy_double a 24 = _).
    rewrite (memcpy_double_window a b 8 ltac:(lia) Hw : memcpy_double a 32 = _).
    rewrite (memcpy_double_window a b 16 ltac:(lia) Hw : memcpy_double a 40 = _).
    reflexivity.
  - intros payload n Hn. apply TryParse_firstn, Hn.
Qed.

Lemma digits2_pos_unique (m : positive) (d : Z) :
  2 ^ (d - 1) <= Z.pos m < 2 ^ d -> Z.pos (digits2_pos m) = d.
Proof.
  intros [Hlo Hhi]. pose proof (digits2_pos_bounds m) as [Dlo Dhi].
  set (D := Z.pos (digits2_pos m)) in *.
  destruct (Z.lt_trichotomy D d) as [Hlt | [Heq | Hgt]]; [| exact Heq |].
  - assert (2 ^ D <= 2 ^ (d - 1)) by (apply Z.pow_le_mono_r; lia). lia.
  - assert (0 <= d).
    { destruct (Z.le_gt_cases 0 d) as [H | H]; [exact H |].
      rewrite (Z.pow_neg_r 2 d) in Hhi by lia. lia. }
    assert (2 ^ d <= 2 ^ (D - 1)) by (apply Z.pow_le_mono_r; lia). lia.
Qed.

Lemma shr_1_m (r : shr_record) :
  0 <= shr_m r -> shr_m (shr_1 r) = shr_m r / 2.
Proof.
  destruct r as [m r s]. cbn [shr_m]. intros Hm.
  destruct m as [| [p | p |] |]; cbn [shr_1 shr_m]; try lia.
  - reflexivity.
  - apply (Z.div_unique _ _ _ 1); lia.
  - apply (Z.div_unique _ _ _ 0); lia.
  - reflexivity.
Qed.

Lemma iter_pos_shr_1_m (p : positive) :
  forall r, 0 <= shr_m r -> shr_m (SpecFloat.iter_pos shr_1 p r) = shr_m r / 2 ^ Z.pos p.
Proof.
  assert (Hpow : forall q, 0 < 2 ^ Z.pos q) by (intros q; apply Z.pow_pos_nonneg; lia).
  induction p as [p IH | p IH |]; intros r Hr; cbn [SpecFloat.iter_pos].
  - assert (H1 : 0 <= shr_m (shr_1 r)) by (rewrite shr_1_m by assumption; apply Z.div_pos; lia).
    assert (H2 : 0 <= shr_m (SpecFloat.iter_pos shr_1 p (shr_1 r))).
    { rewrite IH by assumption. apply Z.div_pos; [assumption | apply Hpow]. }
    rewrite IH, IH, shr_1_m by assumption.
    pose proof (Hpow p).
    assert (E : 2 ^ Z.pos p~1 = 2 * (2 ^ Z.pos p * 2 ^ Z.pos p)).
    { rewrite <- Z.pow_add_r, <- Z.pow_succ_r by lia. f_equal. lia. }
    rewrite !Z.div_div, E by lia. reflexivity.
  - assert (H2 : 0 <= shr_m (SpecFloat.iter_pos shr_1 p r)).
    { rewrite IH by assumption. apply Z.div_pos; [assumption | apply Hpow]. }
    rewrite IH, IH by assumption.
    pose proof (Hpow p).
    assert (E : 2 ^ Z.pos p~0 = 2 ^ Z.pos p * 2 ^ Z.pos p).
    { rewrite <- Z.pow_add_r by lia. f_equal. lia. }
    rewrite !Z.div_div, E by lia. reflexivity.
  - rewrite shr_1_m by assumption. reflexivity.
Qed.

(** Narrowing a normal binary64 value of magnitude [2 ^ 128] or more gives
    the infinity of its sign. *)
Lemma binary_round_overflow (s : bool) (m : positive) (e : Z) :
  beyond_float m e -> binary_round 24 128 s m e = S754_infinity s.
Proof.
  intros [[Hlo Hhi] He].
  assert (Hd : Z.pos (digits2_pos m) = 53) by (apply digits2_pos_unique; lia).
  unfold binary_round. rewrite Hd.
  assert (Hf : forall d x, 24 <= d -> 76 <= x ->
                 fexp 24 128 (d + x) = x + (d - 24))
    by (intros d x Hd' Hx; unfold fexp, emin; lia).
  rewrite (Hf 53) by lia. unfold shl_align.
  replace (e + (53 - 24) - e) with 29 by lia.
  unfold binary_round_aux, shr_fexp.
  cbn [Zdigits2]. rewrite Hd, (Hf 53) by lia.
  replace (e + (53 - 24) - e) with 29 by lia.
  cbn [shr shr_record_of_loc].
  set (r1 := SpecFloat.iter_pos shr_1 29 _).
  assert (Hq : shr_m r1 = Z.pos m / 2 ^ 29).
  { unfold r1. rewrite iter_pos_shr_1_m; cbn [shr_m]; [reflexivity | lia]. }
  assert (Hq23 : 2 ^ 23 <= shr_m r1 < 2 ^ 24).
  { rewrite Hq. split.
    - apply Z.div_le_lower_bound; [lia |].
      rewrite <- Z.pow_add_r by lia. exact Hlo.
    - apply Z.div_lt_upper_bound; [lia |].
      rewrite <- Z.pow_add_r by lia. exact Hhi. }
  set (q := round_nearest_even (shr_m r1) (loc_of_shr_record r1)).
  assert (Hq' : 2 ^ 23 <= q <= 2 ^ 24).
  { unfold q, round_nearest_even.
    destruct (loc_of_shr_record r1) as [| []]; try destruct (Z.even _); lia. }
  clearbody q. clear Hq Hq23 r1.
  destruct q as [| q |]; [lia | | lia].
  cbn [Zdigits2].
  destruct (Z.eq_dec (Z.pos q) (2 ^ 24)) as [Heq | Hne].
  - rewrite (digits2_pos_unique q 25) by lia.
    rewrite (Hf 25) by lia.
    replace (e + 29 + (25 - 24) - (e + 29)) with 1 by lia.
    cbn [shr SpecFloat.iter_pos]. rewrite shr_1_m by (cbn [shr_m]; lia).
    cbn [shr_m]. rewrite Heq.
    change (2 ^ 24 / 2) with 8388608.
    destruct (Z.leb_spec (e + 29 + 1) (128 - 24)); [lia | reflexivity].
  - rewrite (digits2_pos_unique q 24) by lia.
    rewrite (Hf 24) by lia.
    replace (e + 29 + (24 - 24) - (e + 29)) with 0 by lia.
    cbn [shr shr_m].
    destruct (Z.leb_spec (e + 29) (128 - 24)); [lia | reflexivity].
Qed.

(** X9.  [TryParse] checks the doubles, not the floats it stores: a buffer
    of 48 bytes whose three angle fields are finite is accepted, and every
    field of magnitude [2 ^ 128] or more is stored as the infinity of its
    sign. *)
Theorem TryParse_overflow_to_infinity (bytes : list byte) (length now : Z)
    (pose : TrackingPose.t float) :
  let result := TryParse (Some bytes) length now pose in
  48 <= length ->
  ~ nonfinite (memcpy_double bytes 24) ->
  ~ nonfinite (memcpy_double bytes 32) ->
  ~ nonfinite (memcpy_double bytes 40) ->
  fst result = true /\
  (forall s m e, memcpy_double bytes 24 = S754_finite s m e ->
     beyond_float m e -> TrackingPose.yaw (snd result) = S754_infinity s) /\
  (forall s m e, memcpy_double bytes 32 = S754_finite s m e ->
     beyond_float m e -> TrackingPose.pitch (snd result) = S754_infinity s) /\
  (forall s m e, memcpy_double bytes 40 = S754_finite s m e ->
     beyond_float m e -> TrackingPose.roll (snd result) = S754_infinity s).
Proof.
  intros result Hlen Hy Hp Hr.
  assert (Hok : fst result = true)
    by (apply TryParse_success_iff; repeat split; assumption).
  split; [exact Hok |].
  unfold result in *. clear result. revert Hok.
  unfold TryParse, kYawOffset, kPitchOffset, kRollOffset.
  generalize (memcpy_double bytes 24) (memcpy_double bytes 32)
    (memcpy_double bytes 40).
  intros y p r.
  destruct (length <? kMinPacketSize); [discriminate |].
  destruct (isnan y || isinf y || isnan p || isinf p || isnan r || isinf r);
    [discriminate |].
  intros _. cbn [snd TrackingPose.yaw TrackingPose.pitch TrackingPose.roll].
  repeat split; intros s m e -> Hb; apply binary_round_overflow, Hb.
Qed.

Lemma TryParse_overflow_to_infinity_witness :
  let big := S754_finite true (2 ^ 52) 76 in
  let zero := double_of_Z 0 in
  let result :=
    TryParse (Some (packet zero zero zero big zero zero)) 48 7
      (TrackingPose.mk zerof zerof zerof 0) in
  fst result = true /\ TrackingPose.yaw (snd result) = S754_infinity true.
Proof.
  cbv zeta.
  set (bytes := packet (double_of_Z 0) (double_of_Z 0) (double_of_Z 0)
                  (S754_finite true (2 ^ 52) 76) (double_of_Z 0) (double_of_Z 0)).
  assert (Hy : memcpy_double bytes 24 = S754_finite true (2 ^ 52) 76)
    by (vm_compute; reflexivity).
  assert (Hp : memcpy_double bytes 32 = S754_zero false)
    by (vm_compute; reflexivity).
  assert (Hr : memcpy_double bytes 40 = S754_zero false)
    by (vm_compute; reflexivity).
  destruct (TryParse_overflow_to_infinity bytes 48 7
              (TrackingPose.mk zerof zerof zerof 0)) as (Hok & Hyaw & _).
  - lia.
  - rewrite Hy. intros [H | H]; discriminate H.
  - rewrite Hp. intros [H | H]; discriminate H.
  - rewrite Hr. intros [H | H]; discriminate H.
  - split; [exact Hok |].
    apply (Hyaw true (2 ^ 52)%positive 76 Hy).
    unfold beyond_float. split; [split |]; [vm_compute; discriminate | reflexivity | lia].
Defined.

End WireFacts.

(** ** The two receivers *)

Module ReceiverFacts.
Import ieee socket OpenTrackPacket OpenTrackPacketFacts WireView WireFacts.
Import PollingUdpReceiverFacts.

Lemma SFsub_diag (x : float) : SFsub 24 128 x x = minus_itself x.
Proof.
  destruct x as [[] | [] | | s m e]; try reflexivity.
  unfold SFsub. rewrite Z.sub_diag. reflexivity.
Qed.

Lemma SFsub_zero_r (x : float) : SFsub 24 128 x zerof = x.
Proof. destruct x as [[] | [] | |]; reflexivity. Qed.

(** What the receiver thread parses from its 64-byte buffer is what the
    codec makes of the whole datagram. *)
Lemma thread_parse (payload buf : list byte) (now : Z) :
  let got := firstn (Z.to_nat UdpReceiver.kReceiveBufferSize) payload in
  (if kMinPacketSize <=? Z.of_nat (length got) then
     TryParse (Some (got ++ skipn (length got) buf)) (Z.of_nat (length got))
       now PollingUdpReceiver.zero_pose
   else (false, PollingUdpReceiver.zero_pose)) =
  TryParse (Some payload) (Z.of_nat (length payload)) now
    PollingUdpReceiver.zero_pose.
Proof.
  change (Z.to_nat UdpReceiver.kReceiveBufferSize) with 64%nat. cbv zeta.
  rewrite TryParse_app, TryParse_firstn by lia.
  unfold kMinPacketSize.
  destruct (Z.leb_spec 48 (Z.of_nat (length (firstn 64 payload)))) as [H | H];
    [reflexivity |].
  rewrite length_firstn in H. unfold TryParse, kMinPacketSize.
  destruct (Z.ltb_spec (Z.of_nat (length payload)) 48); [reflexivity | lia].
Qed.

Lemma ReceiverThread_iteration_keeps (st : UdpReceiver.t) (ev : recv_result)
    (now : Z) :
  let st' := UdpReceiver.ReceiverThread_iteration st ev now in
  (UdpReceiver.m_yawOffset st', UdpReceiver.m_pitchOffset st',
   UdpReceiver.m_rollOffset st') =
  (UdpReceiver.m_yawOffset st, UdpReceiver.m_pitchOffset st,
   UdpReceiver.m_rollOffset st) /\
  (UdpReceiver.m_socket st', UdpReceiver.m_running st',
   UdpReceiver.m_stopFlag st', UdpReceiver.m_failed st') =
  (UdpReceiver.m_socket st, UdpReceiver.m_running st,
   UdpReceiver.m_stopFlag st, UdpReceiver.m_failed st).
Proof.
  cbv zeta. destruct ev as [payload from | |]; [| split; reflexivity ..].
  unfold UdpReceiver.ReceiverThread_iteration, recvfrom.
  pose proof (thread_parse payload (UdpReceiver.thread_buffer st) now) as Hp.
  cbv zeta in Hp. unfold PollingUdpReceiver.zero_pose in Hp. rewrite Hp.
  destruct (TryParse (Some payload) (Z.of_nat (length payload)) now _)
    as [[] pose]; split; reflexivity.
Qed.

(** X10.  One iteration of the receiver thread on a datagram publishes
    exactly what the codec makes of the whole datagram, although it
    receives into 64 bytes that still hold older input: on success the
    pose, the clock reading and the remoteness of the sender; on failure
    nothing.  Would-block and receive errors publish nothing.  The offsets
    and the flags of the receiver are never touched. *)
Theorem ReceiverThread_iteration_publishes (st : UdpReceiver.t)
    (ev : recv_result) (now : Z) (ypr : float * float * float) :
  let st' := UdpReceiver.ReceiverThread_iteration st ev now in
  let published (s : UdpReceiver.t) :=
    (UdpReceiver.m_trackingData s, UdpReceiver.m_lastReceiveTimestamp s,
     UdpReceiver.m_isRemoteConnection s) in
  match ev with
  | Datagram payload from =>
      let parsed :=
        TryParse (Some payload) (Z.of_nat (length payload)) now
          PollingUdpReceiver.zero_pose in
      if fst parsed then
        TrackingData.Get (UdpReceiver.m_trackingData st') ypr =
          (true, angles (snd parsed)) /\
        UdpReceiver.m_lastReceiveTimestamp st' = now /\
        UdpReceiver.m_isRemoteConnection st' = IsRemoteAddress from
      else published st' = published st
  | _ => published st' = published st
  end /\
  (UdpReceiver.m_yawOffset st', UdpReceiver.m_pitchOffset st',
   UdpReceiver.m_rollOffset st') =
  (UdpReceiver.m_yawOffset st, UdpReceiver.m_pitchOffset st,
   UdpReceiver.m_rollOffset st) /\
  (UdpReceiver.m_socket st', UdpReceiver.m_running st',
   UdpReceiver.m_stopFlag st', UdpReceiver.m_failed st') =
  (UdpReceiver.m_socket st, UdpReceiver.m_running st,
   UdpReceiver.m_stopFlag st, UdpReceiver.m_failed st).
Proof.
  cbv zeta. destruct ev as [payload from | |].
  - unfold UdpReceiver.ReceiverThread_iteration, recvfrom.
    pose proof (thread_parse payload (UdpReceiver.thread_buffer st) now) as Hp.
    cbv zeta in Hp. unfold PollingUdpReceiver.zero_pose in Hp. rewrite Hp.
    destruct (TryParse (Some payload) (Z.of_nat (length payload)) now _)
      as [[] pose]; cbn; repeat split; reflexivity.
  - repeat split; reflexivity.
  - repeat split; reflexivity.
Qed.

(** X11.  Recentring makes the current pose the origin, in both
    receivers: [GetRotation] straight after [Recenter] returns [+0] on every
    axis whose stored value is a zero or finite, and NaN on an axis that
    holds an infinity or a NaN.  While the offsets of the threaded receiver
    are [+0], its [GetRotation] returns the published values bit for bit. *)
Theorem Recenter_then_GetRotation (ypr : float * float * float) :
  (forall st : PollingUdpReceiver.t,
     PollingUdpReceiver.m_hasData st = true ->
     PollingUdpReceiver.GetRotation (PollingUdpReceiver.Recenter st) ypr =
       (true, (minus_itself (PollingUdpReceiver.m_yaw st),
               minus_itself (PollingUdpReceiver.m_pitch st),
               minus_itself (PollingUdpReceiver.m_roll st)))) /\
  (forall (st : UdpReceiver.t) (y p r : float),
     TrackingData.Get (UdpReceiver.m_trackingData st) ypr = (true, (y, p, r)) ->
     UdpReceiver.GetRotation (UdpReceiver.Recenter st) ypr =
       (true, (minus_itself y, minus_itself p, minus_itself r))) /\
  (forall st : UdpReceiver.t,
     (UdpReceiver.m_yawOffset st, UdpReceiver.m_pitchOffset st,
      UdpReceiver.m_rollOffset st) = (zerof, zerof, zerof) ->
     UdpReceiver.GetRotation st ypr =
       TrackingData.Get (UdpReceiver.m_trackingData st) ypr).
Proof.
  split; [| split].
  - intros st Hd.
    unfold PollingUdpReceiver.GetRotation, PollingUdpReceiver.Recenter.
    rewrite Hd. cbn [PollingUdpReceiver.m_hasData PollingUdpReceiver.m_hasOffset
      PollingUdpReceiver.m_yaw PollingUdpReceiver.m_pitch PollingUdpReceiver.m_roll
      PollingUdpReceiver.m_yawOffset PollingUdpReceiver.m_pitchOffset
      PollingUdpReceiver.m_rollOffset negb].
    rewrite !SFsub_diag. reflexivity.
  - intros st y p r.
    unfold UdpReceiver.GetRotation, UdpReceiver.Recenter, TrackingData.Get.
    destruct (TrackingData.has_data (UdpReceiver.m_trackingData st)) eqn:Hd;
      cbn [negb]; [| discriminate].
    intros H. injection H as <- <- <-.
    cbn [UdpReceiver.m_trackingData UdpReceiver.m_yawOffset
         UdpReceiver.m_pitchOffset UdpReceiver.m_rollOffset].
    rewrite Hd. cbn [negb]. rewrite !SFsub_diag. reflexivity.
  - intros st H. injection H as Hy Hp Hr.
    unfold UdpReceiver.GetRotation, TrackingData.Get.
    rewrite Hy, Hp, Hr.
    destruct (TrackingData.has_data (UdpReceiver.m_trackingData st));
      cbn [negb]; [| destruct ypr as [[? ?] ?]; reflexivity].
    rewrite !SFsub_zero_r. reflexivity.
Qed.

Lemma Recenter_then_GetRotation_witness :
  UdpReceiver.GetRotation
    (UdpReceiver.Recenter UdpReceiver.example_threaded_receiver)
    (zerof, zerof, zerof) =
  (true, (zerof, zerof, zerof)).
Proof.
  apply (proj1 (proj2 (Recenter_then_GetRotation (zerof, zerof, zerof)))
           UdpReceiver.example_threaded_receiver
           (float_of_Z 10) (float_of_Z (-5)) (float_of_Z 0)).
  vm_compute. reflexivity.
Defined.

(** X12.  The connection windows.  [IsReceiving] compares whole
    milliseconds, yet holds exactly while a packet was received and less
    than 500000 microseconds have passed since, a clock reading before the
    last packet included.  [IsConnected] holds exactly while the polling
    receiver is initialised, a packet was received at a reading other than
    0, and less than 1000 milliseconds have passed since. *)
Theorem connection_windows :
  (forall (st : UdpReceiver.t) (nowUs : Z),
     UdpReceiver.IsReceiving st nowUs = true <->
     UdpReceiver.m_lastReceiveTimestamp st <> 0 /\
     nowUs - UdpReceiver.m_lastReceiveTimestamp st < 500000) /\
  (forall (st : PollingUdpReceiver.t) (now_ms : Z),
     PollingUdpReceiver.IsConnected st now_ms = true <->
     PollingUdpReceiver.m_initialized st = true /\
     PollingUdpReceiver.m_lastReceiveTimeMs st <> 0 /\
     now_ms - PollingUdpReceiver.m_lastReceiveTimeMs st < 1000).
Proof.
  split.
  - intros st nowUs. unfold UdpReceiver.IsReceiving, UdpReceiver.kConnectionTimeoutMs.
    cbv zeta. destruct (Z.eqb_spec (UdpReceiver.m_lastReceiveTimestamp st) 0) as [H0 | H0].
    + split; [discriminate | tauto].
    + rewrite Z.ltb_lt.
      generalize (nowUs - UdpReceiver.m_lastReceiveTimestamp st). intros a.
      pose proof (Z.quot_rem' a 1000) as Hqr.
      assert (Hr : (0 <= a -> 0 <= Z.rem a 1000 < 1000) /\
                   (a < 0 -> -1000 < Z.rem a 1000 <= 0)).
      { split; intros Ha.
        - apply Z.rem_bound_pos; lia.
        - change (-1000) with (- (1000)). apply Z.rem_bound_pos_neg; lia. }
      revert Hqr Hr. generalize (Z.quot a 1000) (Z.rem a 1000). intros q r Hqr Hr.
      split; [intros Hq; split; [exact H0 |] | intros [_ Ha]]; lia.
  - intros st now_ms.
    unfold PollingUdpReceiver.IsConnected, PollingUdpReceiver.kConnectionTimeoutMs.
    destruct (PollingUdpReceiver.m_initialized st); cbn [negb orb].
    + destruct (Z.eqb_spec (PollingUdpReceiver.m_lastReceiveTimeMs st) 0) as [H0 | H0].
      * split; [discriminate | tauto].
      * rewrite Z.ltb_lt. tauto.
    + split; [discriminate | intros [H _]; discriminate H].
Qed.

(** The invariant of the threaded receiver between the calls of its owner. *)
Lemma step_invariant (st st' : UdpReceiver.t) :
  UdpReceiver.step st st' ->
  UdpSocket.IsOpen (UdpReceiver.m_socket st) = UdpReceiver.m_running st /\
  (UdpReceiver.m_running st = true ->
   UdpReceiver.m_failed st = false /\ UdpReceiver.m_stopFlag st = false) ->
  UdpSocket.IsOpen (UdpReceiver.m_socket st') = UdpReceiver.m_running st' /\
  (UdpReceiver.m_running st' = true ->
   UdpReceiver.m_failed st' = false /\ UdpReceiver.m_stopFlag st' = false).
Proof.
  intros Hstep [Hopen Hrun]. destruct Hstep as [st port os | st inflight | st | st ev now Hr].
  - unfold UdpReceiver.Start.
    destruct (UdpReceiver.m_running st) eqn:Hr; [cbn [snd]; rewrite Hr; tauto |].
    unfold UdpSocket.Open. unfold UdpSocket.IsOpen in Hopen. rewrite Hopen.
    destruct os as [fd |]; [destruct (Z.eqb_spec fd INVALID_SOCKET) as [Hfd | Hfd] |];
      cbn; rewrite ?Hr; try (split; [reflexivity | discriminate]).
    split; [| tauto].
    unfold UdpSocket.IsOpen. cbn. destruct (Z.eqb_spec fd INVALID_SOCKET); tauto.
  - unfold UdpReceiver.Stop.
    destruct (UdpReceiver.m_running st) eqn:Hr; cbn [negb].
    + cbn. split; [reflexivity | discriminate].
    + rewrite Hr. tauto.
  - unfold UdpReceiver.Recenter.
    destruct (TrackingData.Get _ _) as [[] [[y p] r]]; [cbn | ]; tauto.
  - pose proof (ReceiverThread_iteration_keeps st ev now) as (_ & H).
    cbv zeta in H. injection H as -> -> -> ->. tauto.
Qed.

(** X13.  Whatever sequence of [Start], [Stop], [Recenter] and
    iterations of the receiver thread led to it, the threaded receiver has
    its socket open exactly while it is running, and while it is running
    it is neither failed nor asked to stop. *)
Theorem reachable_running_invariant (st : UdpReceiver.t) :
  UdpReceiver.reachable st ->
  UdpSocket.IsOpen (UdpReceiver.m_socket st) = UdpReceiver.IsRunning st /\
  (UdpReceiver.IsRunning st = true ->
   UdpReceiver.IsFailed st = false /\ UdpReceiver.m_stopFlag st = false).
Proof.
  unfold UdpReceiver.IsRunning, UdpReceiver.IsFailed.
  induction 1 as [| st st' _ IH Hstep].
  - split; [reflexivity | discriminate].
  - exact (step_invariant st st' Hstep IH).
Qed.

Lemma reachable_running_invariant_witness :
  UdpReceiver.reachable UdpReceiver.example_threaded_receiver /\
  UdpSocket.IsOpen (UdpReceiver.m_socket UdpReceiver.example_threaded_receiver) =
    UdpReceiver.IsRunning UdpReceiver.example_threaded_receiver.
Proof.
  assert (H : UdpReceiver.reachable UdpReceiver.example_threaded_receiver).
  { unfold UdpReceiver.example_threaded_receiver.
    eapply UdpReceiver.reachable_step;
      [eapply UdpReceiver.reachable_step;
         [apply UdpReceiver.reachable_init | apply UdpReceiver.step_Start] |].
    apply UdpReceiver.step_thread. reflexivity. }
  split; [exact H |].
  exact (proj1 (reachable_running_invariant _ H)).
Defined.

Lemma polling_step_has_data (st st' : PollingUdpReceiver.t) :
  PollingLife.polling_step st st' ->
  (PollingUdpReceiver.m_lastReceiveTimeMs st <> 0 ->
   PollingUdpReceiver.m_hasData st = true) ->
  PollingUdpReceiver.m_lastReceiveTimeMs st' <> 0 ->
  PollingUdpReceiver.m_hasData st' = true.
Proof.
  intros Hstep Hinv.
  destruct Hstep as [st port os | st | st incoming now_us now_ms | st | st].
  - unfold PollingUdpReceiver.Initialize.
    destruct (PollingUdpReceiver.m_initialized st); [exact Hinv |].
    destruct (UdpSocket.Open _ _ _) as [[] sock]; cbn; [congruence | exact Hinv].
  - unfold PollingUdpReceiver.Shutdown.
    destruct (PollingUdpReceiver.m_initialized st); exact Hinv.
  - destruct (PollingUdpReceiver.m_initialized st) eqn:Hi;
      [destruct (UdpSocket.IsOpen (PollingUdpReceiver.m_socket st)) eqn:Ho |].
    + destruct (Poll_summary st incoming now_us now_ms Hi Ho) as [_ Hobs].
      cbv zeta in Hobs.
      set (st1 := snd (fst (PollingUdpReceiver.Poll st incoming now_us now_ms))) in *.
      unfold PollingUdpReceiver.after_poll, PollingUdpReceiver.observable in Hobs.
      destruct (rev (filter _ _)) as [| latest l].
      * intros H. assert (PollingUdpReceiver.m_hasData st1 =
                          PollingUdpReceiver.m_hasData st) as -> by congruence.
        apply Hinv. congruence.
      * intros _. congruence.
    + unfold PollingUdpReceiver.Poll. rewrite Hi, Ho. exact Hinv.
    + unfold PollingUdpReceiver.Poll. rewrite Hi. exact Hinv.
  - unfold PollingUdpReceiver.Recenter.
    destruct (PollingUdpReceiver.m_hasData st) eqn:Hd;
      [intros _; reflexivity | rewrite Hd; exact Hinv].
  - exact Hinv.
Qed.

(** X27.  A polling receiver that reports a connection has a rotation to
    give: however it was used, [IsConnected] implies that [GetRotation],
    [GetRawRotation] and [GetPose] succeed. *)
Theorem connected_has_rotation (st : PollingUdpReceiver.t) (now_ms now_us : Z)
    (ypr : float * float * float) (pose : TrackingPose.t float) :
  PollingLife.polling_reachable st ->
  PollingUdpReceiver.IsConnected st now_ms = true ->
  fst (PollingUdpReceiver.GetRotation st ypr) = true /\
  fst (PollingUdpReceiver.GetRawRotation st ypr) = true /\
  fst (PollingUdpReceiver.GetPose st now_us pose) = true.
Proof.
  intros Hreach Hcon.
  assert (Hinv : PollingUdpReceiver.m_lastReceiveTimeMs st <> 0 ->
                 PollingUdpReceiver.m_hasData st = true).
  { clear Hcon. induction Hreach as [| st st' _ IH Hstep].
    - cbn. congruence.
    - exact (polling_step_has_data st st' Hstep IH). }
  unfold PollingUdpReceiver.IsConnected in Hcon.
  destruct (PollingUdpReceiver.m_initialized st); [| discriminate].
  destruct (Z.eqb_spec (PollingUdpReceiver.m_lastReceiveTimeMs st) 0) as [H0 | H0];
    [discriminate |].
  unfold PollingUdpReceiver.GetRotation, PollingUdpReceiver.GetRawRotation,
    PollingUdpReceiver.GetPose.
  rewrite (Hinv H0). cbn [negb].
  destruct (PollingUdpReceiver.m_hasOffset st); repeat split.
Qed.

Lemma connected_has_rotation_witness :
  let st :=
    snd (fst (PollingUdpReceiver.Poll PollingUdpReceiver.example_polling_receiver
                PollingUdpReceiver.example_burst 5000 1000)) in
  PollingLife.polling_reachable st /\
  PollingUdpReceiver.IsConnected st 1500 = true /\
  fst (PollingUdpReceiver.GetRotation st (zerof, zerof, zerof)) = true.
Proof.
  intros st.
  assert (Hreach : PollingLife.polling_reachable st).
  { unfold st, PollingUdpReceiver.example_polling_receiver.
    eapply PollingLife.polling_reachable_step;
      [eapply PollingLife.polling_reachable_step;
         [apply PollingLife.polling_reachable_init
         | apply PollingLife.step_Initialize]
      | apply PollingLife.step_polling_Poll]. }
  assert (Hcon : PollingUdpReceiver.IsConnected st 1500 = true)
    by (vm_compute; reflexivity).
  split; [exact Hreach |]. split; [exact Hcon |].
  exact (proj1 (connected_has_rotation st 1500 0 (zerof, zerof, zerof)
                  PollingUdpReceiver.zero_pose Hreach Hcon)).
Defined.

(** The stores of [Stop] end in the receiver that [Stop] returns. *)
Lemma after_stores_Stop (st : UdpReceiver.t) (inflight : list (recv_result * Z)) :
  UdpReceiver.m_running st = true ->
  StopStores.after_stores 8 (StopStores.joined st inflight) =
  UdpReceiver.Stop st inflight.
Proof.
  intros Hr. unfold UdpReceiver.Stop, StopStores.joined. rewrite Hr.
  reflexivity.
Qed.

(** X28.  [Stop] clears the published pose before it clears the receive
    timestamp.  After [m_trackingData.Reset()] and until
    [m_lastReceiveTimestamp.store(0)], which are three stores later, the
    receiver is stopped, [IsReceiving] still answers what it answered
    when the thread ended, and [GetRotation] fails: a reader on another
    thread can be told that data is arriving and be given none. *)
Theorem Stop_clears_data_before_timestamp (st : UdpReceiver.t)
    (inflight : list (recv_result * Z)) (nowUs : Z)
    (ypr : float * float * float) (n : nat) :
  UdpReceiver.m_running st = true ->
  (3 <= n <= 6)%nat ->
  let s0 := StopStores.joined st inflight in
  let s := StopStores.after_stores n s0 in
  UdpReceiver.IsRunning s = false /\
  UdpReceiver.IsReceiving s nowUs = UdpReceiver.IsReceiving s0 nowUs /\
  UdpReceiver.GetRotation s ypr = (false, ypr) /\
  StopStores.after_stores 8 s0 = UdpReceiver.Stop st inflight.
Proof.
  intros Hr Hn. cbv zeta.
  split; [| split; [| split; [| apply after_stores_Stop, Hr]]];
    assert (Hc : n = 3%nat \/ n = 4%nat \/ n = 5%nat \/ n = 6%nat) by lia;
    destruct Hc as [-> | [-> | [-> | ->]]];
    try reflexivity;
    destruct ypr as [[a b] c]; reflexivity.
Qed.

Lemma Stop_clears_data_before_timestamp_witness :
  let s0 := StopStores.joined UdpReceiver.example_threaded_receiver [] in
  let s := StopStores.after_stores 3 s0 in
  UdpReceiver.IsReceiving s0 6000 = true /\
  UdpReceiver.IsReceiving s 6000 = true /\
  UdpReceiver.GetRotation s (zerof, zerof, zerof) = (false, (zerof, zerof, zerof)).
Proof.
  cbv zeta.
  assert (Hr : UdpReceiver.m_running UdpReceiver.example_threaded_receiver = true)
    by (vm_compute; reflexivity).
  destruct (Stop_clears_data_before_timestamp
              UdpReceiver.example_threaded_receiver [] 6000
              (zerof, zerof, zerof) 3 Hr ltac:(lia)) as (_ & Hrec & Hrot & _).
  cbv zeta in Hrec, Hrot.
  assert (H0 : UdpReceiver.IsReceiving
                 (StopStores.joined UdpReceiver.example_threaded_receiver [])
                 6000 = true) by (vm_compute; reflexivity).
  split; [exact H0 |]. split; [rewrite Hrec; exact H0 | exact Hrot].
Defined.

End ReceiverFacts.

(** ** Angles *)

Module AngleFacts.
Import math MathFacts angle.
Import TrackingProcessor TrackingProcessorFacts ProcessorView ProcessorFacts.
Local Open Scope R_scope.

(** [std::fmod x 360]: [x] less a whole number of turns, of the sign of [x]
    and smaller than one turn. *)
Lemma fmod_360 (x : R) :
  exists n : Z,
    fmod x 360.0 = x - IZR n * 360 /\
    (0 <= x -> 0 <= fmod x 360.0 < 360) /\
    (x < 0 -> -360 < fmod x 360.0 <= 0).
Proof.
  unfold fmod. exists (trunc (x / 360.0)). split; [lra |].
  assert (Hq : x = x / 360.0 * 360) by lra.
  unfold trunc. destruct (Rle_dec 0 (x / 360.0)) as [Hs | Hs].
  - destruct (base_Int_part (x / 360.0)) as [Hlo Hhi].
    split; intros Hx; [lra | exfalso; lra].
  - destruct (base_Int_part (- (x / 360.0))) as [Hlo Hhi].
    rewrite opp_IZR.
    split; intros Hx; [exfalso; lra | lra].
Qed.

Lemma NormalizeAngle_in_range (a : R) :
  -180 <= a <= 180 -> NormalizeAngle a = a.
Proof.
  intros Ha. unfold NormalizeAngle.
  destruct (Rge_dec a (-180.0)); [| lra].
  destruct (Rle_dec a 180.0); [reflexivity | lra].
Qed.

Lemma NormalizeAngle_turns (a : R) :
  -180 <= NormalizeAngle a <= 180 /\
  exists n : Z, NormalizeAngle a = a - IZR n * 360.
Proof.
  unfold NormalizeAngle.
  destruct (Rge_dec a (-180.0)) as [Hlo | Hlo];
    [destruct (Rle_dec a 180.0) as [Hhi | Hhi] |].
  - split; [lra | exists 0%Z; lra].
  - destruct (fmod_360 a) as (n & Hn & Hpos & _).
    specialize (Hpos ltac:(lra)).
    destruct (Rgt_dec (fmod a 360.0) 180.0);
      [| destruct (Rlt_dec (fmod a 360.0) (-180.0))].
    + split; [lra |]. exists (n + 1)%Z. rewrite plus_IZR. lra.
    + lra.
    + split; [lra |]. exists n. lra.
  - destruct (fmod_360 a) as (n & Hn & _ & Hneg).
    specialize (Hneg ltac:(lra)).
    destruct (Rgt_dec (fmod a 360.0) 180.0);
      [| destruct (Rlt_dec (fmod a 360.0) (-180.0))].
    + lra.
    + split; [lra |]. exists (n - 1)%Z. rewrite minus_IZR. lra.
    + split; [lra |]. exists n. lra.
Qed.

(** X14.  [NormalizeAngle] returns, for every angle, a value between -180
    and 180 that differs from it by a whole number of turns; it leaves the
    angles of that range as they are, both ends included, and is
    idempotent.  [ShortestAngleDelta] is at most half a turn. *)
Theorem NormalizeAngle_spec (a from to : R) :
  -180 <= NormalizeAngle a <= 180 /\
  (exists n : Z, NormalizeAngle a = a - IZR n * 360) /\
  (-180 <= a <= 180 -> NormalizeAngle a = a) /\
  NormalizeAngle (NormalizeAngle a) = NormalizeAngle a /\
  Rabs (ShortestAngleDelta from to) <= 180.
Proof.
  destruct (NormalizeAngle_turns a) as [Hr Hn].
  split; [exact Hr |]. split; [exact Hn |].
  split; [apply NormalizeAngle_in_range |].
  split; [apply NormalizeAngle_in_range, Hr |].
  unfold ShortestAngleDelta.
  destruct (NormalizeAngle_turns (to - from)) as [Hr' _].
  apply Rabs_le. lra.
Qed.

Lemma NormalizeAngle_spec_witness :
  NormalizeAngle 180 = 180 /\ NormalizeAngle (-180) = -180.
Proof.
  split.
  - apply (proj1 (proj2 (proj2 (NormalizeAngle_spec 180 0 0)))). lra.
  - apply (proj1 (proj2 (proj2 (NormalizeAngle_spec (-180) 0 0)))). lra.
Defined.

Lemma ApplyDeadzone_out_of_range (v t : R) :
  180 + Rmax 0 t < Rabs v -> out_of_range (ApplyDeadzone v t).
Proof.
  intros Hv.
  assert (H : 180 < Rabs (ApplyDeadzone v t)).
  { revert Hv. unfold Rmax. destruct (Rle_dec 0 t); deadzone_cases. }
  split; [exact H |].
  intros x Hx. destruct (NormalizeAngle_turns x) as [Hr _].
  rewrite <- Hx in Hr. apply Rabs_le in Hr. lra.
Qed.

(** X15.  [Process] does not wrap angles: on the first frame, an axis
    whose centred sample lies further from 0 than 180 plus the deadzone
    threshold enters the accumulator with a magnitude above 180, a value
    that [NormalizeAngle] and [ShortestAngleDelta] never return. *)
Theorem Process_does_not_wrap (st : t) (y p r : R) (remote : bool) (dt : R)
    (now : Z) :
  m_hasSmoothedValue st = false ->
  let centred := CenterOffsetManager.ApplyOffset (m_centerManager st) (y, p, r) in
  let st' := snd (Process st y p r remote dt now) in
  (180 + Rmax 0 (DeadzoneSettings.yaw (m_deadzone st)) < Rabs (fst (fst centred)) ->
   out_of_range (m_smoothedYaw st')) /\
  (180 + Rmax 0 (DeadzoneSettings.pitch (m_deadzone st)) < Rabs (snd (fst centred)) ->
   out_of_range (m_smoothedPitch st')) /\
  (180 + Rmax 0 (DeadzoneSettings.roll (m_deadzone st)) < Rabs (snd centred) ->
   out_of_range (m_smoothedRoll st')).
Proof.
  intros Hfirst. cbv zeta.
  pose proof (Process_smoothed st y p r remote dt now) as Hs.
  unfold target in Hs. rewrite Hfirst in Hs.
  destruct (CenterOffsetManager.ApplyOffset _ _) as [[cy cp] cr].
  apply smoothed_inv in Hs. destruct Hs as (-> & -> & ->).
  cbn [fst snd].
  split; [| split]; intros Hfar; apply (ApplyDeadzone_out_of_range _ _ Hfar).
Qed.

Lemma Process_does_not_wrap_witness :
  out_of_range
    (m_smoothedYaw
       (snd (Process (RecenterTo init 170 0 0) (-170) 0 0 false (1 / 60) 0))).
Proof.
  apply (proj1 (Process_does_not_wrap (RecenterTo init 170 0 0)
                  (-170) 0 0 false (1 / 60) 0 eq_refl)).
  cbn. unfold Rmax, Rabs.
  destruct (Rle_dec 0 0.0); destruct (Rcase_abs _); lra.
Defined.

End AngleFacts.

(** ** The pattern scanner *)

Module ScannerFacts.
Import Ascii String memory.

Lemma MatchPattern_spec (length : nat) :
  forall (data pattern : list byte) (mask : list ascii),
    (length <= List.length data)%nat ->
    (length <= List.length pattern)%nat ->
    (length <= List.length mask)%nat ->
    MatchPattern data pattern mask length = true <->
    (forall k, (k < length)%nat -> nth k mask "?"%char = "x"%char ->
               nth k data x00 = nth k pattern x00).
Proof.
  induction length as [| n IH]; intros data pattern mask Hd Hp Hm.
  - cbn. split; [intros _ k Hk; lia | reflexivity].
  - destruct data as [| d data]; [cbn in Hd; lia |].
    destruct pattern as [| p pattern]; [cbn in Hp; lia |].
    destruct mask as [| m mask]; [cbn in Hm; lia |].
    cbn in Hd, Hp, Hm. cbn [MatchPattern].
    destruct (Ascii.eqb_spec m "x") as [Hx | Hx]; cbn [andb].
    + destruct (Byte.eqb d p) eqn:Hdp; cbn [negb].
      * apply Byte.byte_dec_bl in Hdp. subst p.
        rewrite IH by lia. split.
        -- intros H [| k] Hk Hmask; [reflexivity |]. cbn. apply H; [lia | exact Hmask].
        -- intros H k Hk Hmask. apply (H (S k)); [lia | exact Hmask].
      * split; [discriminate |]. intros H.
        specialize (H 0%nat ltac:(lia) Hx). cbn in H. subst p.
        assert (Byte.eqb d d = true) by (apply Byte.byte_dec_lb; reflexivity).
        congruence.
    + rewrite IH by lia. split.
      * intros H [| k] Hk Hmask; [cbn in Hmask; contradiction |].
        cbn. apply H; [lia | exact Hmask].
      * intros H k Hk Hmask. apply (H (S k)); [lia | exact Hmask].
Qed.

Lemma MatchPattern_at (range pattern : list byte) (mask : list ascii)
    (length i : nat) :
  (i + length <= List.length range)%nat ->
  (length <= List.length pattern)%nat ->
  (length <= List.length mask)%nat ->
  MatchPattern (skipn i range) pattern mask length = true <->
  matches_at range pattern mask length i.
Proof.
  intros Hr Hp Hm. rewrite MatchPattern_spec; [| rewrite length_skipn; lia | lia | lia].
  unfold matches_at. split; intros H k Hk Hmask.
  - rewrite <- nth_skipn. apply H; assumption.
  - rewrite nth_skipn. apply H; assumption.
Qed.

Lemma tl_skipn {A} (i : nat) (l : list A) : tl (skipn i l) = skipn (S i) l.
Proof.
  revert l. induction i as [| i IH]; intros [| a l]; try reflexivity.
  rewrite !skipn_cons. apply IH.
Qed.

Lemma scan_loop_spec (range pattern : list byte) (mask : list ascii)
    (length : nat) (n : nat) :
  (length <= List.length pattern)%nat ->
  (length <= List.length mask)%nat ->
  forall i,
    (i + n + length <= S (List.length range))%nat ->
    match scan_loop n i (skipn i range) pattern mask length with
    | Some j =>
        (i <= j < i + n)%nat /\
        matches_at range pattern mask length j /\
        (forall j', (i <= j' < j)%nat -> ~ matches_at range pattern mask length j')
    | None =>
        forall j', (i <= j' < i + n)%nat -> ~ matches_at range pattern mask length j'
    end.
Proof.
  intros Hp Hm. induction n as [| n IH]; intros i Hi.
  - cbn. intros j' Hj'. lia.
  - cbn [scan_loop].
    pose proof (MatchPattern_at range pattern mask length i ltac:(lia) Hp Hm) as Hat.
    destruct (MatchPattern (skipn i range) pattern mask length).
    + split; [lia |]. split; [apply Hat; reflexivity |]. intros j' Hj'. lia.
    + rewrite tl_skipn. specialize (IH (S i) ltac:(lia)).
      assert (Hno : ~ matches_at range pattern mask length i).
      { intros H. apply Hat in H. discriminate H. }
      destruct (scan_loop n (S i) (skipn (S i) range) pattern mask length) as [j |].
      * destruct IH as (Hj & Hmatch & Hfirst).
        split; [lia |]. split; [exact Hmatch |].
        intros j' Hj'. destruct (Nat.eq_dec j' i) as [-> | Hne]; [exact Hno |].
        apply Hfirst. lia.
      * intros j' Hj'. destruct (Nat.eq_dec j' i) as [-> | Hne]; [exact Hno |].
        apply IH. lia.
Qed.

(** X19.  [ScanPatternMaskInRange] returns the first match: the offset it
    returns lies with the whole pattern inside the range, the pattern
    matches there, and it matches at no smaller offset; it returns
    [nullptr] exactly when the pattern matches nowhere inside the range, a
    pattern longer than the range included. *)
Theorem ScanPatternMaskInRange_first_match (range pattern : list byte)
    (mask : list ascii) (length : nat) :
  (length <= List.length pattern)%nat ->
  (length <= List.length mask)%nat ->
  match ScanPatternMaskInRange range pattern mask length with
  | Some i =>
      (i + length <= List.length range)%nat /\
      matches_at range pattern mask length i /\
      (forall j, (j < i)%nat -> ~ matches_at range pattern mask length j)
  | None =>
      forall j, (j + length <= List.length range)%nat ->
                ~ matches_at range pattern mask length j
  end.
Proof.
  intros Hp Hm. unfold ScanPatternMaskInRange. cbv zeta.
  destruct (Nat.ltb_spec (List.length range) length) as [Hlong | Hfit].
  - intros j Hj. lia.
  - pose proof (scan_loop_spec range pattern mask length
                  (S (List.length range - length)) Hp Hm 0%nat ltac:(lia)) as H.
    cbn [skipn] in H.
    destruct (scan_loop _ 0 range pattern mask length) as [i |].
    + destruct H as (Hi & Hmatch & Hfirst).
      split; [lia |]. split; [exact Hmatch |].
      intros j Hj. apply Hfirst. lia.
    + intros j Hj. apply H. lia.
Qed.

Lemma ScanPatternMaskInRange_first_match_witness :
  match ScanPatternMaskInRange [x01; x48; x8b; x05; x48; x8b]
          [x48; x00] ["x"%char; "?"%char] 2 with
  | Some i => (i + 2 <= 6)%nat
  | None => False
  end.
Proof.
  pose proof (ScanPatternMaskInRange_first_match
                [x01; x48; x8b; x05; x48; x8b] [x48; x00]
                ["x"%char; "?"%char] 2 ltac:(cbn; lia) ltac:(cbn; lia)) as H.
  destruct (ScanPatternMaskInRange _ _ _ _) as [i |] eqn:E.
  - exact (proj1 H).
  - vm_compute in E. discriminate E.
Defined.

Lemma ParsePattern_loop_byte (b : byte) (rest : string) (bytes : list byte)
    (mask : list ascii) :
  ParsePattern_loop (render_token (Some b) ++ rest) bytes mask =
  ParsePattern_loop rest (bytes ++ [b]) (mask ++ ["x"%char]).
Proof. destruct b; reflexivity. Qed.

Lemma ParsePattern_loop_token (t : token) (rest : string) (bytes : list byte)
    (mask : list ascii) :
  ParsePattern_loop (render_token t ++ rest) bytes mask =
  ParsePattern_loop rest (bytes ++ [token_byte t]) (mask ++ [token_mask t]).
Proof.
  destruct t as [b |]; [apply ParsePattern_loop_byte | reflexivity].
Qed.

Lemma append_empty (s : string) : (s ++ "")%string = s.
Proof. induction s as [| c s IH]; cbn; [reflexivity | rewrite IH; reflexivity]. Qed.

Lemma ParsePattern_loop_render (ts : list token) :
  ts <> [] ->
  forall bytes mask,
    ParsePattern_loop (render ts) bytes mask =
    (true, bytes ++ map token_byte ts, mask ++ map token_mask ts).
Proof.
  induction ts as [| t ts IH]; [congruence |]. intros _ bytes mask.
  destruct ts as [| t' ts].
  - cbn [render map]. rewrite <- (append_empty (render_token t)).
    rewrite ParsePattern_loop_token. cbn [ParsePattern_loop].
    destruct (bytes ++ [token_byte t]) eqn:E; [| reflexivity].
    apply app_eq_nil in E. destruct E as [_ E]. discriminate E.
  - change (render (t :: t' :: ts))
      with (render_token t ++ String " " (render (t' :: ts)))%string.
    rewrite ParsePattern_loop_token.
    change (ParsePattern_loop (String " " (render (t' :: ts)))
              (bytes ++ [token_byte t]) (mask ++ [token_mask t]))
      with (ParsePattern_loop (render (t' :: ts))
              (bytes ++ [token_byte t]) (mask ++ [token_mask t])).
    rewrite IH by discriminate.
    cbn [map]. rewrite <- !app_assoc. reflexivity.
Qed.

Lemma ParsePattern_loop_spaces (s : string) :
  (forall c, List.In c (list_ascii_of_string s) -> isspace c = true) ->
  ParsePattern_loop s [] [] = (false, [], []).
Proof.
  induction s as [| c s IH]; intros H; [reflexivity |].
  cbn [ParsePattern_loop]. rewrite (H c) by (left; reflexivity).
  apply IH. intros c' Hc'. apply H. right. exact Hc'.
Qed.

(** X20.  [ParsePattern] reads back the documented format: the text of
    one or more tokens, each two upper-case hexadecimal digits or [??],
    separated by single spaces, gives the tokens' bytes and a mask with
    [x] for each byte and [?] for each wildcard, and [ScanPatternInRange]
    on that text is [ScanPatternMaskInRange] on them.  A text of white
    space only, the empty one included, is refused.  A sign followed by
    one digit is accepted as a byte, the negative ones modulo 256. *)
Theorem ParsePattern_spec (ts : list token) (range : list byte) :
  (ts <> [] ->
   ParsePattern (render ts) = (true, map token_byte ts, map token_mask ts) /\
   ScanPatternInRange range (render ts) =
     ScanPatternMaskInRange range (map token_byte ts) (map token_mask ts)
       (List.length ts)) /\
  (forall s,
     (forall c, List.In c (list_ascii_of_string s) -> isspace c = true) ->
     ParsePattern s = (false, [], []) /\ ScanPatternInRange range s = None) /\
  (forall c v,
     hex_digit c = Some v ->
     ParsePattern (String "-" (String c "")) =
       (true, [ieee.byte_of_Z (- v)], ["x"%char]) /\
     ParsePattern (String "+" (String c "")) =
       (true, [ieee.byte_of_Z v], ["x"%char])).
Proof.
  split; [| split].
  - intros Hts.
    assert (H : ParsePattern (render ts) =
                (true, map token_byte ts, map token_mask ts))
      by (apply (ParsePattern_loop_render ts Hts [] [])).
    split; [exact H |].
    unfold ScanPatternInRange, ScanPatternMaskInRange. rewrite H.
    cbn [negb]. rewrite length_map. reflexivity.
  - intros s Hs.
    assert (H : ParsePattern s = (false, [], []))
      by (apply ParsePattern_loop_spaces, Hs).
    split; [exact H |]. unfold ScanPatternInRange. rewrite H. reflexivity.
  - intros c v Hc. unfold ParsePattern. cbn [ParsePattern_loop].
    change (isspace "-") with false. change (isspace "+") with false.
    change (Ascii.eqb "-" "?") with false. change (Ascii.eqb "+" "?") with false.
    cbv iota. unfold strtol2.
    change (hex_digit "-") with (@None Z). change (hex_digit "+") with (@None Z).
    rewrite Hc.
    change (Ascii.eqb "-" "+") with false. change (Ascii.eqb "-" "-") with true.
    change (Ascii.eqb "+" "+") with true.
    cbv iota. split; reflexivity.
Qed.

Lemma ParsePattern_spec_witness :
  ParsePattern "48 8B 05 ?? ??" =
  (true, [x48; x8b; x05; x00; x00],
   ["x"%char; "x"%char; "x"%char; "?"%char; "?"%char]).
Proof.
  apply (proj1 (proj1 (ParsePattern_spec
                         [Some x48; Some x8b; Some x05; None; None] [])
                  ltac:(discriminate))).
Defined.

End ScannerFacts.

(** ** The crosshair projection *)

Module RenderingFacts.
Import rotation rendering.
Local Open Scope R_scope.

Lemma differs_from_itself_false (a : R) : differs_from_itself a = false.
Proof.
  unfold differs_from_itself. destruct (Req_dec_T a a); [reflexivity | congruence].
Qed.

(** A rotation by the angle 0 leaves every vector in place, about any
    axis. *)
Lemma RotateAroundAxis_zero (v k : vec3) (s : R) :
  s = 0 -> RotateAroundAxis v k 1 s = v.
Proof.
  intros ->. destruct v as [[v0 v1] v2], k as [[k0 k1] k2].
  cbv [RotateAroundAxis]. f_equal; [f_equal |]; lra.
Qed.

(** X21.  Without a head offset the crosshair is at the centre of the
    screen, for every screen size, field of view and camera pitch. *)
Theorem ProjectCrosshair_centre (params : CrosshairProjectionParams) :
  yawOffset params = 0 -> pitchOffset params = 0 -> rollOffset params = 0 ->
  ProjectCrosshair params =
  {| x := screenWidth params / 2; y := screenHeight params / 2; valid := true |}.
Proof.
  intros Hy Hp Hr. unfold ProjectCrosshair. rewrite Hy, Hp, Hr.
  replace (- 0 * kDegToRad) with 0 by lra.
  rewrite cos_0, sin_0. cbv zeta.
  replace (1.0 - 1) with 0 by lra.
  replace (- cos (gameCameraPitch params) * 0) with 0 by lra.
  replace (sin (gameCameraPitch params) * 0) with 0 by lra.
  rewrite !Rmult_0_r, Rplus_0_r.
  rewrite !RotateAroundAxis_zero by lra.
  rewrite !differs_from_itself_false. cbn [orb].
  rewrite !differs_from_itself_false. cbn [orb].
  unfold Rdiv. f_equal; lra.
Qed.

Lemma ProjectCrosshair_centre_witness :
  ProjectCrosshair
    {| screenWidth := 1920; screenHeight := 1080; fovDegrees := 75;
       yawOffset := 0; pitchOffset := 0; rollOffset := 0;
       gameCameraPitch := 1 |} =
  {| x := 1920 / 2; y := 1080 / 2; valid := true |}.
Proof.
  apply (ProjectCrosshair_centre
           {| screenWidth := 1920; screenHeight := 1080; fovDegrees := 75;
              yawOffset := 0; pitchOffset := 0; rollOffset := 0;
              gameCameraPitch := 1 |}); reflexivity.
Defined.



(** X23.  On a screen that is at least two margins wide and high,
    [ClampToScreen] moves a position into the area that keeps the margin
    on every side, by [Clamp] on each coordinate; it leaves a position
    inside that area, and the validity flag, as they are. *)
Theorem ClampToScreen_spec (pos : ScreenPosition) (width height margin : R) :
  margin <= width - margin -> margin <= height - margin ->
  let pos' := ClampToScreen pos width height margin in
  margin <= x pos' <= width - margin /\
  margin <= y pos' <= height - margin /\
  x pos' = angle.Clamp (x pos) margin (width - margin) /\
  y pos' = angle.Clamp (y pos) margin (height - margin) /\
  valid pos' = valid pos /\
  (margin <= x pos <= width - margin -> margin <= y pos <= height - margin ->
   pos' = pos).
Proof.
  intros Hw Hh. destruct pos as [px py v].
  unfold ClampToScreen, angle.Clamp. cbn [x y valid].
  destruct (Rlt_dec px margin); destruct (Rlt_dec py margin);
    repeat match goal with
      | |- context [Rgt_dec ?a ?b] => destruct (Rgt_dec a b)
      end;
    repeat split; try lra; intros; f_equal; lra.
Qed.

Lemma ClampToScreen_spec_witness :
  x (ClampToScreen {| x := 5000; y := -3; valid := true |} 1920 1080 10) =
    angle.Clamp 5000 10 (1920 - 10).
Proof.
  apply (ClampToScreen_spec {| x := 5000; y := -3; valid := true |}
           1920 1080 10); lra.
Defined.

End RenderingFacts.

(** ** The hotkey poller *)

Module InputFacts.
Import Ascii String input.
Local Open Scope Z_scope.

Lemma CheckKey_again (vk : Z) (down cb : bool) (keys : Z -> Z) :
  CheckKey vk (fst (CheckKey vk down cb keys)) cb keys =
  (fst (CheckKey vk down cb keys), false).
Proof.
  unfold CheckKey.
  destruct (vk =? 0), cb, (pressed keys vk), down; reflexivity.
Qed.

Lemma Poll_hotkeys_again (keys : Z -> Z) (hotkeys : list HotkeyEntry) :
  Poll_hotkeys (fst (Poll_hotkeys hotkeys keys)) keys =
  (fst (Poll_hotkeys hotkeys keys), []).
Proof.
  induction hotkeys as [| e rest IH]; [reflexivity |].
  cbn [Poll_hotkeys].
  pose proof (CheckKey_again (vkCode e) (keyDown e) (callback e) keys) as Hc.
  destruct (CheckKey (vkCode e) (keyDown e) (callback e) keys) as [down call].
  destruct (Poll_hotkeys rest keys) as [rest' trace].
  cbn [fst] in *. cbn [Poll_hotkeys vkCode keyDown callback id].
  rewrite Hc, IH. reflexivity.
Qed.

Lemma Poll_hotkeys_fired (keys : Z -> Z) (i : Z) (hotkeys : list HotkeyEntry) :
  In (HotkeyFired i) (snd (Poll_hotkeys hotkeys keys)) <->
  exists e, In e hotkeys /\ id e = i /\
            vkCode e <> 0 /\ callback e = true /\
            pressed keys (vkCode e) = true /\ keyDown e = false.
Proof.
  induction hotkeys as [| e rest IH].
  - cbn. split; [contradiction | intros (e & [] & _)].
  - cbn [Poll_hotkeys].
    assert (Hc : snd (CheckKey (vkCode e) (keyDown e) (callback e) keys) = true <->
                 vkCode e <> 0 /\ callback e = true /\
                 pressed keys (vkCode e) = true /\ keyDown e = false).
    { unfold CheckKey. destruct (Z.eqb_spec (vkCode e) 0) as [H0 | H0];
        destruct (callback e), (pressed keys (vkCode e)), (keyDown e);
        cbn; intuition congruence. }
    destruct (CheckKey (vkCode e) (keyDown e) (callback e) keys) as [down call].
    destruct (Poll_hotkeys rest keys) as [rest' trace].
    cbn [snd] in *. rewrite in_app_iff, IH. split.
    + intros [Hhere | (e' & Hin & He')].
      * destruct call; [| contradiction]. destruct Hhere as [Hi | []].
        injection Hi as Hi. exists e. split; [left; reflexivity |].
        split; [exact Hi | apply Hc; reflexivity].
      * exists e'. split; [right; exact Hin | exact He'].
    + intros (e' & [-> | Hin] & Hi & He').
      * left. apply Hc in He'. rewrite He'. left. rewrite Hi. reflexivity.
      * right. exists e'. split; [exact Hin |]. split; [exact Hi | exact He'].
Qed.

(** X24.  Callbacks fire on the press, not while a key is held: a
    generic hotkey's callback is invoked by [Poll] exactly when its key
    code is not 0, it has a callback, its key is pressed and was not
    pressed at the poll before; and a second [Poll] with the keys
    unchanged invokes no callback and changes nothing. *)
Theorem Poll_fires_on_press (st : t) (keys : Z -> Z) :
  (forall i,
     In (HotkeyFired i) (snd (Poll st keys)) <->
     exists e, In e (m_hotkeys st) /\ id e = i /\
               vkCode e <> 0 /\ callback e = true /\
               pressed keys (vkCode e) = true /\ keyDown e = false) /\
  Poll (fst (Poll st keys)) keys = (fst (Poll st keys), []).
Proof.
  unfold Poll. split.
  - intros i.
    destruct (CheckKey (m_toggleKey st) (m_toggleKeyDown st)
                (m_toggleCallback st) keys) as [td tc].
    destruct (CheckKey (m_recenterKey st) (m_recenterKeyDown st)
                (m_recenterCallback st) keys) as [rd rc].
    pose proof (Poll_hotkeys_fired keys i (m_hotkeys st)) as H.
    destruct (Poll_hotkeys (m_hotkeys st) keys) as [hk trace].
    cbn [snd] in *. rewrite <- H. rewrite !in_app_iff.
    destruct tc, rc; cbn; intuition discriminate.
  - pose proof (CheckKey_again (m_toggleKey st) (m_toggleKeyDown st)
                  (m_toggleCallback st) keys) as Ht.
    pose proof (CheckKey_again (m_recenterKey st) (m_recenterKeyDown st)
                  (m_recenterCallback st) keys) as Hr.
    pose proof (Poll_hotkeys_again keys (m_hotkeys st)) as Hh.
    destruct (CheckKey (m_toggleKey st) (m_toggleKeyDown st)
                (m_toggleCallback st) keys) as [td tc].
    destruct (CheckKey (m_recenterKey st) (m_recenterKeyDown st)
                (m_recenterCallback st) keys) as [rd rc].
    destruct (Poll_hotkeys (m_hotkeys st) keys) as [hk trace].
    cbn [fst snd] in *.
    cbn [m_toggleKey m_toggleKeyDown m_toggleCallback m_recenterKey
         m_recenterKeyDown m_recenterCallback m_hotkeys m_stopFlag m_running
         m_pollInterval m_nextHotkeyId].
    rewrite Ht, Hr, Hh. reflexivity.
Qed.

Lemma map_id_Poll_hotkeys (keys : Z -> Z) (hotkeys : list HotkeyEntry) :
  map id (fst (Poll_hotkeys hotkeys keys)) = map id hotkeys.
Proof.
  induction hotkeys as [| e rest IH]; [reflexivity |].
  cbn [Poll_hotkeys].
  destruct (CheckKey (vkCode e) (keyDown e) (callback e) keys) as [down call].
  destruct (Poll_hotkeys rest keys) as [rest' trace].
  cbn [fst map id] in *. rewrite IH. reflexivity.
Qed.

Lemma In_erase_first (i : Z) (hotkeys : list HotkeyEntry) (e : HotkeyEntry) :
  NoDup (map id hotkeys) ->
  In e (erase_first i hotkeys) <-> In e hotkeys /\ id e <> i.
Proof.
  induction hotkeys as [| h rest IH]; intros Hnd.
  - cbn. tauto.
  - cbn [map] in Hnd. inversion Hnd as [| ? ? Hnotin Hnd']; subst.
    cbn [erase_first]. destruct (Z.eqb_spec (id h) i) as [Hi | Hi].
    + split.
      * intros Hin. split; [right; exact Hin |].
        intros He. apply Hnotin. rewrite Hi, <- He. apply in_map, Hin.
      * intros [[-> | Hin] He]; [contradiction | exact Hin].
    + cbn [In]. rewrite (IH Hnd'). split.
      * intros [-> | [Hin He]]; [split; [left; reflexivity | exact Hi] |].
        split; [right; exact Hin | exact He].
      * intros [[-> | Hin] He]; [left; reflexivity | right; split; assumption].
Qed.

Lemma erase_first_fresh (i : Z) (hotkeys : list HotkeyEntry) (e : HotkeyEntry) :
  ~ In i (map id hotkeys) -> id e = i ->
  erase_first i (hotkeys ++ [e]) = hotkeys.
Proof.
  intros Hnotin He. induction hotkeys as [| h rest IH].
  - cbn. rewrite He, Z.eqb_refl. reflexivity.
  - cbn [app erase_first]. cbn [map In] in Hnotin.
    destruct (Z.eqb_spec (id h) i) as [Hi | Hi]; [tauto |].
    rewrite IH by tauto. reflexivity.
Qed.

Lemma map_id_erase_first (i : Z) (hotkeys : list HotkeyEntry) :
  NoDup (map id hotkeys) ->
  NoDup (map id (erase_first i hotkeys)) /\
  (forall P, Forall P hotkeys -> Forall P (erase_first i hotkeys)).
Proof.
  induction hotkeys as [| h rest IH]; intros Hnd.
  - split; [exact Hnd | intros P H; exact H].
  - cbn [map] in Hnd. inversion Hnd as [| ? ? Hnotin Hnd']; subst.
    cbn [erase_first]. destruct (id h =? i).
    + split; [exact Hnd' |]. intros P H. inversion H; assumption.
    + destruct (IH Hnd') as [IH1 IH2]. split.
      * cbn [map]. constructor; [| exact IH1].
        intros Hin. apply Hnotin. apply in_map_iff in Hin.
        destruct Hin as (e & He & Hin). apply in_map_iff. exists e.
        split; [exact He |].
        clear - Hin. induction rest as [| r rest IHr]; [contradiction |].
        cbn [erase_first] in Hin. destruct (id r =? i);
          [right; exact Hin |].
        destruct Hin as [-> | Hin]; [left; reflexivity | right; apply IHr, Hin].
      * intros P H. inversion H; subst. constructor; [assumption | apply IH2; assumption].
Qed.

Lemma AddHotkey_Some (st : t) (vk : Z) (cb : bool) (id_ : Z) (st' : t) :
  AddHotkey st vk cb = Some (id_, st') ->
  m_nextHotkeyId st < INT_MAX /\
  id_ = m_nextHotkeyId st /\
  st' = with_hotkeys st (m_hotkeys st ++ [mkEntry id_ vk false cb])
          (m_nextHotkeyId st + 1).
Proof.
  unfold AddHotkey. destruct (Z.ltb_spec (m_nextHotkeyId st) INT_MAX) as [H | H];
    [| discriminate].
  intros E. injection E as <- <-. repeat split. exact H.
Qed.

Lemma step_ids_fresh (st st' : t) :
  poller_step st st' -> ids_fresh st -> ids_fresh st'.
Proof.
  unfold ids_fresh. intros Hstep (Hnext & Hnd & Hall).
  destruct Hstep as [st vk cb | st vk cb | st vk cb i st' Hadd | st i
                    | st interval | st | st keys].
  - repeat split; try assumption; apply Hnext.
  - repeat split; try assumption; apply Hnext.
  - apply AddHotkey_Some in Hadd. destruct Hadd as (Hlt & -> & ->).
    cbn [with_hotkeys m_hotkeys m_nextHotkeyId].
    rewrite map_app. cbn [map id]. split; [lia |]. split.
    + apply NoDup_app; [exact Hnd | constructor; [intros [] | constructor] |].
      intros a Ha [<- | []]. apply in_map_iff in Ha.
      destruct Ha as (e & He & Hin).
      rewrite Forall_forall in Hall. specialize (Hall e Hin). lia.
    + apply Forall_app. split.
      * eapply Forall_impl; [| exact Hall]. cbn beta. intros e He. lia.
      * constructor; [cbn [id]; lia | constructor].
  - cbn [RemoveHotkey with_hotkeys m_hotkeys m_nextHotkeyId].
    destruct (map_id_erase_first i (m_hotkeys st) Hnd) as [H1 H2].
    split; [exact Hnext |]. split; [exact H1 | apply H2, Hall].
  - unfold Start. destruct (m_running st); cbn [snd m_hotkeys m_nextHotkeyId];
      [repeat split; try assumption; apply Hnext |].
    rewrite map_map. cbn [id]. split; [exact Hnext |]. split; [exact Hnd |].
    apply Forall_map. cbn [id]. exact Hall.
  - unfold Stop. destruct (m_running st); cbn [negb m_hotkeys m_nextHotkeyId];
      repeat split; try assumption; apply Hnext.
  - unfold Poll.
    destruct (CheckKey (m_toggleKey st) (m_toggleKeyDown st)
                (m_toggleCallback st) keys) as [td tc].
    destruct (CheckKey (m_recenterKey st) (m_recenterKeyDown st)
                (m_recenterCallback st) keys) as [rd rc].
    pose proof (map_id_Poll_hotkeys keys (m_hotkeys st)) as Hids.
    destruct (Poll_hotkeys (m_hotkeys st) keys) as [hk trace].
    cbn [fst m_hotkeys m_nextHotkeyId] in *.
    split; [exact Hnext |]. split; [rewrite Hids; exact Hnd |].
    rewrite Forall_forall in *. intros e He.
    assert (Hin : In (id e) (map id (m_hotkeys st)))
      by (rewrite <- Hids; apply in_map, He).
    apply in_map_iff in Hin. destruct Hin as (e' & Hid & Hin').
    rewrite <- Hid. apply Hall, Hin'.
Qed.

(** X25.  However the poller was used, its counter is a positive [int]
    and its registered hotkeys have distinct ids below the counter.  So,
    as long as the counter is below [INT_MAX], [AddHotkey] returns an id
    that no registration has and [RemoveHotkey] with that id undoes it; at
    [INT_MAX] the increment would overflow.  [RemoveHotkey] removes the
    registration with the given id and no other. *)
Theorem poller_ids_fresh (st : t) :
  poller_reachable st ->
  ids_fresh st /\
  (forall vk cb,
     m_nextHotkeyId st < INT_MAX ->
     exists id_ st',
       AddHotkey st vk cb = Some (id_, st') /\
       1 <= id_ < INT_MAX /\
       ~ In id_ (map id (m_hotkeys st)) /\
       m_hotkeys (RemoveHotkey st' id_) = m_hotkeys st) /\
  (forall vk cb, m_nextHotkeyId st = INT_MAX -> AddHotkey st vk cb = None) /\
  (forall i e,
     In e (m_hotkeys (RemoveHotkey st i)) <-> In e (m_hotkeys st) /\ id e <> i).
Proof.
  intros Hreach.
  assert (Hinv : ids_fresh st).
  { induction Hreach as [| st st' _ IH Hstep].
    - unfold ids_fresh, INT_MAX. cbn. split; [lia |]. split; constructor.
    - exact (step_ids_fresh st st' Hstep IH). }
  split; [exact Hinv |]. destruct Hinv as (Hnext & Hnd & Hall).
  assert (Hfresh : ~ In (m_nextHotkeyId st) (map id (m_hotkeys st))).
  { intros Hin. apply in_map_iff in Hin. destruct Hin as (e & He & Hin).
    rewrite Forall_forall in Hall. specialize (Hall e Hin). lia. }
  split; [| split].
  - intros vk cb Hlt. unfold AddHotkey.
    destruct (Z.ltb_spec (m_nextHotkeyId st) INT_MAX) as [_ | H]; [| lia].
    eexists. eexists. split; [reflexivity |]. split; [lia |].
    split; [exact Hfresh |].
    cbn [RemoveHotkey with_hotkeys m_hotkeys].
    apply erase_first_fresh; [exact Hfresh | reflexivity].
  - intros vk cb Hmax. unfold AddHotkey. rewrite Hmax.
    rewrite Z.ltb_irrefl. reflexivity.
  - intros i e. cbn [RemoveHotkey with_hotkeys m_hotkeys].
    apply In_erase_first, Hnd.
Qed.

Lemma poller_ids_fresh_witness :
  exists st,
    AddHotkey init 0x79 true = Some (1, st) /\
    poller_reachable st /\
    ~ In 2 (map id (m_hotkeys st)).
Proof.
  eexists. split; [reflexivity |].
  match goal with
  | |- poller_reachable ?s /\ _ =>
      assert (H : poller_reachable s)
        by (eapply poller_reachable_step;
              [apply poller_reachable_init |
               apply (step_AddHotkey init 0x79 true 1); reflexivity])
  end.
  split; [exact H |].
  destruct (proj1 (proj2 (poller_ids_fresh _ H)) 0x24 true)
    as (id_ & st' & Hadd & _ & Hfresh & _).
  - unfold INT_MAX. cbn. lia.
  - apply AddHotkey_Some in Hadd. destruct Hadd as (_ & -> & _).
    exact Hfresh.
Defined.

Lemma VirtualKeyToString_named (vk : Z) :
  In vk [0x70; 0x71; 0x72; 0x73; 0x74; 0x75; 0x76; 0x77; 0x78; 0x79; 0x7A; 0x7B;
         0x60; 0x61; 0x62; 0x63; 0x64; 0x65; 0x66; 0x67; 0x68; 0x69;
         0x6A; 0x6B; 0x6D; 0x6E; 0x6F;
         0x13; 0x2C; 0x90; 0x91; 0x24; 0x23; 0x2D; 0x2E] ->
  VirtualKeyToString vk <> "Unknown"%string.
Proof.
  cbn [In]. intros H.
  repeat (destruct H as [<- | H]; [discriminate |]). contradiction.
Qed.

(** X26.  Every key code that [IsValidHotkeyCode] accepts has a name in
    [VirtualKeyToString], except 0x6C, the separator key of the number
    pad, which is accepted and shown as [Unknown]. *)
Theorem IsValidHotkeyCode_named (vkCode : Z) :
  IsValidHotkeyCode vkCode = true ->
  (vkCode <> 0x6C -> VirtualKeyToString vkCode <> "Unknown"%string) /\
  IsValidHotkeyCode 0x6C = true /\
  VirtualKeyToString 0x6C = "Unknown"%string.
Proof.
  intros Hvalid. split; [| split; reflexivity].
  intros Hsep. apply VirtualKeyToString_named.
  revert Hvalid. unfold IsValidHotkeyCode.
  repeat match goal with
    | |- context [Z.leb ?a ?b] => destruct (Z.leb_spec a b)
    | |- context [Z.eqb ?a ?b] => destruct (Z.eqb_spec a b)
    end; cbn [andb]; try discriminate; intros _; cbn [In]; lia.
Qed.

Lemma IsValidHotkeyCode_named_witness :
  VirtualKeyToString 0x79 <> "Unknown"%string.
Proof.
  apply (proj1 (IsValidHotkeyCode_named 0x79 eq_refl)). discriminate.
Defined.

End InputFacts.
